(** * LCOH calculator: the techno-economic engine of [App.js]

    A shallow embedding of the calculation core of the hydrogen cost
    calculator: ingestion of hourly generation profiles (clamping and
    timezone correction), the discounted LCOE of a power source, the
    hour-by-hour merit-order dispatch of [calculateLCOH], and the cost and
    report figures derived from it; and of the functions around it that
    prepare its inputs: the preview of one day of a profile, the check
    that allows the calculation, and the handlers that edit the sources
    and the parameters.

    Numbers.  A JavaScript number is modelled by [num]: an exact rational
    or one of the IEEE special values [+Infinity], [-Infinity], [NaN].
    Arithmetic on rationals is exact: the rounding of binary64 is not
    modelled, and neither is the sign of zero (a zero divisor behaves as
    [+0]).  Everything else that the engine does with numbers (division by
    zero, truthiness, comparisons with [NaN], [Math.min] / [Math.max]) is
    JavaScript's.  Rounding can move a sum by a unit in the last place;
    the theorems therefore state comparisons, bounds, and equalities
    between numbers that the program computes by the same operations, and
    module [Binary64] gives the loop over the sources a second time, on
    binary64 numbers, to show a sum that rounding carries past its exact
    bound. *)

From Stdlib Require Import Floats.PrimFloat.
From Stdlib Require Import ZArith QArith Qround Qpower Lia Lqa Bool.
From Stdlib Require Import Sorted Permutation.
From stdpp Require Import base list.

(* A decimal literal of a binary64 number stands for the nearest one, as
   it does in JavaScript. *)
Set Warnings "-inexact-float".

Open Scope Q_scope.

(** ** JavaScript numbers *)

Inductive num : Type :=
| Fin (q : Q)
| PInf
| NInf
| NaN.

Declare Scope num_scope.
Delimit Scope num_scope with num.
Bind Scope num_scope with num.

(** Equality of numbers as values: rationals up to [Qeq]. *)
Definition num_eq (x y : num) : Prop :=
  match x, y with
  | Fin a, Fin b => a == b
  | PInf, PInf | NInf, NInf | NaN, NaN => True
  | _, _ => False
  end.

Infix "=n=" := num_eq (at level 70, no associativity).

Definition is_fin (x : num) : Prop :=
  match x with Fin _ => True | _ => False end.

(** Sign of a rational, as the comparison with zero. *)
Definition sgn (q : Q) : comparison := q ?= 0.

(** The infinity (or [NaN]) that a quotient or product takes from the sign
    of its finite operand. *)
Definition inf_of (c : comparison) : num :=
  match c with Gt => PInf | Lt => NInf | Eq => NaN end.

Definition neg (x : num) : num :=
  match x with
  | Fin q => Fin (- q)
  | PInf => NInf
  | NInf => PInf
  | NaN => NaN
  end.

Definition add (x y : num) : num :=
  match x, y with
  | NaN, _ | _, NaN => NaN
  | Fin a, Fin b => Fin (a + b)
  | PInf, NInf | NInf, PInf => NaN
  | PInf, _ | _, PInf => PInf
  | NInf, _ | _, NInf => NInf
  end.

Definition sub (x y : num) : num := add x (neg y).

Definition mul (x y : num) : num :=
  match x, y with
  | NaN, _ | _, NaN => NaN
  | Fin a, Fin b => Fin (a * b)
  | Fin a, PInf | PInf, Fin a => inf_of (sgn a)
  | Fin a, NInf | NInf, Fin a => inf_of (CompOpp (sgn a))
  | PInf, PInf | NInf, NInf => PInf
  | PInf, NInf | NInf, PInf => NInf
  end.

(** [x / y].  A zero divisor gives an infinity with the sign of the
    dividend, and [0 / 0] gives [NaN]; nothing is thrown. *)
Definition div (x y : num) : num :=
  match x, y with
  | NaN, _ | _, NaN => NaN
  | Fin a, Fin b =>
      match sgn b with
      | Eq => inf_of (sgn a)
      | _ => Fin (a / b)
      end
  | Fin _, PInf | Fin _, NInf => Fin 0
  | PInf, Fin b => match sgn b with Lt => NInf | _ => PInf end
  | NInf, Fin b => match sgn b with Lt => PInf | _ => NInf end
  | _, _ => NaN
  end.

Notation "x + y" := (add x y) : num_scope.
Notation "x - y" := (sub x y) : num_scope.
Notation "x * y" := (mul x y) : num_scope.
Notation "x / y" := (div x y) : num_scope.

(** Integer literals of the source. *)
Definition int (z : Z) : num := Fin (inject_Z z).

(** [x <= y] and [x < y]: false as soon as one side is [NaN]. *)
Definition leb (x y : num) : bool :=
  match x, y with
  | NaN, _ | _, NaN => false
  | Fin a, Fin b => Qle_bool a b
  | NInf, _ | _, PInf => true
  | _, _ => false
  end.

Definition ltb (x y : num) : bool :=
  match x, y with
  | NaN, _ | _, NaN => false
  | Fin a, Fin b => negb (Qle_bool b a)
  | PInf, _ | _, NInf => false
  | _, _ => true
  end.

(** [Math.min] and [Math.max]: [NaN] if either argument is [NaN]. *)
Definition Math_min (x y : num) : num :=
  match x, y with
  | NaN, _ | _, NaN => NaN
  | _, _ => if leb x y then x else y
  end.

Definition Math_max (x y : num) : num :=
  match x, y with
  | NaN, _ | _, NaN => NaN
  | _, _ => if leb x y then y else x
  end.

(** [Math.pow (x, n)] for a whole exponent. *)
Definition Math_pow (x : num) (n : Z) : num :=
  match n with
  | Z0 => int 1
  | Zpos p => Pos.iter (mul x) (int 1) p
  | Zneg p => (int 1 / Pos.iter (mul x) (int 1) p)%num
  end.

(** Truthiness of a number: [0] and [NaN] are falsy. *)
Definition truthy (x : num) : bool :=
  match x with
  | Fin q => negb (Qeq_bool q 0)
  | NaN => false
  | _ => true
  end.

(** Truthiness of a field that holds a number or [null]. *)
Definition truthy_opt (x : option num) : bool :=
  match x with
  | Some v => truthy v
  | None => false
  end.

(** ** The inputs *)

Inductive sourceType : Type := grid | solar | wind.

Definition sourceType_eqb (a b : sourceType) : bool :=
  match a, b with
  | grid, grid | solar, solar | wind, wind => true
  | _, _ => false
  end.

(** A power source, with the fields the engine reads.  [lcoe] and
    [timeSeriesData] are [null] until a profile has been downloaded. *)
Module PowerSource.
Record t : Type := mk {
  type : sourceType;
  capacity : num;          (* MW *)
  capex : num;             (* $/kW *)
  opex : num;              (* $/kW/year *)
  lcoe : option num;       (* $/kWh *)
  timeSeriesData : option (list num)
}.

Definition with_lcoe (s : t) (v : option num) : t :=
  mk (type s) (capacity s) (capex s) (opex s) v (timeSeriesData s).

Definition with_capacity (s : t) (c : num) : t :=
  mk (type s) c (capex s) (opex s) (lcoe s) (timeSeriesData s).
End PowerSource.

Module Electrolyzer.
Record t : Type := mk {
  capacity : num;          (* MW *)
  capex : num;             (* $/kW *)
  opex : num;              (* $/kW/year *)
  efficiency : num;        (* % *)
  baseConsumption : num    (* kWh/kg at 100% efficiency *)
}.
End Electrolyzer.

(** The lifetime is a whole number of years (the form field steps by 1):
    it bounds the discounting loops and is the exponent of [Math.pow].  A
    lifetime with a fraction, which the handler would take from
    [parseFloat], is outside the model. *)
Module Financial.
Record t : Type := mk {
  returnRate : num;        (* % *)
  lifetime : Z;            (* years *)
  capacityFactor : num     (* % *)
}.
End Financial.

Record inputs : Type := mkInputs {
  powerSources : list PowerSource.t;
  electrolyzer : Electrolyzer.t;
  financial : Financial.t
}.

(** ** Ingestion of hourly profiles *)

Definition hoursPerYear : nat := Z.to_nat 8760.

(** [Math.round (longitude / 15)], for a finite longitude. *)
Definition calculateTimezoneOffset (longitude : Q) : Z :=
  Qfloor (longitude / 15 + (1 # 2))%Q.

Section TimezoneCorrection.
(** The arrays hold values of type [A]; [zero] is the [0] that
    [new Array(n).fill(0)] puts in every slot and [undefined] is what a
    read at a negative index returns. *)
Context {A : Type} (zero undefined : A).

(** [hourlyData[i]] for an index below [hourlyData.length]. *)
Definition read (hourlyData : list A) (i : Z) : A :=
  if (i <? 0)%Z then undefined
  else default undefined (hourlyData !! Z.to_nat i).

(** The index of the slot that supplies the value of slot
    [day * 24 + hour]. *)
Definition localIndex (offset day hour : Z) : Z :=
  let localHour := (hour - offset)%Z in
  let localDay := day in
  let '(localHour, localDay) :=
    if (localHour <? 0)%Z then
      ((localHour + 24)%Z,
       if (localDay - 1 <? 0)%Z then 364%Z else (localDay - 1)%Z)
    else if (24 <=? localHour)%Z then
      ((localHour - 24)%Z,
       if (365 <=? localDay + 1)%Z then 0%Z else (localDay + 1)%Z)
    else (localHour, localDay) in
  (localDay * 24 + localHour)%Z.

(** The body of the two nested loops. *)
Definition shiftSlot (hourlyData : list A) (offset : Z)
    (shiftedData : list A) (day hour : nat) : list A :=
  let originalIndex := (day * 24 + hour)%nat in
  let li := localIndex offset (Z.of_nat day) (Z.of_nat hour) in
  if (Z.of_nat originalIndex <? Z.of_nat (length hourlyData))%Z
     && (li <? Z.of_nat (length hourlyData))%Z
  then <[originalIndex := read hourlyData li]> shiftedData
  else shiftedData.

Definition shiftDay (hourlyData : list A) (offset : Z)
    (shiftedData : list A) (day : nat) : list A :=
  foldl (fun sh hour => shiftSlot hourlyData offset sh day hour)
        shiftedData (seq 0 24).

Definition applyTimezoneCorrection (hourlyData : list A) (offset : Z)
    : list A :=
  if (offset =? 0)%Z then hourlyData
  else
    foldl (shiftDay hourlyData offset)
          (replicate (length hourlyData) zero) (seq 0 365).

(** [fullYearData]: the first 8760 entries, padded with [0]. *)
Definition fullYearData (data : list A) : list A :=
  take hoursPerYear data ++ replicate (hoursPerYear - length data) zero.
End TimezoneCorrection.

(** [Math.max(0, Math.min(1, capacityFactor))]. *)
Definition clamp01 (capacityFactor : num) : num :=
  Math_max (int 0) (Math_min (int 1) capacityFactor).

(** PVGIS reports the hourly power [P] in W of a 1 kW plant. *)
Definition normalizePVGIS (P : num) : num :=
  clamp01 (P / int 1000)%num.

(** Renewables.ninja reports the capacity factor itself; a missing
    [electricity] field ([None]) is stored as [0]. *)
Definition normalizeNinja (electricity : option num) : num :=
  match electricity with
  | Some capacityFactor => clamp01 capacityFactor
  | None => int 0
  end.

(** The time series stored by [fetchPVGISData] for the hourly powers
    [hourly] of a site at [longitude]. *)
Definition ingestPVGIS (hourly : list num) (longitude : Q) : list num :=
  let hourlyData := map normalizePVGIS hourly in
  let timezoneOffset := calculateTimezoneOffset longitude in
  let timezoneCorrectedData :=
    applyTimezoneCorrection (int 0) NaN hourlyData timezoneOffset in
  fullYearData (int 0) timezoneCorrectedData.

(** The time series stored by [fetchRenewableNinjaData]. *)
Definition ingestNinja (samples : list (option num)) : list num :=
  fullYearData (int 0) (map normalizeNinja samples).

(** ** LCOE of one source *)

(** The years [1 .. lifetime] of the discounting loops. *)
Definition years (lifetime : Z) : list Z :=
  map Z.of_nat (seq 1 (Z.to_nat lifetime)).

Section LCOE.
Variables (source : PowerSource.t) (timeSeriesData : option (list num))
          (financialParams : Financial.t).

Let capex := PowerSource.capex source.
Let opex := PowerSource.opex source.
Let capacity := PowerSource.capacity source.
Let returnRate := Financial.returnRate financialParams.
Let lifetime := Financial.lifetime financialParams.

Definition capacityKW : num := (capacity * int 1000)%num.

Definition annualEnergyProduction : num :=
  match timeSeriesData with
  | Some ((_ :: _) as ts) =>
      (foldl (fun acc capacityFactor => acc + capacity * capacityFactor)
             (int 0) ts * int 1000)%num
  | _ =>
      let averageCapacityFactor :=
        (Financial.capacityFactor financialParams / int 100)%num in
      (capacityKW * averageCapacityFactor * int 8760)%num
  end.

Definition discountRate : num := (returnRate / int 100)%num.

Definition totalPresentValueCost : num :=
  foldl (fun acc year =>
           let yearlyOpex := (opex * capacityKW)%num in
           acc + yearlyOpex / Math_pow (int 1 + discountRate) year)%num
        (capex * capacityKW)%num (years lifetime).

Definition totalPresentValueEnergy : num :=
  foldl (fun acc year =>
           acc + annualEnergyProduction / Math_pow (int 1 + discountRate) year)%num
        (int 0) (years lifetime).

Definition calculateLCOE : num :=
  (totalPresentValueCost / totalPresentValueEnergy)%num.
End LCOE.

(** ** Merit-order dispatch and cost aggregation: [calculateLCOH] *)

(** Before anything else [calculateLCOH] fills in, on the source object
    itself, the LCOE of every renewable source that has a profile but no
    (truthy) LCOE yet. *)
Definition updateSource (fin : Financial.t) (source : PowerSource.t)
    : PowerSource.t :=
  if negb (sourceType_eqb (PowerSource.type source) grid)
     && negb (truthy_opt (PowerSource.lcoe source))
     && bool_decide (is_Some (PowerSource.timeSeriesData source))
  then PowerSource.with_lcoe source
         (Some (calculateLCOE source (PowerSource.timeSeriesData source) fin))
  else source.

(** The comparator handed to [sort]. *)
Definition compareSources (a b : PowerSource.t) : num :=
  if negb (truthy_opt (PowerSource.lcoe a)) then int 1
  else if negb (truthy_opt (PowerSource.lcoe b)) then int (-1)
  else
    match PowerSource.lcoe a, PowerSource.lcoe b with
    | Some x, Some y => (x - y)%num
    | _, _ => NaN
    end.

(** [Array.prototype.sort] is stable, and leaves the order to the engine
    when the comparator is not consistent (this one is not, between two
    sources without LCOE).  It is modelled as a stable insertion sort that
    calls the comparator the way V8 does, with the later element first: a
    later element [y] moves ahead of an earlier element [x] only when
    [compare y x] is negative.  Two sources without LCOE therefore stay in
    the order of the input. *)
Section Sort.
Context {A : Type} (compare : A -> A -> num).

Fixpoint insertBy (x : A) (l : list A) : list A :=
  match l with
  | [] => [x]
  | y :: l' =>
      if ltb (compare y x) (int 0) then y :: insertBy x l' else x :: l
  end.

Definition sortBy (l : list A) : list A := foldr insertBy [] l.
End Sort.

Definition sortedSources (updatedSources : list PowerSource.t)
    : list PowerSource.t :=
  sortBy compareSources updatedSources.

(** One entry of [sourceDispatch]. *)
Record sourceDispatchEntry : Type := mkEntry {
  sd_type : sourceType;
  powerUsed : num;
  powerCurtailed : num
}.

(** One entry of [hourlyDispatch]. *)
Record hourlyRecord : Type := mkHourly {
  hour : nat;
  energyUsed : num;
  curtailedEnergy : num;
  dispatchPercentage : num;
  sources : list sourceDispatchEntry
}.

(** [energyBySource]: an object keyed by source type, whose entries are
    enumerated in the order in which the keys were first written. *)
Definition energyTable : Type := list (sourceType * num).

Fixpoint getEnergy (e : energyTable) (ty : sourceType) : option num :=
  match e with
  | [] => None
  | (k, v) :: e' => if sourceType_eqb k ty then Some v else getEnergy e' ty
  end.

Fixpoint setEnergy (e : energyTable) (ty : sourceType) (v : num)
    : energyTable :=
  match e with
  | [] => [(ty, v)]
  | (k, w) :: e' =>
      if sourceType_eqb k ty then (k, v) :: e'
      else (k, w) :: setEnergy e' ty v
  end.

(** [if (!energyBySource[t]) energyBySource[t] = 0;
     energyBySource[t] += powerUsed]. *)
Definition addEnergy (e : energyTable) (ty : sourceType) (powerUsed : num)
    : energyTable :=
  let e1 := if truthy_opt (getEnergy e ty) then e else setEnergy e ty (int 0) in
  setEnergy e1 ty (default NaN (getEnergy e1 ty) + powerUsed)%num.

(** The variables of the loop over the sources, within one hour. *)
Record hourAcc : Type := mkHourAcc {
  remainingDemand : num;
  hourlyEnergyUsed : num;
  hourlyCurtailed : num;
  sourceDispatch : list sourceDispatchEntry;
  energyBySource : energyTable
}.

Section Dispatch.
Variables (elz : Electrolyzer.t) (fin : Financial.t).

(** The capacity factor of [source] at [hour]: its profile if it covers
    the hour, else 1 for the grid and the default factor otherwise. *)
Definition capacityFactorAt (source : PowerSource.t) (hour : nat) : num :=
  let fallback :=
    if sourceType_eqb (PowerSource.type source) grid then int 1
    else (Financial.capacityFactor fin / int 100)%num in
  match PowerSource.timeSeriesData source with
  | Some ts => default fallback (ts !! hour)
  | None => fallback
  end.

Definition availablePower (source : PowerSource.t) (hour : nat) : num :=
  (PowerSource.capacity source * capacityFactorAt source hour)%num.

(** The body of the loop over the sources, for a source that is neither
    skipped nor behind the [break]. *)
Definition dispatchSource (hour : nat) (source : PowerSource.t)
    (acc : hourAcc) : hourAcc :=
  let availablePower := availablePower source hour in
  let powerUsed := Math_min availablePower (remainingDemand acc) in
  let powerCurtailed := Math_max (int 0) (availablePower - powerUsed)%num in
  {| remainingDemand := (remainingDemand acc - powerUsed)%num;
     hourlyEnergyUsed := (hourlyEnergyUsed acc + powerUsed)%num;
     hourlyCurtailed := (hourlyCurtailed acc + powerCurtailed)%num;
     sourceDispatch :=
       sourceDispatch acc
         ++ [mkEntry (PowerSource.type source) powerUsed powerCurtailed];
     energyBySource :=
       addEnergy (energyBySource acc) (PowerSource.type source) powerUsed |}.

(** [for (const source of sortedSources) { ... }] *)
Fixpoint dispatchSources (hour : nat) (sorted : list PowerSource.t)
    (acc : hourAcc) : hourAcc :=
  match sorted with
  | [] => acc
  | source :: rest =>
      if leb (remainingDemand acc) (int 0) then acc              (* break *)
      else if negb (truthy_opt (PowerSource.lcoe source))
      then dispatchSources hour rest acc                         (* continue *)
      else dispatchSources hour rest (dispatchSource hour source acc)
  end.

(** The variables of the loop over the hours. *)
Record yearAcc : Type := mkYearAcc {
  hourlyDispatch : list hourlyRecord;
  totalEnergyUsed : num;
  totalCurtailedEnergy : num;
  yearEnergyBySource : energyTable
}.

(** The variables of the loop over the sources, at the start of an hour. *)
Definition hourStart (st : yearAcc) : hourAcc :=
  mkHourAcc (Electrolyzer.capacity elz) (int 0) (int 0) []
            (yearEnergyBySource st).

(** The entry of [hourlyDispatch] made from them at the end of the hour. *)
Definition hourRecord (hour : nat) (acc : hourAcc) : hourlyRecord :=
  mkHourly hour (hourlyEnergyUsed acc) (hourlyCurtailed acc)
           (hourlyEnergyUsed acc / Electrolyzer.capacity elz)%num
           (sourceDispatch acc).

Definition dispatchHour (sorted : list PowerSource.t) (st : yearAcc)
    (hour : nat) : yearAcc :=
  let acc := dispatchSources hour sorted (hourStart st) in
  {| hourlyDispatch := hourlyDispatch st ++ [hourRecord hour acc];
     totalEnergyUsed := (totalEnergyUsed st + hourlyEnergyUsed acc)%num;
     totalCurtailedEnergy :=
       (totalCurtailedEnergy st + hourlyCurtailed acc)%num;
     yearEnergyBySource := energyBySource acc |}.

(** [for (let hour = 0; hour < 8760; hour++) { ... }] *)
Definition simulateDispatch (sorted : list PowerSource.t) : yearAcc :=
  foldl (dispatchHour sorted) (mkYearAcc [] (int 0) (int 0) [])
        (seq 0 hoursPerYear).
End Dispatch.

(** The figures handed to [setResults]. *)
Record costShare : Type := mkShare {
  amount : num;
  percentage : num
}.

Record costBreakdownT : Type := mkBreakdown {
  cb_capex : costShare;
  cb_opex : costShare;
  cb_energy : costShare
}.

Record energyStatsT : Type := mkStats {
  es_totalEnergyUsed : num;
  es_totalCurtailedEnergy : num;
  curtailmentPercentage : num;
  utilizationRate : num
}.

Record energyMixEntry : Type := mkMix {
  mix_type : sourceType;
  mix_energy : num;
  mix_percentage : num
}.

(** One entry of [monthlyData]; the month is kept as its index, its
    displayed name comes from the locale. *)
Record monthlyEntry : Type := mkMonthly {
  month : nat;
  m_energy : num;
  m_curtailed : num
}.

Record results : Type := mkResults {
  lcoh : num;
  totalAnnualCost : num;
  annualH2Production : num;
  costBreakdown : costBreakdownT;
  energyStats : energyStatsT;
  energyMix : list energyMixEntry;
  monthlyData : list monthlyEntry;
  r_hourlyDispatch : list hourlyRecord
}.

Definition daysInMonth : list nat :=
  [31; 28; 31; 30; 31; 30; 31; 31; 30; 31; 30; 31]%nat.

Section Aggregation.
Variables (elz : Electrolyzer.t) (fin : Financial.t).

Definition actualEnergyPerKg : num :=
  (Electrolyzer.baseConsumption elz / (Electrolyzer.efficiency elz / int 100))%num.

(** The capital recovery factor. *)
Definition crf : num :=
  let discountRate := (Financial.returnRate fin / int 100)%num in
  ((discountRate * Math_pow (int 1 + discountRate) (Financial.lifetime fin))
   / (Math_pow (int 1 + discountRate) (Financial.lifetime fin) - int 1))%num.

Definition totalPowerSourceCapex (updatedSources : list PowerSource.t) : num :=
  foldl (fun total source =>
           let sourceCapex :=
             (PowerSource.capacity source * int 1000 * PowerSource.capex source)%num in
           let annualizedSourceCapex := (sourceCapex * crf)%num in
           (total + annualizedSourceCapex)%num)
        (int 0) updatedSources.

Definition totalPowerSourceOpex (updatedSources : list PowerSource.t) : num :=
  foldl (fun total source =>
           let sourceOpex :=
             (PowerSource.capacity source * int 1000 * PowerSource.opex source)%num in
           (total + sourceOpex)%num)
        (int 0) updatedSources.

(** The cost of the energy dispatched by the sources of one type, at the
    LCOE of the first source of that type. *)
Definition energyCostOf (updatedSources : list PowerSource.t)
    (total : num) (entry : sourceType * num) : num :=
  let '(type, energy) := entry in
  match find (fun s => sourceType_eqb (PowerSource.type s) type) updatedSources with
  | Some source =>
      match PowerSource.lcoe source with
      | Some l =>
          if truthy l then (total + energy * int 1000 * l)%num else total
      | None => total
      end
  | None => total
  end.

Definition totalEnergyCost (updatedSources : list PowerSource.t)
    (energyBySource : energyTable) : num :=
  foldl (energyCostOf updatedSources) (int 0) energyBySource.

(** The monthly totals: each month takes its hours from [hourIndex] on, as
    long as there are any. *)
Definition monthTotals (hourly : list hourlyRecord) (hourIndex hoursInMonth : nat)
    : num * num :=
  foldl (fun '(totalEnergy, totalCurtailed) r =>
           ((totalEnergy + energyUsed r)%num,
            (totalCurtailed + curtailedEnergy r)%num))
        (int 0, int 0) (take hoursInMonth (drop hourIndex hourly)).

Definition monthlyDataOf (hourly : list hourlyRecord) : list monthlyEntry :=
  snd (foldl (fun '(hourIndex, monthlyData) month =>
                let hoursInMonth := (default 0 (daysInMonth !! month) * 24)%nat in
                let '(totalEnergy, totalCurtailed) :=
                  monthTotals hourly hourIndex hoursInMonth in
                (Nat.min (hourIndex + hoursInMonth) (Nat.max hourIndex (length hourly)),
                 monthlyData ++ [mkMonthly month totalEnergy totalCurtailed]))
             (0%nat, []) (seq 0 12)).

(** The body of the [setTimeout] callback. *)
Definition computeResults (updatedSources : list PowerSource.t) : results :=
  let sortedSources := sortedSources updatedSources in
  let sim := simulateDispatch elz fin sortedSources in
  let totalEnergyUsed := totalEnergyUsed sim in
  let totalCurtailedEnergy := totalCurtailedEnergy sim in
  let energyBySource := yearEnergyBySource sim in
  let annualH2Production := (totalEnergyUsed * int 1000 / actualEnergyPerKg)%num in
  let electrolyzerCapex :=
    (Electrolyzer.capacity elz * int 1000 * Electrolyzer.capex elz)%num in
  let annualizedElectrolyzerCapex := (electrolyzerCapex * crf)%num in
  let totalAnnualizedCapex :=
    (totalPowerSourceCapex updatedSources + annualizedElectrolyzerCapex)%num in
  let electrolyzerOpex :=
    (Electrolyzer.capacity elz * int 1000 * Electrolyzer.opex elz)%num in
  let totalAnnualOpex := (totalPowerSourceOpex updatedSources + electrolyzerOpex)%num in
  let totalEnergyCost := totalEnergyCost updatedSources energyBySource in
  let totalAnnualCost := (totalAnnualizedCapex + totalAnnualOpex + totalEnergyCost)%num in
  {| lcoh := (totalAnnualCost / annualH2Production)%num;
     totalAnnualCost := totalAnnualCost;
     annualH2Production := annualH2Production;
     costBreakdown :=
       mkBreakdown
         (mkShare totalAnnualizedCapex (totalAnnualizedCapex / totalAnnualCost * int 100)%num)
         (mkShare totalAnnualOpex (totalAnnualOpex / totalAnnualCost * int 100)%num)
         (mkShare totalEnergyCost (totalEnergyCost / totalAnnualCost * int 100)%num);
     energyStats :=
       mkStats totalEnergyUsed totalCurtailedEnergy
         (totalCurtailedEnergy / (totalEnergyUsed + totalCurtailedEnergy) * int 100)%num
         (totalEnergyUsed / (Electrolyzer.capacity elz * int 8760))%num;
     energyMix :=
       map (fun '(type, energy) =>
              mkMix type energy (energy / totalEnergyUsed * int 100)%num)
           energyBySource;
     monthlyData := monthlyDataOf (hourlyDispatch sim);
     r_hourlyDispatch := hourlyDispatch sim |}.
End Aggregation.

(** [calculateLCOH]: the sources are updated in place (the returned
    inputs are the store the next run starts from) and the results are
    computed from the updated sources. *)
Definition calculateLCOH (i : inputs) : inputs * results :=
  let updatedSources := map (updateSource (financial i)) (powerSources i) in
  (mkInputs updatedSources (electrolyzer i) (financial i),
   computeResults (electrolyzer i) (financial i) updatedSources).

(** ** The daily profile preview *)

(** [getDaysInMonth (month)]: the entry [month - 1] of the table, which is
    [undefined] ([None]) outside 1 .. 12. *)
Definition getDaysInMonth (month : Z) : option nat :=
  if (month - 1 <? 0)%Z then None else daysInMonth !! Z.to_nat (month - 1).

(** One point of the chart. *)
Record dayPoint : Type := mkPoint {
  dp_hour : nat;
  dp_value : num
}.

(** [dayOfYear] after the loop over the months before [selectedMonth];
    [None] stands for the [NaN] that adding an [undefined] table entry
    gives. *)
Definition dayOfYear (selectedMonth selectedDay : Z) : option Z :=
  foldl (fun dayOfYear m =>
           match dayOfYear, daysInMonth !! (m - 1)%nat with
           | Some d, Some n => Some (d + Z.of_nat n)%Z
           | _, _ => None
           end)
        (Some selectedDay) (seq 1 (Z.to_nat (selectedMonth - 1))).

(** [getSelectedDayData], for the selected month and day. *)
Definition getSelectedDayData (selectedMonth selectedDay : Z)
    (timeSeriesData : option (list num)) : list dayPoint :=
  match timeSeriesData with
  | None | Some [] => map (fun hour => mkPoint hour (int 0)) (seq 0 24)
  | Some ts =>
      let startHour :=
        option_map (fun d => ((d - 1) * 24)%Z)
                   (dayOfYear selectedMonth selectedDay) in
      map (fun hour =>
             match startHour with
             | Some startHour =>
                 let index := (startHour + Z.of_nat hour)%Z in
                 if (0 <=? index)%Z && (index <? Z.of_nat (length ts))%Z
                 then mkPoint hour (default NaN (ts !! Z.to_nat index))
                 else mkPoint hour (int 0)
             | None => mkPoint hour (int 0)
             end)
          (seq 0 24)
  end.

(** ** Editing the inputs *)

(** The state that the editing functions share: the inputs and the index
    of the source shown in the details panel.  The fields of a source that
    the engine never reads ([electricityPrice], [location], [year]) are
    not part of [PowerSource.t]; writing them leaves the record as it
    is. *)
Record appState : Type := mkApp {
  app_inputs : inputs;
  selectedPowerSource : nat
}.

(** [canCalculate]: no renewable source lacks both a profile and a truthy
    LCOE. *)
Definition canCalculate (i : inputs) : bool :=
  forallb (fun source =>
             sourceType_eqb (PowerSource.type source) grid
             || bool_decide (is_Some (PowerSource.timeSeriesData source))
             || truthy_opt (PowerSource.lcoe source))
          (powerSources i).

(** The source that [addPowerSource] appends. *)
Definition newSource (type : sourceType) : PowerSource.t :=
  PowerSource.mk type (int 100)
    (if sourceType_eqb type grid then int 0 else int 1000)
    (if sourceType_eqb type grid then int 80 else int 20)
    (if sourceType_eqb type grid then Some (Fin (5 # 100)) else None)
    None.

Definition withSources (i : inputs) (l : list PowerSource.t) : inputs :=
  mkInputs l (electrolyzer i) (financial i).

(** [addPowerSource]: the new source goes to the end and is selected. *)
Definition addPowerSource (type : sourceType) (st : appState) : appState :=
  mkApp (withSources (app_inputs st)
                     (powerSources (app_inputs st) ++ [newSource type]))
        (length (powerSources (app_inputs st))).

(** [removePowerSource]: nothing happens when one source is left;
    [splice (index, 1)] removes nothing at an index past the end. *)
Definition removePowerSource (index : nat) (st : appState) : appState :=
  let n := length (powerSources (app_inputs st)) in
  if (n <=? 1)%nat then st
  else
    mkApp (withSources (app_inputs st)
                       (delete index (powerSources (app_inputs st))))
          (if (n - 1 <=? selectedPowerSource st)%nat then (n - 2)%nat
           else selectedPowerSource st).

(** A source after its location has changed: profile and LCOE are
    dropped. *)
Definition dropProfile (source : PowerSource.t) : PowerSource.t :=
  PowerSource.mk (PowerSource.type source) (PowerSource.capacity source)
                 (PowerSource.capex source) (PowerSource.opex source)
                 None None.

(** [handleMapLocationChange], on the selected source; [None] is the
    [TypeError] raised when no source has that index. *)
Definition handleMapLocationChange (st : appState) : option appState :=
  match powerSources (app_inputs st) !! selectedPowerSource st with
  | Some source =>
      Some (mkApp (withSources (app_inputs st)
                     (<[selectedPowerSource st := dropProfile source]>
                        (powerSources (app_inputs st))))
                  (selectedPowerSource st))
  | None => None
  end.

(** The field of a source that [handleInputChange] writes, with the value
    written. *)
Inductive sourceField : Type :=
| F_type (value : sourceType)
| F_capacity (value : num)
| F_capex (value : num)
| F_opex (value : num)
| F_electricityPrice (value : num)
| F_lcoe (value : num)
| F_year.

Inductive electrolyzerField : Type :=
| E_capacity | E_efficiency | E_capex | E_opex | E_baseConsumption.

(** A call of [handleInputChange]: the category, the index (only read for
    a source), the field and the value. *)
Inductive change : Type :=
| SourceChange (index : nat) (f : sourceField)
| ElectrolyzerChange (f : electrolyzerField) (value : num)
| ReturnRateChange (value : num)
| LifetimeChange (value : Z)
| CapacityFactorChange (value : num)
| ApisChange.

(** [source[field] = value]. *)
Definition writeField (source : PowerSource.t) (f : sourceField)
    : PowerSource.t :=
  match f with
  | F_type value =>
      PowerSource.mk value (PowerSource.capacity source)
        (PowerSource.capex source) (PowerSource.opex source)
        (PowerSource.lcoe source) (PowerSource.timeSeriesData source)
  | F_capacity value => PowerSource.with_capacity source value
  | F_capex value =>
      PowerSource.mk (PowerSource.type source) (PowerSource.capacity source)
        value (PowerSource.opex source)
        (PowerSource.lcoe source) (PowerSource.timeSeriesData source)
  | F_opex value =>
      PowerSource.mk (PowerSource.type source) (PowerSource.capacity source)
        (PowerSource.capex source) value
        (PowerSource.lcoe source) (PowerSource.timeSeriesData source)
  | F_lcoe value => PowerSource.with_lcoe source (Some value)
  | F_electricityPrice _ | F_year => source
  end.

(** The LCOE of a renewable source with a profile, computed afresh. *)
Definition recomputeLcoe (fin : Financial.t) (source : PowerSource.t)
    : PowerSource.t :=
  PowerSource.with_lcoe source
    (Some (calculateLCOE source (PowerSource.timeSeriesData source) fin)).

(** What [handleInputChange] does to the source it edits. *)
Definition editSource (fin : Financial.t) (source : PowerSource.t)
    (f : sourceField) : PowerSource.t :=
  let s1 := writeField source f in
  let s2 :=
    match f with
    | F_type grid =>
        PowerSource.mk grid (PowerSource.capacity s1) (PowerSource.capex s1)
          (PowerSource.opex s1) (Some (Fin (5 # 100))) None
    | F_type _ => dropProfile s1
    | _ => s1
    end in
  let s3 :=
    match f with
    | F_electricityPrice value =>
        if sourceType_eqb (PowerSource.type s2) grid
        then PowerSource.with_lcoe s2 (Some value) else s2
    | _ => s2
    end in
  match f with
  | F_capex _ | F_opex _ =>
      if negb (sourceType_eqb (PowerSource.type s3) grid) then
        if bool_decide (is_Some (PowerSource.timeSeriesData s3))
        then recomputeLcoe fin s3
        else PowerSource.with_lcoe s3 None
      else s3
  | _ => s3
  end.

(** After a change of the return rate or of the lifetime: the LCOE of
    every renewable source with a profile is computed again. *)
Definition refreshSource (fin : Financial.t) (source : PowerSource.t)
    : PowerSource.t :=
  if negb (sourceType_eqb (PowerSource.type source) grid)
     && bool_decide (is_Some (PowerSource.timeSeriesData source))
  then recomputeLcoe fin source else source.

Definition writeElectrolyzer (e : Electrolyzer.t) (f : electrolyzerField)
    (value : num) : Electrolyzer.t :=
  match f with
  | E_capacity =>
      Electrolyzer.mk value (Electrolyzer.capex e) (Electrolyzer.opex e)
        (Electrolyzer.efficiency e) (Electrolyzer.baseConsumption e)
  | E_capex =>
      Electrolyzer.mk (Electrolyzer.capacity e) value (Electrolyzer.opex e)
        (Electrolyzer.efficiency e) (Electrolyzer.baseConsumption e)
  | E_opex =>
      Electrolyzer.mk (Electrolyzer.capacity e) (Electrolyzer.capex e) value
        (Electrolyzer.efficiency e) (Electrolyzer.baseConsumption e)
  | E_efficiency =>
      Electrolyzer.mk (Electrolyzer.capacity e) (Electrolyzer.capex e)
        (Electrolyzer.opex e) value (Electrolyzer.baseConsumption e)
  | E_baseConsumption =>
      Electrolyzer.mk (Electrolyzer.capacity e) (Electrolyzer.capex e)
        (Electrolyzer.opex e) (Electrolyzer.efficiency e) value
  end.

(** [handleInputChange]; [None] is the [TypeError] raised when no source
    has the index. *)
Definition handleInputChange (c : change) (i : inputs) : option inputs :=
  match c with
  | SourceChange index f =>
      match powerSources i !! index with
      | Some source =>
          Some (withSources i
                  (<[index := editSource (financial i) source f]>
                     (powerSources i)))
      | None => None
      end
  | ElectrolyzerChange f value =>
      Some (mkInputs (powerSources i)
                     (writeElectrolyzer (electrolyzer i) f value)
                     (financial i))
  | ReturnRateChange value =>
      let fin := Financial.mk value (Financial.lifetime (financial i))
                              (Financial.capacityFactor (financial i)) in
      Some (mkInputs (map (refreshSource fin) (powerSources i))
                     (electrolyzer i) fin)
  | LifetimeChange value =>
      let fin := Financial.mk (Financial.returnRate (financial i)) value
                              (Financial.capacityFactor (financial i)) in
      Some (mkInputs (map (refreshSource fin) (powerSources i))
                     (electrolyzer i) fin)
  | CapacityFactorChange value =>
      Some (mkInputs (powerSources i) (electrolyzer i)
                     (Financial.mk (Financial.returnRate (financial i))
                                   (Financial.lifetime (financial i)) value))
  | ApisChange => Some i
  end.

(** ** The loop over the sources on binary64 numbers *)

(** The numbers of the program are binary64 floating-point numbers, and
    every sum and difference of the loop is rounded.  To see what the
    rounding does, the body of the loop over the hours is given a second
    time, on the binary64 numbers of the kernel, whose operations are
    those of IEEE 754 as JavaScript's are. *)
Module Binary64.

Definition Math_min (x y : float) : float :=
  if PrimFloat.is_nan x || PrimFloat.is_nan y then PrimFloat.nan
  else if PrimFloat.ltb x y then x
  else if PrimFloat.ltb y x then y
  else if PrimFloat.get_sign x then x else y.

Definition Math_max (x y : float) : float :=
  if PrimFloat.is_nan x || PrimFloat.is_nan y then PrimFloat.nan
  else if PrimFloat.ltb x y then y
  else if PrimFloat.ltb y x then x
  else if PrimFloat.get_sign x then y else x.

Definition truthy (x : float) : bool := negb (PrimFloat.is_nan x || PrimFloat.is_zero x).

Definition truthy_opt (x : option float) : bool :=
  match x with
  | Some v => truthy v
  | None => false
  end.

Record source : Type := mkSource {
  type : sourceType;
  capacity : float;
  lcoe : option float;
  timeSeriesData : option (list float)
}.

Record sourceDispatchEntry : Type := mkEntry {
  sd_type : sourceType;
  powerUsed : float;
  powerCurtailed : float
}.

Record hourlyRecord : Type := mkHourly {
  hour : nat;
  energyUsed : float;
  curtailedEnergy : float;
  dispatchPercentage : float;
  sources : list sourceDispatchEntry
}.

Definition energyTable : Type := list (sourceType * float).

Fixpoint getEnergy (e : energyTable) (ty : sourceType) : option float :=
  match e with
  | [] => None
  | (k, v) :: e' => if sourceType_eqb k ty then Some v else getEnergy e' ty
  end.

Fixpoint setEnergy (e : energyTable) (ty : sourceType) (v : float)
    : energyTable :=
  match e with
  | [] => [(ty, v)]
  | (k, w) :: e' =>
      if sourceType_eqb k ty then (k, v) :: e'
      else (k, w) :: setEnergy e' ty v
  end.

Definition addEnergy (e : energyTable) (ty : sourceType) (powerUsed : float)
    : energyTable :=
  let e1 := if truthy_opt (getEnergy e ty) then e else setEnergy e ty 0%float in
  setEnergy e1 ty (default PrimFloat.nan (getEnergy e1 ty) + powerUsed)%float.

Record hourAcc : Type := mkHourAcc {
  remainingDemand : float;
  hourlyEnergyUsed : float;
  hourlyCurtailed : float;
  sourceDispatch : list sourceDispatchEntry;
  energyBySource : energyTable
}.

Section Dispatch.
(** [electrolyzer.capacity] and [financial.capacityFactor]. *)
Variables (electrolyzerCapacity defaultCapacityFactor : float).

Definition capacityFactorAt (s : source) (hour : nat) : float :=
  let fallback :=
    if sourceType_eqb (type s) grid then 1%float
    else (defaultCapacityFactor / 100)%float in
  match timeSeriesData s with
  | Some ts => default fallback (ts !! hour)
  | None => fallback
  end.

Definition availablePower (s : source) (hour : nat) : float :=
  (capacity s * capacityFactorAt s hour)%float.

Definition dispatchSource (hour : nat) (s : source) (acc : hourAcc)
    : hourAcc :=
  let availablePower := availablePower s hour in
  let powerUsed := Math_min availablePower (remainingDemand acc) in
  let powerCurtailed := Math_max 0%float (availablePower - powerUsed)%float in
  {| remainingDemand := (remainingDemand acc - powerUsed)%float;
     hourlyEnergyUsed := (hourlyEnergyUsed acc + powerUsed)%float;
     hourlyCurtailed := (hourlyCurtailed acc + powerCurtailed)%float;
     sourceDispatch :=
       sourceDispatch acc ++ [mkEntry (type s) powerUsed powerCurtailed];
     energyBySource := addEnergy (energyBySource acc) (type s) powerUsed |}.

Fixpoint dispatchSources (hour : nat) (sorted : list source) (acc : hourAcc)
    : hourAcc :=
  match sorted with
  | [] => acc
  | s :: rest =>
      if PrimFloat.leb (remainingDemand acc) 0%float then acc              (* break *)
      else if negb (truthy_opt (lcoe s))
      then dispatchSources hour rest acc                         (* continue *)
      else dispatchSources hour rest (dispatchSource hour s acc)
  end.

Definition hourStart (energyBySource : energyTable) : hourAcc :=
  mkHourAcc electrolyzerCapacity 0%float 0%float [] energyBySource.

Definition hourRecord (hour : nat) (acc : hourAcc) : hourlyRecord :=
  mkHourly hour (hourlyEnergyUsed acc) (hourlyCurtailed acc)
           (hourlyEnergyUsed acc / electrolyzerCapacity)%float
           (sourceDispatch acc).
End Dispatch.
End Binary64.

(** ** Notions used by the statements *)

(** *** On numbers *)

(** A finite number of the interval [0, 1]. *)
Definition in01 (x : num) : Prop :=
  match x with
  | Fin q => 0 <= q <= 1
  | _ => False
  end.

(** A finite, positive number. *)
Definition positive_fin (x : num) : Prop :=
  match x with
  | Fin q => 0 < q
  | _ => False
  end.

(** What [x / 0] evaluates to. *)
Definition quotient_by_zero (x : num) : num :=
  match x with
  | Fin c => inf_of (sgn c)
  | _ => x
  end.

(** [x'] is [k] times [x]. *)
Definition scaled (k : Q) (x' x : num) : Prop := x' =n= (Fin k * x)%num.

(** The capital recovery factor as the formula reads, on rationals. *)
Definition crf_formula (rate : Q) (lifetime : Z) : Q :=
  rate * (1 + rate) ^ lifetime / ((1 + rate) ^ lifetime - 1).

(** *** On sources *)

(** A source takes part in the dispatch when its [lcoe] is truthy:
    neither [null], nor 0, nor [NaN]. *)
Definition dispatchable (s : PowerSource.t) : bool :=
  truthy_opt (PowerSource.lcoe s).

(** [a] is at most as expensive as [b], both having an LCOE. *)
Definition lcoe_le (a b : PowerSource.t) : Prop :=
  match PowerSource.lcoe a, PowerSource.lcoe b with
  | Some x, Some y => leb x y = true
  | _, _ => False
  end.

(** [a] is strictly cheaper than [b]. *)
Definition lcoe_lt (a b : PowerSource.t) : Prop :=
  match PowerSource.lcoe a, PowerSource.lcoe b with
  | Some x, Some y => ltb x y = true
  | _, _ => False
  end.

(** A source with a positive capacity and a profile, if any, of capacity
    factors of [0, 1]. *)
Definition wellFormedSource (s : PowerSource.t) : Prop :=
  positive_fin (PowerSource.capacity s)
  /\ from_option (Forall in01) True (PowerSource.timeSeriesData s).

(** The source with its capacity multiplied by [k]; the costs per kW and
    the profile stay as they are. *)
Definition scaleCapacity (k : Q) (source : PowerSource.t) : PowerSource.t :=
  PowerSource.with_capacity source (Fin k * PowerSource.capacity source)%num.

Definition doubleCapacity (source : PowerSource.t) : PowerSource.t :=
  PowerSource.with_capacity source (int 2 * PowerSource.capacity source)%num.

(** *** On the records of an hour *)

(** [e] is the entry that the dispatch makes for source [s] at [hour]:
    it carries the type of [s], the power curtailed is the available power
    minus the power used, and is not negative. *)
Definition entryOf (fin : Financial.t) (hour : nat) (s : PowerSource.t)
    (e : sourceDispatchEntry) : Prop :=
  sd_type e = PowerSource.type s
  /\ exists a used curt,
       availablePower fin s hour = Fin a
       /\ powerUsed e = Fin used
       /\ powerCurtailed e = Fin curt
       /\ curt == a - used
       /\ 0 <= curt.

(** The sum of [powerUsed] over the entries of one hour. *)
Definition sumPowerUsed (entries : list sourceDispatchEntry) : num :=
  foldr (fun e total => (powerUsed e + total)%num) (int 0) entries.

(** *** On the calendar *)

(** The number of days of the year before the first of [month]. *)
Definition daysBefore (month : Z) : Z :=
  Z.of_nat (sum_list (take (Z.to_nat (month - 1)) daysInMonth)).

(** A day of the calendar. *)
Definition validDate (month day : Z) : Prop :=
  exists n, getDaysInMonth month = Some n /\ (1 <= day <= Z.of_nat n)%Z.

(** *** On the cached LCOE *)

(** The cached LCOE of a renewable source with a profile is the one
    [calculateLCOE] returns for its present parameters. *)
Definition lcoeFresh (fin : Financial.t) (source : PowerSource.t) : Prop :=
  PowerSource.type source <> grid ->
  is_Some (PowerSource.timeSeriesData source) ->
  PowerSource.lcoe source
  = Some (calculateLCOE source (PowerSource.timeSeriesData source) fin).

(** The changes after which [handleInputChange] leaves no LCOE behind: all
    but a new capacity, an LCOE written directly, and a new default
    capacity factor. *)
Definition tracked (c : change) : bool :=
  match c with
  | SourceChange _ (F_capacity _) | SourceChange _ (F_lcoe _)
  | CapacityFactorChange _ => false
  | _ => true
  end.

(** *** On sums *)

(** The sum of a list of numbers, from the left as the loops add them. *)
Definition sumNums (l : list num) : num :=
  foldl add (int 0) l.

(** *** On the figures of a year *)

(** A source whose available power is finite and not negative, at every
    hour. *)
Definition suppliesFinitePower (fin : Financial.t) (s : PowerSource.t) : Prop :=
  forall hour, exists a, availablePower fin s hour = Fin a /\ 0 <= a.

(** A finite number that is not negative. *)
Definition nonneg_fin (x : num) : Prop :=
  match x with
  | Fin q => 0 <= q
  | _ => False
  end.

(** The record of an hour whose three figures are finite and not
    negative. *)
Definition figuresNotNegative (r : hourlyRecord) : Prop :=
  nonneg_fin (energyUsed r) /\ nonneg_fin (curtailedEnergy r)
  /\ nonneg_fin (dispatchPercentage r).

#[export] Instance sourceType_eq_dec : EqDecision sourceType.
Proof. solve_decision. Defined.

(** *** On the months *)

(** The first hour of month [m] (0 for January), and the records of the
    hours of that month. *)
Definition monthStart (m : nat) : nat :=
  sum_list_with (fun days => (days * 24)%nat) (take m daysInMonth).

Definition monthWindow (hourly : list hourlyRecord) (m : nat)
    : list hourlyRecord :=
  take (default 0 (daysInMonth !! m) * 24)%nat (drop (monthStart m) hourly).

(** The entry of [monthlyData] that adds up, from the left, the records of
    the hours of month [m]. *)
Definition monthEntry (hourly : list hourlyRecord) (m : nat) : monthlyEntry :=
  mkMonthly m (sumNums (map energyUsed (monthWindow hourly m)))
              (sumNums (map curtailedEnergy (monthWindow hourly m))).

(** *** On discounting *)

(** The sum of the discount factors [1 / base ^ year] over [years]. *)
Definition presentValueFactor (base : Q) (years : list Z) : Q :=
  foldr (fun year t => / base ^ year + t) 0 years.

(** *** Sample inputs *)

(** The electrolyzer and the financial parameters of the initial state of
    the application, and its grid, solar and wind sources. *)
Definition defaultElectrolyzer : Electrolyzer.t :=
  Electrolyzer.mk (int 100) (int 800) (int 40) (int 70) (int 50).

Definition defaultFinancial : Financial.t :=
  Financial.mk (int 8) 20 (int 90).

Definition defaultGrid : PowerSource.t :=
  PowerSource.mk grid (int 100) (int 0) (int 80) (Some (Fin (5 # 100))) None.

Definition defaultSolar : PowerSource.t :=
  PowerSource.mk solar (int 150) (int 1000) (int 20) None None.

Definition defaultWind : PowerSource.t :=
  PowerSource.mk wind (int 100) (int 1200) (int 25) None None.

(** The grid once its electricity price has been set to 0. *)
Definition freeGrid : PowerSource.t :=
  PowerSource.mk grid (int 100) (int 0) (int 80) (Some (int 0)) None.

Definition freeGridInputs : inputs :=
  mkInputs [freeGrid] defaultElectrolyzer defaultFinancial.

(** A solar plant with a short profile and its LCOE. *)
Definition profiledSolar : PowerSource.t :=
  PowerSource.mk solar (int 150) (int 1000) (int 20) (Some (Fin (3 # 100)))
                 (Some [Fin (1 # 2); int 0; int 1]).

(** * Properties *)

(** ** Sample runs *)

(** The solar plant is cheaper than the grid and goes first; the wind farm
    without LCOE and the grid at price 0 go last, in the order of the
    input. *)
Example sortedSources_sample :
  map PowerSource.type
      (sortedSources [defaultGrid; defaultWind; profiledSolar; freeGrid])
  = [solar; grid; wind; grid].
Proof. reflexivity. Qed.

(** Hour 0: the solar plant delivers its 75 MW, the grid the remaining
    25 MW of the 100 MW asked for; the other two sources have no entry. *)
Example dispatchSources_sample :
  sourceDispatch
    (dispatchSources defaultFinancial 0
       (sortedSources [defaultGrid; defaultWind; profiledSolar; freeGrid])
       (mkHourAcc (int 100) (int 0) (int 0) [] []))
  = [mkEntry solar (Fin (150 # 2)) (Fin (0 # 4));
     mkEntry grid (Fin (50 # 2)) (Fin (150 # 2))].
Proof. reflexivity. Qed.

(** Hour 2: the solar plant alone covers the demand and the loop stops
    before the grid. *)
Example dispatchSources_break_sample :
  sourceDispatch
    (dispatchSources defaultFinancial 2
       (sortedSources [defaultGrid; defaultWind; profiledSolar; freeGrid])
       (mkHourAcc (int 100) (int 0) (int 0) [] []))
  = [mkEntry solar (Fin 100) (Fin 50)].
Proof. reflexivity. Qed.

(** ** Numbers *)

Lemma num_eq_refl x : x =n= x.
Proof. destruct x; simpl; auto with qarith. Qed.

Lemma num_eq_sym x y : x =n= y -> y =n= x.
Proof. destruct x, y; simpl; auto with qarith. Qed.

Lemma num_eq_trans x y z : x =n= y -> y =n= z -> x =n= z.
Proof.
  destruct x, y, z; simpl; try tauto.
  intros H1 H2. now rewrite H1.
Qed.

#[export] Instance num_eq_equiv : Equivalence num_eq.
Proof.
  split.
  - exact num_eq_refl.
  - exact num_eq_sym.
  - exact num_eq_trans.
Qed.

Lemma Qle_bool_false a b : Qle_bool a b = false <-> b < a.
Proof.
  rewrite <- not_true_iff_false, Qle_bool_iff. split.
  - apply Qnot_le_lt.
  - apply Qlt_not_le.
Qed.

Lemma sgn_Eq q : sgn q = Eq <-> q == 0.
Proof. unfold sgn. symmetry. apply Qeq_alt. Qed.

Lemma sgn_Lt q : sgn q = Lt <-> q < 0.
Proof. unfold sgn. symmetry. apply Qlt_alt. Qed.

Lemma sgn_Gt q : sgn q = Gt <-> 0 < q.
Proof. unfold sgn. symmetry. apply Qgt_alt. Qed.

(** Case analysis on the sign of [q], leaving the fact in the context. *)
Ltac sgn_cases q :=
  let E := fresh "Hs" in
  destruct (sgn q) eqn:E;
  [ apply (proj1 (sgn_Eq _)) in E
  | apply (proj1 (sgn_Lt _)) in E
  | apply (proj1 (sgn_Gt _)) in E ].

(** Case analysis on a comparison of rationals. *)
Ltac qle_cases a b :=
  let E := fresh "Hle" in
  destruct (Qle_bool a b) eqn:E;
  [ apply Qle_bool_iff in E | apply Qle_bool_false in E ].

Lemma truthy_Fin q : truthy (Fin q) = false <-> q == 0.
Proof.
  simpl. rewrite negb_false_iff. apply Qeq_bool_iff.
Qed.

(** ** Clamping of raw samples *)

Lemma clamp01_Fin (q : Q) :
  in01 (clamp01 (Fin q))
  /\ (q <= 0 -> clamp01 (Fin q) =n= int 0)
  /\ (1 <= q -> clamp01 (Fin q) =n= int 1)
  /\ (0 <= q <= 1 -> clamp01 (Fin q) =n= Fin q).
Proof.
  unfold clamp01, Math_min, Math_max, int, leb. simpl inject_Z.
  qle_cases (inject_Z 1) q; simpl in *.
  - qle_cases (inject_Z 0) (inject_Z 1); simpl; unfold inject_Z in *; repeat split; intros; try lra.
  - qle_cases (inject_Z 0) q; simpl; unfold inject_Z in *; repeat split; intros; try lra.
Qed.

Lemma in01_zero : in01 (int 0).
Proof. unfold in01, int, inject_Z. lra. Qed.

(** ** Timezone correction keeps what holds of every sample *)

Section ShiftInvariant.
Context {A : Type} (zero undefined : A) (P : A -> Prop).
Hypothesis P_zero : P zero.

Lemma localIndex_nonneg offset day hour :
  (offset <= 24 -> 0 <= day -> 0 <= hour -> 0 <= localIndex offset day hour)%Z.
Proof.
  intros Ho Hd Hh. unfold localIndex.
  destruct (hour - offset <? 0)%Z eqn:E1.
  - apply Z.ltb_lt in E1. destruct (day - 1 <? 0)%Z eqn:E2; cbn; lia.
  - apply Z.ltb_ge in E1. destruct (24 <=? hour - offset)%Z eqn:E2.
    + apply Z.leb_le in E2. destruct (365 <=? day + 1)%Z; cbn; lia.
    + cbn. lia.
Qed.

Lemma read_in_range (data : list A) (li : Z) :
  Forall P data -> (0 <= li < Z.of_nat (length data))%Z ->
  P (read undefined data li).
Proof.
  intros HP [H0 H1]. unfold read.
  destruct (li <? 0)%Z eqn:E; [apply Z.ltb_lt in E; lia|].
  destruct (data !! Z.to_nat li) as [x|] eqn:Hx.
  - simpl. eapply Forall_lookup_1; eauto.
  - apply lookup_ge_None in Hx. lia.
Qed.

Lemma shiftSlot_Forall (data sh : list A) offset day hour :
  (offset <= 24)%Z -> Forall P data -> Forall P sh ->
  Forall P (shiftSlot undefined data offset sh day hour).
Proof.
  intros Ho Hd Hs. unfold shiftSlot.
  destruct (Z.of_nat (day * 24 + hour) <? Z.of_nat (length data))%Z; simpl; auto.
  destruct (localIndex offset (Z.of_nat day) (Z.of_nat hour)
              <? Z.of_nat (length data))%Z eqn:E; auto.
  apply Z.ltb_lt in E.
  apply Forall_insert; auto.
  apply read_in_range; auto. split; auto.
  apply localIndex_nonneg; lia.
Qed.

Lemma shiftDay_Forall (data sh : list A) offset day :
  (offset <= 24)%Z -> Forall P data -> Forall P sh ->
  Forall P (shiftDay undefined data offset sh day).
Proof.
  intros Ho Hd. unfold shiftDay. generalize (seq 0 24). intros hours.
  revert sh. induction hours as [|h hours IH]; simpl; intros sh Hs; auto.
  apply IH. now apply shiftSlot_Forall.
Qed.

Lemma applyTimezoneCorrection_Forall (data : list A) offset :
  (offset <= 24)%Z -> Forall P data ->
  Forall P (applyTimezoneCorrection zero undefined data offset).
Proof.
  intros Ho Hd. unfold applyTimezoneCorrection.
  destruct (offset =? 0)%Z; auto.
  assert (Hinit : Forall P (replicate (length data) zero))
    by now apply Forall_replicate.
  revert Hinit. generalize (replicate (length data) zero) (seq 0 365).
  intros sh days. revert sh.
  induction days as [|d days IH]; simpl; intros sh Hs; auto.
  apply IH. now apply shiftDay_Forall.
Qed.

Lemma fullYearData_Forall (data : list A) :
  Forall P data -> Forall P (fullYearData zero data).
Proof.
  intros Hd. unfold fullYearData. apply Forall_app. split.
  - now apply Forall_take.
  - now apply Forall_replicate.
Qed.

Lemma fullYearData_length (data : list A) :
  length (fullYearData zero data) = hoursPerYear.
Proof.
  unfold fullYearData.
  rewrite length_app, length_take, length_replicate. lia.
Qed.
End ShiftInvariant.

Lemma calculateTimezoneOffset_bound (longitude : Q) :
  -180 <= longitude <= 180 ->
  (-12 <= calculateTimezoneOffset longitude <= 12)%Z.
Proof.
  intros [Hlo Hhi]. unfold calculateTimezoneOffset.
  assert (Hd : longitude / 15 == longitude * (1 # 15)) by field.
  split.
  - assert (H : inject_Z (-12) <= longitude / 15 + (1 # 2)).
    { rewrite Hd. unfold inject_Z. lra. }
    apply Qfloor_resp_le in H. now rewrite Qfloor_Z in H.
  - assert (H : longitude / 15 + (1 # 2) < inject_Z 13).
    { rewrite Hd. unfold inject_Z. lra. }
    pose proof (Qfloor_le (longitude / 15 + (1 # 2))) as Hf.
    assert (Hlt : inject_Z (Qfloor (longitude / 15 + (1 # 2))) < inject_Z 13)
      by (eapply Qle_lt_trans; eauto).
    rewrite <- Zlt_Qlt in Hlt. lia.
Qed.

Lemma normalizePVGIS_Fin (raw : Q) :
  normalizePVGIS (Fin raw) = clamp01 (Fin (raw / inject_Z 1000)).
Proof. reflexivity. Qed.

Lemma normalizePVGIS_in01 (P : num) : is_fin P -> in01 (normalizePVGIS P).
Proof.
  destruct P as [raw| | |]; simpl; try tauto. intros _.
  rewrite normalizePVGIS_Fin. apply clamp01_Fin.
Qed.

Lemma normalizeNinja_in01 (e : option num) :
  from_option is_fin True e -> in01 (normalizeNinja e).
Proof.
  destruct e as [[raw| | |]|]; simpl; try tauto; intros _.
  - apply clamp01_Fin.
  - apply in01_zero.
Qed.

(** ** The capital recovery factor *)

Lemma pow_iter_Fin (b : Q) (p : positive) :
  exists x, Pos.iter (mul (Fin b)) (int 1) p = Fin x /\ x == b ^ Zpos p.
Proof.
  induction p as [|p [x [Hx Hq]]] using Pos.peano_ind.
  - exists (b * inject_Z 1). split; [reflexivity|].
    simpl. unfold inject_Z. ring.
  - rewrite Pos.iter_succ, Hx. exists (b * x). split; [reflexivity|].
    rewrite Hq. simpl. rewrite <- Pos.add_1_l, Qpower_plus_positive.
    reflexivity.
Qed.

Lemma Math_pow_Fin (b : Q) (n : Z) :
  (0 <= n)%Z -> exists x, Math_pow (Fin b) n = Fin x /\ x == b ^ n.
Proof.
  intros Hn. destruct n as [|p|p]; [| |lia].
  - exists (inject_Z 1). split; [reflexivity|]. simpl. reflexivity.
  - apply pow_iter_Fin.
Qed.

(** C8.  The capital recovery factor is
    [rate * (1 + rate)^lifetime / ((1 + rate)^lifetime - 1)] with
    [rate = returnRate / 100] (whenever the denominator is not zero), and
    for a return rate of 8 % over 20 years it lies within 1e-4 of
    0.10185. *)
Theorem crf_formula_and_value (p : Q) (n : Z) (cf : num) :
  (0 <= n)%Z ->
  ~ (1 + p / 100) ^ n == 1 ->
  crf (Financial.mk (Fin p) n cf) =n= Fin (crf_formula (p / 100) n)
  /\ exists c, crf (Financial.mk (int 8) 20 cf) = Fin c
               /\ (10185 # 100000) - (1 # 10000) < c
               /\ c < (10185 # 100000) + (1 # 10000).
Proof.
  intros Hn Hden. split.
  - unfold crf. cbn [Financial.returnRate Financial.lifetime].
    change (Fin p / int 100)%num with (Fin (p / inject_Z 100)).
    change (int 1 + Fin (p / inject_Z 100))%num
      with (Fin (inject_Z 1 + p / inject_Z 100)).
    destruct (Math_pow_Fin (inject_Z 1 + p / inject_Z 100) n Hn)
      as [x [Hx Hq]].
    rewrite Hx. simpl mul. unfold sub. simpl neg. simpl add.
    assert (Hq' : x == (1 + p / 100) ^ n) by exact Hq.
    unfold div. sgn_cases (x + - inject_Z 1).
    + exfalso. apply Hden. rewrite <- Hq'. unfold inject_Z in Hs. lra.
    + simpl. unfold crf_formula. rewrite <- Hq'. unfold inject_Z. reflexivity.
    + simpl. unfold crf_formula. rewrite <- Hq'. unfold inject_Z. reflexivity.
  - eexists. split; [vm_compute; reflexivity|].
    split; vm_compute; reflexivity.
Qed.

Lemma crf_formula_and_value_witness :
  crf (Financial.mk (Fin 8) 20 (int 90)) =n= Fin (crf_formula (8 / 100) 20).
Proof.
  apply (crf_formula_and_value 8 20 (int 90)).
  - lia.
  - vm_compute. discriminate.
Defined.

(** ** Divisions by zero *)

Lemma div_by_zero (x y : num) : y =n= int 0 -> (x / y)%num = quotient_by_zero x.
Proof.
  intros Hy. destruct y as [b| | |]; try (exfalso; exact Hy).
  assert (Hb : sgn b = Eq) by (apply sgn_Eq; exact Hy).
  destruct x; unfold div, quotient_by_zero; rewrite ?Hb; reflexivity.
Qed.

Lemma quotient_by_zero_not_fin (x : num) : ~ is_fin (quotient_by_zero x).
Proof. destruct x as [c| | |]; simpl; auto. destruct (sgn c); simpl; auto. Qed.

Lemma lcoh_quotient (i : inputs) :
  lcoh (snd (calculateLCOH i))
  = (totalAnnualCost (snd (calculateLCOH i))
     / annualH2Production (snd (calculateLCOH i)))%num.
Proof.
  unfold calculateLCOH, computeResults. cbv zeta.
  cbn [snd lcoh totalAnnualCost annualH2Production]. reflexivity.
Qed.

Lemma curtailmentPercentage_quotient (i : inputs) :
  let stats := energyStats (snd (calculateLCOH i)) in
  curtailmentPercentage stats
  = (es_totalCurtailedEnergy stats
     / (es_totalEnergyUsed stats + es_totalCurtailedEnergy stats)
     * int 100)%num.
Proof.
  unfold calculateLCOH, computeResults. cbv zeta.
  cbn [snd energyStats curtailmentPercentage es_totalCurtailedEnergy
       es_totalEnergyUsed]. reflexivity.
Qed.

(** C1, as stated, fails: when the provider returns no hourly sample the
    stored profile is 8760 zeros, the present value of the energy is zero
    and [calculateLCOE] returns [+Infinity] as its ordinary result; and
    with a grid at price 0 nothing is dispatched, the annual production is
    zero and [lcoh] is [+Infinity], stored in the results like any other
    figure. *)
Lemma division_by_zero_returns_infinity :
  totalPresentValueEnergy defaultWind (Some (ingestNinja [])) defaultFinancial
    =n= int 0
  /\ calculateLCOE defaultWind (Some (ingestNinja [])) defaultFinancial = PInf
  /\ annualH2Production (snd (calculateLCOH freeGridInputs)) =n= int 0
  /\ lcoh (snd (calculateLCOH freeGridInputs)) = PInf.
Proof. vm_compute. repeat split. Qed.

(** C1, amended.  Neither division is guarded and nothing is thrown or
    flagged.  When the present value of the energy is zero (it is summed
    up from the literal 0) [calculateLCOE] returns the quotient of the
    present value of the cost by zero: [+Infinity] or [-Infinity] by the
    sign of the cost and [NaN] for a zero cost.  When the annual
    production is zero [lcoh] is an infinity or [NaN], never a finite
    number and so never a valid 0; which of them depends on the signs of
    the cost and of the zero, and with a positive energy per kg it is the
    quotient of the total annual cost by zero as above. *)
Theorem division_by_zero_yields_non_finite
    (source : PowerSource.t) (ts : option (list num)) (fin : Financial.t)
    (i : inputs) :
  (totalPresentValueEnergy source ts fin =n= int 0 ->
     calculateLCOE source ts fin
       = quotient_by_zero (totalPresentValueCost source fin)
     /\ ~ is_fin (calculateLCOE source ts fin))
  /\ (annualH2Production (snd (calculateLCOH i)) =n= int 0 ->
        ~ is_fin (lcoh (snd (calculateLCOH i)))
        /\ (positive_fin (actualEnergyPerKg (electrolyzer i)) ->
            lcoh (snd (calculateLCOH i))
            = quotient_by_zero (totalAnnualCost (snd (calculateLCOH i))))).
Proof.
  split.
  - intros H. unfold calculateLCOE. rewrite (div_by_zero _ _ H).
    split; [reflexivity|apply quotient_by_zero_not_fin].
  - intros H. rewrite lcoh_quotient, (div_by_zero _ _ H).
    split; [apply quotient_by_zero_not_fin|intros _; reflexivity].
Qed.

Lemma division_by_zero_yields_non_finite_witness :
  ~ is_fin (calculateLCOE defaultWind (Some (ingestNinja [])) defaultFinancial)
  /\ ~ is_fin (lcoh (snd (calculateLCOH freeGridInputs))).
Proof.
  assert (He : totalPresentValueEnergy defaultWind (Some (ingestNinja []))
                 defaultFinancial =n= int 0)
    by (vm_compute; reflexivity).
  assert (Hp : annualH2Production (snd (calculateLCOH freeGridInputs)) =n= int 0)
    by (vm_compute; reflexivity).
  destruct (division_by_zero_yields_non_finite
              defaultWind (Some (ingestNinja [])) defaultFinancial
              freeGridInputs) as [H1 H2].
  destruct (H1 He) as [_ H1']. destruct (H2 Hp) as [H2' _].
  split; assumption.
Defined.

(** C4, as stated, fails: with a grid at price 0 nothing is used and
    nothing is curtailed, and the curtailment percentage is [0 / 0 * 100],
    that is [NaN], not 0. *)
Lemma curtailment_percentage_zero_over_zero :
  let stats := energyStats (snd (calculateLCOH freeGridInputs)) in
  es_totalEnergyUsed stats =n= int 0
  /\ es_totalCurtailedEnergy stats =n= int 0
  /\ curtailmentPercentage stats = NaN
  /\ ~ curtailmentPercentage stats =n= int 0.
Proof. vm_compute. repeat split. auto. Qed.

(** C4, amended.  The curtailment percentage is
    [totalCurtailedEnergy / (totalEnergyUsed + totalCurtailedEnergy) * 100],
    computed without a guard: when both totals are 0 it is [NaN]. *)
Theorem curtailment_percentage_unguarded (i : inputs) :
  let stats := energyStats (snd (calculateLCOH i)) in
  curtailmentPercentage stats
    = (es_totalCurtailedEnergy stats
       / (es_totalEnergyUsed stats + es_totalCurtailedEnergy stats)
       * int 100)%num
  /\ (es_totalEnergyUsed stats =n= int 0 ->
      es_totalCurtailedEnergy stats =n= int 0 ->
      curtailmentPercentage stats = NaN).
Proof.
  intros stats.
  pose proof (curtailmentPercentage_quotient i) as E. cbv zeta in E.
  fold stats in E. clearbody stats.
  split; [exact E|].
  rewrite E. clear E.
  destruct (es_totalEnergyUsed stats) as [a| | |]; simpl; try tauto.
  destruct (es_totalCurtailedEnergy stats) as [b| | |]; simpl; try tauto.
  intros Ha Hb. unfold inject_Z in *.
  assert (Hab : sgn (a + b) = Eq) by (apply sgn_Eq; lra).
  assert (Hb' : sgn b = Eq) by (apply sgn_Eq; lra).
  now rewrite Hab, Hb'.
Qed.

Lemma curtailment_percentage_unguarded_witness :
  curtailmentPercentage (energyStats (snd (calculateLCOH freeGridInputs))) = NaN.
Proof.
  assert (Hu : es_totalEnergyUsed (energyStats (snd (calculateLCOH freeGridInputs)))
               =n= int 0) by (vm_compute; reflexivity).
  assert (Hc : es_totalCurtailedEnergy
                 (energyStats (snd (calculateLCOH freeGridInputs)))
               =n= int 0) by (vm_compute; reflexivity).
  destruct (curtailment_percentage_unguarded freeGridInputs) as [_ H].
  exact (H Hu Hc).
Defined.

(** ** Scaling the capacity of a source *)

Section Scaling.
Variable k : Q.
Hypothesis k_pos : 0 < k.

Lemma sgn_k : sgn k = Gt.
Proof. now apply sgn_Gt. Qed.

Lemma sgn_scale (a a' : Q) : a' == k * a -> sgn a' = sgn a.
Proof.
  intros H. sgn_cases a.
  - apply sgn_Eq. rewrite H, Hs. ring.
  - apply sgn_Lt. rewrite H. nra.
  - apply sgn_Gt. rewrite H. nra.
Qed.

Lemma sgn_eq (a a' : Q) : a' == a -> sgn a' = sgn a.
Proof. intros H. unfold sgn. now rewrite H. Qed.

Lemma scaled_refl (x : num) : scaled k (Fin k * x) x.
Proof. apply num_eq_refl. Qed.

Lemma scaled_zero : scaled k (int 0) (int 0).
Proof. unfold scaled, int, inject_Z. simpl. ring. Qed.

(** Unfolds the relations on numbers and splits on the constructors. *)
Ltac num_cases :=
  unfold scaled, num_eq, mul, add, div, sub, neg in *;
  rewrite ?sgn_k in *; simpl inf_of in *;
  try contradiction; try exact I.

Lemma scaled_add a' a b' b :
  scaled k a' a -> scaled k b' b -> scaled k (a' + b') (a + b).
Proof.
  destruct a' as [x'| | |], a as [x| | |]; try (now num_cases);
    destruct b' as [y'| | |], b as [y| | |]; try (now num_cases);
    num_cases; intros H1 H2;
    repeat match goal with
    | H : context [inf_of (sgn ?q)] |- _ => destruct (sgn q); simpl in H; try contradiction
    end; auto.
  rewrite H1, H2. ring.
Qed.

(** After [num_cases]: brings the signs of scaled rationals back to the
    signs of the originals, and splits on the remaining signs. *)
Ltac sgn_split :=
  repeat match goal with
  | H : ?a' == k * ?a |- _ =>
      rewrite (sgn_scale a a' H) in *; revert H
  | H : ?a' == ?a |- _ =>
      rewrite (sgn_eq a a' H) in *; revert H
  end;
  intros;
  repeat match goal with
  | |- context [sgn ?q] => sgn_cases q; simpl in *
  | H : context [sgn ?q] |- _ => sgn_cases q; simpl in *
  end;
  try contradiction; try exact I; try lra.

Lemma scaled_mul_l a' a b' b :
  scaled k a' a -> b' =n= b -> scaled k (a' * b') (a * b).
Proof.
  destruct a' as [x'| | |], a as [x| | |]; try (now num_cases);
    destruct b' as [y'| | |], b as [y| | |]; try (now num_cases);
    num_cases; intros H1 H2; sgn_split.
  rewrite H1, H2. ring.
Qed.

Lemma scaled_mul_r a' a b' b :
  a' =n= a -> scaled k b' b -> scaled k (a' * b') (a * b).
Proof.
  destruct a' as [x'| | |], a as [x| | |]; try (now num_cases);
    destruct b' as [y'| | |], b as [y| | |]; try (now num_cases);
    num_cases; intros H1 H2; sgn_split.
  rewrite H1, H2. ring.
Qed.

Lemma scaled_div_l a' a b' b :
  scaled k a' a -> b' =n= b -> scaled k (a' / b') (a / b).
Proof.
  destruct a' as [x'| | |], a as [x| | |]; try (now num_cases);
    destruct b' as [y'| | |], b as [y| | |]; try (now num_cases);
    num_cases; intros H1 H2; sgn_split;
    rewrite H1, H2; field; lra.
Qed.

Lemma div_scaled a' a b' b :
  scaled k a' a -> scaled k b' b -> (a' / b' =n= a / b)%num.
Proof.
  destruct a' as [x'| | |], a as [x| | |]; try (now num_cases);
    destruct b' as [y'| | |], b as [y| | |]; try (now num_cases);
    num_cases; intros H1 H2; sgn_split;
    rewrite H1, H2; field; split; lra.
Qed.

Lemma capacityKW_scaled source :
  scaled k (capacityKW (scaleCapacity k source)) (capacityKW source).
Proof.
  unfold capacityKW. apply scaled_mul_l; [apply scaled_refl|apply num_eq_refl].
Qed.

Lemma annualEnergyProduction_scaled source ts fin :
  scaled k (annualEnergyProduction (scaleCapacity k source) ts fin)
         (annualEnergyProduction source ts fin).
Proof.
  unfold annualEnergyProduction.
  destruct ts as [[|cf0 ts]|].
  - apply scaled_mul_l; [|apply num_eq_refl].
    apply scaled_mul_l; [|apply num_eq_refl]. apply capacityKW_scaled.
  - cbv iota beta. apply scaled_mul_l; [|apply num_eq_refl].
    generalize (cf0 :: ts). clear cf0 ts. intros ts.
    assert (H0 : scaled k (int 0) (int 0)) by apply scaled_zero.
    revert H0. generalize (int 0) at 1 3. generalize (int 0).
    induction ts as [|cf ts IH]; intros acc acc' Hacc; simpl; [exact Hacc|].
    apply IH. apply scaled_add; [exact Hacc|].
    apply scaled_mul_l; [apply scaled_refl|apply num_eq_refl].
  - apply scaled_mul_l; [|apply num_eq_refl].
    apply scaled_mul_l; [|apply num_eq_refl]. apply capacityKW_scaled.
Qed.

Lemma totalPresentValueCost_scaled source fin :
  scaled k (totalPresentValueCost (scaleCapacity k source) fin)
         (totalPresentValueCost source fin).
Proof.
  unfold totalPresentValueCost.
  assert (H0 : scaled k (PowerSource.capex (scaleCapacity k source)
                        * capacityKW (scaleCapacity k source))
                      (PowerSource.capex source * capacityKW source))
    by (apply scaled_mul_r; [apply num_eq_refl|apply capacityKW_scaled]).
  revert H0.
  generalize (PowerSource.capex (scaleCapacity k source)
              * capacityKW (scaleCapacity k source))%num.
  generalize (PowerSource.capex source * capacityKW source)%num.
  generalize (years (Financial.lifetime fin)). intros ys.
  induction ys as [|y ys IH]; intros acc acc' Hacc; simpl; [exact Hacc|].
  apply IH. apply scaled_add; [exact Hacc|].
  apply scaled_div_l; [|apply num_eq_refl].
  apply scaled_mul_r; [apply num_eq_refl|apply capacityKW_scaled].
Qed.

Lemma totalPresentValueEnergy_scaled source ts fin :
  scaled k (totalPresentValueEnergy (scaleCapacity k source) ts fin)
         (totalPresentValueEnergy source ts fin).
Proof.
  unfold totalPresentValueEnergy.
  assert (H0 : scaled k (int 0) (int 0)) by apply scaled_zero.
  revert H0. generalize (int 0) at 1 3. generalize (int 0).
  generalize (years (Financial.lifetime fin)). intros ys.
  induction ys as [|y ys IH]; intros acc acc' Hacc; simpl; [exact Hacc|].
  apply IH. apply scaled_add; [exact Hacc|].
  apply scaled_div_l; [|apply num_eq_refl].
  apply annualEnergyProduction_scaled.
Qed.

Lemma calculateLCOE_scaled source ts fin :
  calculateLCOE (scaleCapacity k source) ts fin =n= calculateLCOE source ts fin.
Proof.
  unfold calculateLCOE. apply div_scaled.
  - apply totalPresentValueCost_scaled.
  - apply totalPresentValueEnergy_scaled.
Qed.
End Scaling.

(** C6.  When the present value of the energy is positive, doubling the
    capacity of a source, with its capex per kW, its opex per kW-year and
    its capacity-factor profile (or the default capacity factor)
    unchanged, leaves its LCOE unchanged. *)
Theorem lcoe_unchanged_by_doubling_capacity
    (source : PowerSource.t) (ts : option (list num)) (fin : Financial.t) :
  positive_fin (totalPresentValueEnergy source ts fin) ->
  calculateLCOE (doubleCapacity source) ts fin =n= calculateLCOE source ts fin.
Proof.
  intros _. apply (calculateLCOE_scaled 2). lra.
Qed.

Lemma lcoe_unchanged_by_doubling_capacity_witness :
  calculateLCOE (doubleCapacity defaultSolar) (Some [Fin (1 # 4); int 0; int 1])
    defaultFinancial
  =n= calculateLCOE defaultSolar (Some [Fin (1 # 4); int 0; int 1])
        defaultFinancial.
Proof.
  apply lcoe_unchanged_by_doubling_capacity. vm_compute. reflexivity.
Defined.

(** ** Sorting by LCOE *)

Lemma leb_trans x y z : leb x y = true -> leb y z = true -> leb x z = true.
Proof.
  destruct x as [a| | |], y as [b| | |], z as [c| | |]; simpl;
    try discriminate; try reflexivity.
  rewrite !Qle_bool_iff. apply Qle_trans.
Qed.

Lemma ltb_sub x y : ltb (x - y) (int 0) = ltb x y.
Proof.
  destruct x as [a| | |], y as [b| | |]; simpl; try reflexivity.
  f_equal. unfold inject_Z.
  qle_cases 0 (a + - b); qle_cases b a; try reflexivity; lra.
Qed.

Lemma ltb_leb x y : ltb x y = true -> leb x y = true.
Proof.
  destruct x as [a| | |], y as [b| | |]; simpl; try discriminate; try reflexivity.
  rewrite negb_true_iff, Qle_bool_false, Qle_bool_iff. apply Qlt_le_weak.
Qed.

Lemma ltb_false_leb x y :
  x <> NaN -> y <> NaN -> ltb y x = false -> leb x y = true.
Proof.
  destruct x as [a| | |], y as [b| | |]; simpl; try discriminate;
    try reflexivity; try congruence.
  intros _ _. now rewrite negb_false_iff.
Qed.

Lemma truthy_not_NaN x : truthy x = true -> x <> NaN.
Proof. destruct x; simpl; congruence. Qed.

Lemma compareSources_falsy a b :
  dispatchable a = false -> compareSources a b = int 1.
Proof. unfold dispatchable, compareSources. now intros ->. Qed.

Lemma compareSources_truthy_falsy a b :
  dispatchable a = true -> dispatchable b = false ->
  compareSources a b = int (-1).
Proof. unfold dispatchable, compareSources. now intros -> ->. Qed.

Lemma compareSources_truthy a b x y :
  PowerSource.lcoe a = Some x -> PowerSource.lcoe b = Some y ->
  truthy x = true -> truthy y = true ->
  ltb (compareSources a b) (int 0) = ltb x y.
Proof.
  intros Ha Hb Hx Hy. unfold compareSources. rewrite Ha, Hb. simpl.
  rewrite Hx, Hy. simpl. apply ltb_sub.
Qed.

Lemma insertBy_falsy x front back :
  dispatchable x = false ->
  Forall (fun s => dispatchable s = true) front ->
  Forall (fun s => dispatchable s = false) back ->
  insertBy compareSources x (front ++ back) = front ++ x :: back.
Proof.
  intros Hx Hf Hb. induction Hf as [|y front Hy _ IH]; cbn [insertBy app].
  - destruct Hb as [|y back Hy Hb]; cbn [insertBy]; [reflexivity|].
    now rewrite (compareSources_falsy _ _ Hy).
  - rewrite (compareSources_truthy_falsy _ _ Hy Hx).
    change (ltb (int (-1)) (int 0)) with true. now rewrite IH.
Qed.

Lemma insertBy_before_falsy x front back :
  dispatchable x = true ->
  Forall (fun s => dispatchable s = false) back ->
  insertBy compareSources x (front ++ back)
  = insertBy compareSources x front ++ back.
Proof.
  intros Hx Hb. induction front as [|y front IH]; cbn [insertBy app].
  - destruct Hb as [|y back Hy Hb]; cbn [insertBy]; [reflexivity|].
    now rewrite (compareSources_falsy _ _ Hy).
  - destruct (ltb (compareSources y x) (int 0)); cbn [app]; [|reflexivity].
    now rewrite IH.
Qed.

Lemma insertBy_Permutation {A} (cmp : A -> A -> num) x l :
  Permutation (insertBy cmp x l) (x :: l).
Proof.
  induction l as [|y l IH]; cbn [insertBy]; [reflexivity|].
  destruct (ltb (cmp y x) (int 0)); [|reflexivity].
  rewrite IH. apply perm_swap.
Qed.

Lemma sortBy_Permutation {A} (cmp : A -> A -> num) l :
  Permutation (sortBy cmp l) l.
Proof.
  induction l as [|x l IH]; simpl; [reflexivity|].
  rewrite insertBy_Permutation. now constructor.
Qed.

Lemma filter_dispatchable_Forall l :
  Forall (fun s => dispatchable s = true) (List.filter dispatchable l).
Proof.
  apply List.Forall_forall. intros s Hs. now apply List.filter_In in Hs.
Qed.

Lemma filter_not_dispatchable_Forall l :
  Forall (fun s => dispatchable s = false)
         (List.filter (fun s => negb (dispatchable s)) l).
Proof.
  apply List.Forall_forall. intros s Hs.
  apply List.filter_In in Hs. destruct Hs as [_ Hs].
  now apply negb_true_iff in Hs.
Qed.

(** The sorted list: the dispatchable sources, sorted, and behind them
    the others, in the order of the input. *)
Lemma sortedSources_split l :
  sortedSources l
  = sortedSources (List.filter dispatchable l)
    ++ List.filter (fun s => negb (dispatchable s)) l.
Proof.
  unfold sortedSources. induction l as [|x l IH]; simpl; [reflexivity|].
  rewrite IH. destruct (dispatchable x) eqn:Hx; simpl.
  - apply insertBy_before_falsy; [exact Hx|].
    apply filter_not_dispatchable_Forall.
  - apply insertBy_falsy; [exact Hx| |apply filter_not_dispatchable_Forall].
    rewrite sortBy_Permutation. apply filter_dispatchable_Forall.
Qed.

Lemma lcoe_le_trans a b c : lcoe_le a b -> lcoe_le b c -> lcoe_le a c.
Proof.
  unfold lcoe_le.
  destruct (PowerSource.lcoe a), (PowerSource.lcoe b), (PowerSource.lcoe c);
    try tauto.
  apply leb_trans.
Qed.

Lemma insertBy_sorted x l :
  dispatchable x = true ->
  Forall (fun s => dispatchable s = true) l ->
  StronglySorted lcoe_le l ->
  StronglySorted lcoe_le (insertBy compareSources x l).
Proof.
  intros Hx Hl Hs. induction Hs as [|y l Hs IH Hy]; cbn [insertBy].
  - repeat constructor.
  - apply Forall_cons in Hl. destruct Hl as [Hdy Hl].
    unfold dispatchable in Hx, Hdy.
    destruct (PowerSource.lcoe x) as [vx|] eqn:Ex; [|discriminate].
    destruct (PowerSource.lcoe y) as [vy|] eqn:Ey; [|discriminate].
    simpl in Hx, Hdy.
    rewrite (compareSources_truthy y x vy vx Ey Ex Hdy Hx).
    destruct (ltb vy vx) eqn:Hlt.
    + constructor; [now apply IH|].
      rewrite insertBy_Permutation. constructor; [|exact Hy].
      unfold lcoe_le. rewrite Ex, Ey. now apply ltb_leb.
    + assert (Hxy : lcoe_le x y).
      { unfold lcoe_le. rewrite Ex, Ey.
        apply ltb_false_leb; auto using truthy_not_NaN. }
      constructor; [now constructor|].
      constructor; [exact Hxy|].
      eapply Forall_impl; [exact Hy|]. intros z Hz.
      eapply lcoe_le_trans; eauto.
Qed.

Lemma sortedSources_sorted l :
  Forall (fun s => dispatchable s = true) l ->
  StronglySorted lcoe_le (sortedSources l).
Proof.
  unfold sortedSources. induction l as [|x l IH]; simpl; intros Hl.
  - constructor.
  - apply Forall_cons in Hl. destruct Hl as [Hx Hl].
    apply insertBy_sorted; auto.
    rewrite sortBy_Permutation. exact Hl.
Qed.

(** ** Sources without a truthy LCOE are skipped *)

Section Skipping.
Variables (elz : Electrolyzer.t) (fin : Financial.t).

Lemma dispatchSources_break hour l acc :
  leb (remainingDemand acc) (int 0) = true ->
  dispatchSources fin hour l acc = acc.
Proof. intros H. destruct l; cbn [dispatchSources]; [reflexivity|now rewrite H]. Qed.

Lemma dispatchSources_skip hour s rest acc :
  dispatchable s = false ->
  dispatchSources fin hour (s :: rest) acc = dispatchSources fin hour rest acc.
Proof.
  intros Hs. cbn [dispatchSources].
  destruct (leb (remainingDemand acc) (int 0)) eqn:Hb.
  - symmetry. now apply dispatchSources_break.
  - unfold dispatchable in Hs. now rewrite Hs.
Qed.

Lemma dispatchSources_filter hour l acc :
  dispatchSources fin hour l acc
  = dispatchSources fin hour (List.filter dispatchable l) acc.
Proof.
  revert acc. induction l as [|s l IH]; intros acc; [reflexivity|].
  cbn [List.filter]. destruct (dispatchable s) eqn:Hs.
  - cbn [dispatchSources].
    destruct (leb (remainingDemand acc) (int 0)); [reflexivity|].
    unfold dispatchable in Hs. rewrite Hs. cbn [negb]. apply IH.
  - rewrite dispatchSources_skip by exact Hs. apply IH.
Qed.

Lemma foldl_ext_all {A B} (f g : A -> B -> A) (l : list B) (a : A) :
  (forall a b, f a b = g a b) -> foldl f a l = foldl g a l.
Proof.
  intros H. revert a. induction l as [|b l IH]; intros a; simpl; [reflexivity|].
  now rewrite H, IH.
Qed.

Lemma simulateDispatch_filter l :
  simulateDispatch elz fin l
  = simulateDispatch elz fin (List.filter dispatchable l).
Proof.
  unfold simulateDispatch. apply foldl_ext_all. intros st hour.
  unfold dispatchHour. now rewrite dispatchSources_filter.
Qed.

Lemma filter_dispatchable_sorted l :
  List.filter dispatchable (sortedSources l)
  = sortedSources (List.filter dispatchable l).
Proof.
  rewrite sortedSources_split at 1. rewrite List.filter_app.
  assert (H1 : forall m, Forall (fun s => dispatchable s = true) m ->
                         List.filter dispatchable m = m).
  { induction 1 as [|x m Hx _ IH]; simpl; [reflexivity|]. now rewrite Hx, IH. }
  assert (H2 : forall m, Forall (fun s => dispatchable s = false) m ->
                         List.filter dispatchable m = []).
  { induction 1 as [|x m Hx _ IH]; simpl; [reflexivity|]. now rewrite Hx, IH. }
  rewrite (H1 (sortedSources (List.filter dispatchable l))),
          (H2 (List.filter (fun s => negb (dispatchable s)) l)).
  - apply app_nil_r.
  - apply filter_not_dispatchable_Forall.
  - unfold sortedSources. rewrite sortBy_Permutation.
    apply filter_dispatchable_Forall.
Qed.

(** The simulation only depends on the dispatchable sources. *)
Lemma simulateDispatch_dispatchable l l' :
  List.filter dispatchable l = List.filter dispatchable l' ->
  simulateDispatch elz fin (sortedSources l)
  = simulateDispatch elz fin (sortedSources l').
Proof.
  intros H.
  rewrite (simulateDispatch_filter (sortedSources l)).
  rewrite (simulateDispatch_filter (sortedSources l')).
  now rewrite !filter_dispatchable_sorted, H.
Qed.
End Skipping.

(** ** A source whose LCOE is 0 *)

Section FalsyLcoe.
Variables (elz : Electrolyzer.t) (fin : Financial.t).
Variables (before after : list PowerSource.t) (s : PowerSource.t).
Hypothesis s_falsy : dispatchable s = false.

Lemma filter_dispatchable_drop :
  List.filter dispatchable (before ++ s :: after)
  = List.filter dispatchable (before ++ after).
Proof. rewrite !List.filter_app. cbn [List.filter]. now rewrite s_falsy. Qed.

Lemma filter_dispatchable_with_lcoe v :
  truthy_opt v = false ->
  List.filter dispatchable (before ++ PowerSource.with_lcoe s v :: after)
  = List.filter dispatchable (before ++ s :: after).
Proof.
  intros Hv. rewrite !List.filter_app. cbn [List.filter].
  rewrite s_falsy. unfold dispatchable at 2. cbn. now rewrite Hv.
Qed.

Lemma totalPowerSourceCapex_with_lcoe v :
  totalPowerSourceCapex fin (before ++ PowerSource.with_lcoe s v :: after)
  = totalPowerSourceCapex fin (before ++ s :: after).
Proof. unfold totalPowerSourceCapex. rewrite !foldl_app. reflexivity. Qed.

Lemma totalPowerSourceOpex_with_lcoe v :
  totalPowerSourceOpex (before ++ PowerSource.with_lcoe s v :: after)
  = totalPowerSourceOpex (before ++ s :: after).
Proof. unfold totalPowerSourceOpex. rewrite !foldl_app. reflexivity. Qed.

Lemma energyCost_falsy (x : PowerSource.t) (total energy : num) :
  dispatchable x = false ->
  match PowerSource.lcoe x with
  | Some l => if truthy l then (total + energy * int 1000 * l)%num else total
  | None => total
  end = total.
Proof.
  unfold dispatchable. destruct (PowerSource.lcoe x) as [l|]; simpl; [|reflexivity].
  now intros ->.
Qed.

Lemma energyCostOf_first total energy :
  List.find (fun x => sourceType_eqb (PowerSource.type x) (PowerSource.type s))
            (before ++ s :: after) = Some s ->
  energyCostOf (before ++ s :: after) total (PowerSource.type s, energy) = total.
Proof.
  intros H. unfold energyCostOf. rewrite H. now apply energyCost_falsy.
Qed.

Lemma energyCostOf_with_lcoe v total entry :
  truthy_opt v = false ->
  energyCostOf (before ++ PowerSource.with_lcoe s v :: after) total entry
  = energyCostOf (before ++ s :: after) total entry.
Proof.
  intros Hv. destruct entry as [ty energy]. unfold energyCostOf.
  induction before as [|y b IH]; cbn [app List.find].
  - change (PowerSource.type (PowerSource.with_lcoe s v))
      with (PowerSource.type s).
    destruct (sourceType_eqb (PowerSource.type s) ty); [|reflexivity].
    rewrite (energyCost_falsy s total energy s_falsy).
    apply energyCost_falsy. exact Hv.
  - destruct (sourceType_eqb (PowerSource.type y) ty); [reflexivity|exact IH].
Qed.

Lemma totalEnergyCost_with_lcoe v e :
  truthy_opt v = false ->
  totalEnergyCost (before ++ PowerSource.with_lcoe s v :: after) e
  = totalEnergyCost (before ++ s :: after) e.
Proof.
  intros Hv. unfold totalEnergyCost. apply foldl_ext_all.
  intros total entry. now apply energyCostOf_with_lcoe.
Qed.

Lemma computeResults_with_lcoe v :
  truthy_opt v = false ->
  computeResults elz fin (before ++ PowerSource.with_lcoe s v :: after)
  = computeResults elz fin (before ++ s :: after).
Proof.
  intros Hv. unfold computeResults. cbv zeta.
  rewrite (simulateDispatch_dispatchable elz fin _ _
             (filter_dispatchable_with_lcoe v Hv)).
  rewrite totalPowerSourceCapex_with_lcoe, totalPowerSourceOpex_with_lcoe.
  rewrite (totalEnergyCost_with_lcoe v _ Hv).
  reflexivity.
Qed.

Lemma falsy_sorted_last :
  exists front back,
    sortedSources (before ++ s :: after) = front ++ back
    /\ Forall (fun x => dispatchable x = true) front
    /\ StronglySorted lcoe_le front
    /\ Forall (fun x => dispatchable x = false) back
    /\ In s back.
Proof.
  eexists _, _. split; [apply sortedSources_split|].
  split; [|split; [|split]].
  - unfold sortedSources. rewrite sortBy_Permutation.
    apply filter_dispatchable_Forall.
  - apply sortedSources_sorted, filter_dispatchable_Forall.
  - apply filter_not_dispatchable_Forall.
  - apply List.filter_In. split.
    + apply List.in_or_app. right. now left.
    + now rewrite s_falsy.
Qed.
End FalsyLcoe.

(** C10.  A source whose [lcoe] is exactly 0 is treated like a source
    whose [lcoe] is [null]: it is sorted behind every dispatchable source,
    each pass of the loop over the sources skips it, so that the
    simulation is the one of the inputs without it and it dispatches no
    energy in any hour; the results are those obtained with its [lcoe] set
    to [null]; and where it prices the energy of its type, that cost is
    zero. *)
Theorem zero_lcoe_source_is_sorted_last_and_skipped
    (elz : Electrolyzer.t) (fin : Financial.t)
    (before after : list PowerSource.t) (s : PowerSource.t) (z : Q) :
  PowerSource.lcoe s = Some (Fin z) -> z == 0 ->
  (exists front back,
      sortedSources (before ++ s :: after) = front ++ back
      /\ Forall (fun x => dispatchable x = true) front
      /\ StronglySorted lcoe_le front
      /\ Forall (fun x => dispatchable x = false) back
      /\ In s back)
  /\ (forall hour rest acc,
         dispatchSources fin hour (s :: rest) acc
         = dispatchSources fin hour rest acc)
  /\ simulateDispatch elz fin (sortedSources (before ++ s :: after))
     = simulateDispatch elz fin (sortedSources (before ++ after))
  /\ computeResults elz fin (before ++ s :: after)
     = computeResults elz fin (before ++ PowerSource.with_lcoe s None :: after)
  /\ (forall total energy,
         List.find (fun x => sourceType_eqb (PowerSource.type x) (PowerSource.type s))
                   (before ++ s :: after) = Some s ->
         energyCostOf (before ++ s :: after) total (PowerSource.type s, energy)
         = total).
Proof.
  intros Hl Hz.
  assert (Hs : dispatchable s = false).
  { unfold dispatchable. rewrite Hl. now apply truthy_Fin. }
  split; [now apply falsy_sorted_last|].
  split; [intros; now apply dispatchSources_skip|].
  split; [apply simulateDispatch_dispatchable; now apply filter_dispatchable_drop|].
  split; [symmetry; now apply computeResults_with_lcoe|].
  intros total energy. now apply energyCostOf_first.
Qed.

Lemma zero_lcoe_source_is_sorted_last_and_skipped_witness :
  simulateDispatch defaultElectrolyzer defaultFinancial
    (sortedSources ([defaultSolar] ++ freeGrid :: []))
  = simulateDispatch defaultElectrolyzer defaultFinancial
      (sortedSources ([defaultSolar] ++ [])).
Proof.
  assert (Hz : 0 == 0) by reflexivity.
  destruct (zero_lcoe_source_is_sorted_last_and_skipped
              defaultElectrolyzer defaultFinancial [defaultSolar] [] freeGrid
              0 eq_refl Hz) as (_ & _ & H & _).
  exact H.
Defined.

(** ** One hour of dispatch *)

Section HourTrace.
Variables (elz : Electrolyzer.t) (fin : Financial.t).

Lemma dispatchSource_Fin hour s acc a r u :
  availablePower fin s hour = Fin a ->
  remainingDemand acc = Fin r ->
  hourlyEnergyUsed acc = Fin u ->
  exists used curt,
    remainingDemand (dispatchSource fin hour s acc) = Fin (r + - used)
    /\ hourlyEnergyUsed (dispatchSource fin hour s acc) = Fin (u + used)
    /\ sourceDispatch (dispatchSource fin hour s acc)
       = sourceDispatch acc ++ [mkEntry (PowerSource.type s) (Fin used) (Fin curt)]
    /\ used <= r /\ (a <= r -> used == a) /\ (r < a -> used == r)
    /\ curt == a - used /\ 0 <= curt.
Proof.
  intros Ha Hr Hu. unfold dispatchSource. cbv zeta.
  cbn [remainingDemand hourlyEnergyUsed sourceDispatch].
  rewrite Ha, Hr, Hu. unfold Math_min. cbn [leb].
  qle_cases a r.
  - unfold sub, neg, add, Math_max, int. cbn [leb].
    qle_cases (inject_Z 0) (a + - a); unfold inject_Z in *.
    + exists a, (a + - a). repeat split; try reflexivity; lra.
    + lra.
  - unfold sub, neg, add, Math_max, int. cbn [leb].
    qle_cases (inject_Z 0) (a + - r); unfold inject_Z in *.
    + exists r, (a + - r). repeat split; try reflexivity; lra.
    + lra.
Qed.

(** Closes the case in which the loop adds no entry. *)
Ltac trace_nil :=
  split; [reflexivity|]; split; [assumption|]; split; [assumption|];
  split; [reflexivity|]; split; [unfold inject_Z; lra|]; split; [lra|];
  split; [auto|]; split; [auto|]; split; [constructor|];
  intros ? ? ? Hi; cbn in Hi; lia.

Lemma dispatchSources_trace hour ds :
  Forall (fun s => dispatchable s = true) ds ->
  Forall (fun s => is_fin (availablePower fin s hour)) ds ->
  forall acc r u,
    remainingDemand acc = Fin r ->
    hourlyEnergyUsed acc = Fin u ->
    exists entries r' u' t,
      sourceDispatch (dispatchSources fin hour ds acc)
        = sourceDispatch acc ++ entries
      /\ remainingDemand (dispatchSources fin hour ds acc) = Fin r'
      /\ hourlyEnergyUsed (dispatchSources fin hour ds acc) = Fin u'
      /\ sumPowerUsed entries = Fin t
      /\ t == u' - u
      /\ u' + r' == u + r
      /\ (0 <= r -> 0 <= r')
      /\ (r <= 0 -> entries = [])
      /\ Forall2 (entryOf fin hour) (take (length entries) ds) entries
      /\ (forall i s e,
             (S i < length entries)%nat ->
             ds !! i = Some s -> entries !! i = Some e ->
             powerUsed e =n= availablePower fin s hour).
Proof.
  intros Hd Hf. induction ds as [|s rest IH]; intros acc r u Hr Hu.
  - exists [], r, u, (inject_Z 0). cbn [dispatchSources].
    rewrite app_nil_r. trace_nil.
  - apply Forall_cons in Hd. destruct Hd as [Hs Hd].
    apply Forall_cons in Hf. destruct Hf as [Ha Hf].
    specialize (IH Hd Hf).
    cbn [dispatchSources]. rewrite Hr. cbn [leb]. unfold int.
    qle_cases r (inject_Z 0); unfold inject_Z in *.
    + exists [], r, u, (inject_Z 0).
      rewrite app_nil_r. trace_nil.
    + unfold dispatchable in Hs. rewrite Hs. cbn [negb].
      destruct (availablePower fin s hour) as [a| | |] eqn:Ea;
        try contradiction.
      destruct (dispatchSource_Fin hour s acc a r u Ea Hr Hu)
        as (used & curt & Hr1 & Hu1 & Hsd1 & Hur & Hfull & Hpart & Hc & Hc0).
      destruct (IH _ _ _ Hr1 Hu1)
        as (entries & r' & u' & t & Hsd & Hr' & Hu' & Hsum & Ht & Hcons
            & Hpos & Hbreak & Hall & Hmerit).
      exists (mkEntry (PowerSource.type s) (Fin used) (Fin curt) :: entries),
             r', u', (used + t).
      split; [rewrite Hsd, Hsd1, <- app_assoc; reflexivity|].
      split; [exact Hr'|]. split; [exact Hu'|].
      split; [cbn [sumPowerUsed foldr]; fold (sumPowerUsed entries);
              rewrite Hsum; reflexivity|].
      split; [lra|]. split; [lra|].
      split; [intros H0; apply Hpos; lra|].
      split; [intros H0; lra|].
      split.
      * cbn [length take]. constructor; [|exact Hall].
        split; [reflexivity|].
        exists a, used, curt. rewrite Ea. repeat split; auto.
      * intros i s' e Hi Hs' He. destruct i as [|i].
        -- cbn in Hs', He. injection Hs' as <-. injection He as <-.
           cbn [powerUsed]. rewrite Ea. cbn [num_eq].
           apply Hfull.
           destruct (Qlt_le_dec r a) as [Hra|Hra]; [|exact Hra].
           exfalso. cbn [length] in Hi.
           rewrite Hbreak in Hi; [cbn in Hi; lia|].
           rewrite (Hpart Hra). lra.
        -- cbn in Hs', He. cbn [length] in Hi.
           apply (Hmerit i s' e); auto. lia.
Qed.
End HourTrace.

(** ** The hours of the year *)

Section YearTrace.
Variables (elz : Electrolyzer.t) (fin : Financial.t).

Lemma foldl_dispatchHour sorted st0 n :
  let st := foldl (dispatchHour elz fin sorted) st0 (seq 0 n) in
  length (hourlyDispatch st) = (length (hourlyDispatch st0) + n)%nat
  /\ forall h, (h < n)%nat ->
       exists st',
         hourlyDispatch st !! (length (hourlyDispatch st0) + h)%nat
         = Some (hourRecord elz h
                   (dispatchSources fin h sorted (hourStart elz st'))).
Proof.
  induction n as [|n [IHlen IH]]; cbv zeta.
  - split; [cbn; lia|]. intros h Hh. lia.
  - rewrite seq_S, foldl_app. cbn [foldl Nat.add].
    set (st := foldl (dispatchHour elz fin sorted) st0 (seq 0 n)) in *.
    cbv zeta in IHlen, IH.
    unfold dispatchHour at 1 2. cbn [hourlyDispatch].
    split; [rewrite length_app, IHlen; cbn; lia|].
    intros h Hh. destruct (decide (h = n)) as [->|Hne].
    + exists st. rewrite lookup_app_r by lia.
      replace (length (hourlyDispatch st0) + n - length (hourlyDispatch st))%nat
        with 0%nat by lia.
      reflexivity.
    + destruct (IH h) as [st' Hst']; [lia|].
      exists st'. rewrite lookup_app_l by lia. exact Hst'.
Qed.

Lemma simulateDispatch_hour sorted h :
  (h < hoursPerYear)%nat ->
  exists st',
    hourlyDispatch (simulateDispatch elz fin sorted) !! h
    = Some (hourRecord elz h
              (dispatchSources fin h sorted (hourStart elz st'))).
Proof.
  intros Hh. unfold simulateDispatch.
  destruct (foldl_dispatchHour sorted (mkYearAcc [] (int 0) (int 0) [])
              hoursPerYear) as [_ H].
  exact (H h Hh).
Qed.

Lemma capacityFactorAt_in01 s hour :
  wellFormedSource s ->
  in01 (Financial.capacityFactor fin / int 100) ->
  in01 (capacityFactorAt fin s hour).
Proof.
  intros [_ Hts] Hcf. unfold capacityFactorAt. cbv zeta.
  assert (Hfb : in01 (if sourceType_eqb (PowerSource.type s) grid
                      then int 1
                      else (Financial.capacityFactor fin / int 100)%num)).
  { destruct (sourceType_eqb (PowerSource.type s) grid); [|exact Hcf].
    unfold in01, int, inject_Z. lra. }
  destruct (PowerSource.timeSeriesData s) as [ts|]; [|exact Hfb].
  destruct (ts !! hour) as [cf|] eqn:E; [|exact Hfb].
  cbn. cbn in Hts. eapply Forall_lookup_1; eauto.
Qed.

Lemma availablePower_fin s hour :
  wellFormedSource s ->
  in01 (Financial.capacityFactor fin / int 100) ->
  is_fin (availablePower fin s hour).
Proof.
  intros Hs Hcf. pose proof (capacityFactorAt_in01 s hour Hs Hcf) as H.
  destruct Hs as [Hc _]. unfold availablePower.
  destruct (PowerSource.capacity s); try contradiction.
  destruct (capacityFactorAt fin s hour); try contradiction.
  exact I.
Qed.

Lemma dispatchable_sorted_In l s :
  In s (List.filter dispatchable (sortedSources l)) -> In s l /\ dispatchable s = true.
Proof.
  intros H. apply List.filter_In in H. destruct H as [H Hd]. split; [|exact Hd].
  unfold sortedSources in H.
  eapply Permutation_in; [apply sortBy_Permutation|exact H].
Qed.

Lemma sorted_lookup_le (ds : list PowerSource.t) :
  StronglySorted lcoe_le ds ->
  forall i j a b, (i < j)%nat -> ds !! i = Some a -> ds !! j = Some b ->
                  lcoe_le a b.
Proof.
  induction 1 as [|x ds Hs IH Hx]; intros i j a b Hij Ha Hb.
  - discriminate.
  - destruct j as [|j]; [lia|]. cbn in Hb. destruct i as [|i].
    + cbn in Ha. injection Ha as <-.
      eapply Forall_lookup_1; eauto.
    + cbn in Ha. apply (IH i j); auto. lia.
Qed.

Lemma lcoe_lt_not_le a b : lcoe_lt a b -> lcoe_le b a -> False.
Proof.
  unfold lcoe_lt, lcoe_le.
  destruct (PowerSource.lcoe a) as [x|], (PowerSource.lcoe b) as [y|]; try tauto.
  destruct x as [p| | |], y as [q| | |]; cbn; try discriminate.
  rewrite negb_true_iff, Qle_bool_false, Qle_bool_iff. lra.
Qed.

Lemma lcoe_lt_irrefl a : ~ lcoe_lt a a.
Proof.
  unfold lcoe_lt. destruct (PowerSource.lcoe a) as [x|]; [|tauto].
  destruct x as [p| | |]; cbn; try discriminate.
  rewrite negb_true_iff, Qle_bool_false. lra.
Qed.

Lemma sorted_lookup_lt (ds : list PowerSource.t) :
  StronglySorted lcoe_le ds ->
  forall i j a b, ds !! i = Some a -> ds !! j = Some b -> lcoe_lt a b ->
                  (i < j)%nat.
Proof.
  intros Hs i j a b Ha Hb Hlt.
  destruct (lt_eq_lt_dec i j) as [[H|H]|H]; [exact H| |].
  - subst j. rewrite Ha in Hb. injection Hb as <-.
    exfalso. eapply lcoe_lt_irrefl; eauto.
  - exfalso. apply (lcoe_lt_not_le a b Hlt).
    eapply sorted_lookup_le; eauto.
Qed.
End YearTrace.

(** ** Merit order *)

Section HourlyRecords.
Variables (elz : Electrolyzer.t) (fin : Financial.t).
Variables (updatedSources : list PowerSource.t) (c : Q) (h : nat).
Hypothesis capacity_fin : Electrolyzer.capacity elz = Fin c.
Hypothesis available_fin :
  Forall (fun s => is_fin (availablePower fin s h)) updatedSources.
Hypothesis hour_in_year : (h < hoursPerYear)%nat.

(** The record of hour [h], as the trace of the loop over the dispatchable
    sources in merit order. *)
Lemma hourly_record_trace :
  exists r total rest,
    hourlyDispatch (simulateDispatch elz fin (sortedSources updatedSources)) !! h
      = Some r
    /\ hour r = h
    /\ sumPowerUsed (sources r) = Fin total
    /\ energyUsed r =n= Fin total
    /\ total + rest == c
    /\ (0 <= c -> 0 <= rest)
    /\ Forall2 (entryOf fin h)
               (take (length (sources r))
                     (List.filter dispatchable (sortedSources updatedSources)))
               (sources r)
    /\ (forall i s e,
           (S i < length (sources r))%nat ->
           List.filter dispatchable (sortedSources updatedSources) !! i = Some s ->
           sources r !! i = Some e ->
           powerUsed e =n= availablePower fin s h).
Proof.
  destruct (simulateDispatch_hour elz fin (sortedSources updatedSources) h
              hour_in_year) as [st' Hst'].
  set (ds := List.filter dispatchable (sortedSources updatedSources)).
  assert (Hd : Forall (fun s => dispatchable s = true) ds)
    by apply filter_dispatchable_Forall.
  assert (Hf : Forall (fun s => is_fin (availablePower fin s h)) ds).
  { apply List.Forall_forall. intros s Hs.
    apply dispatchable_sorted_In in Hs. destruct Hs as [Hs _].
    revert s Hs. now apply List.Forall_forall. }
  rewrite dispatchSources_filter in Hst'. fold ds in Hst'.
  destruct (dispatchSources_trace fin h ds Hd Hf (hourStart elz st') c
              (inject_Z 0) capacity_fin eq_refl)
    as (entries & r' & u' & t & Hsd & Hr' & Hu' & Hsum & Ht & Hcons
        & Hpos & _ & Hall & Hmerit).
  cbn [hourStart sourceDispatch app] in Hsd.
  exists (hourRecord elz h (dispatchSources fin h ds (hourStart elz st'))),
         t, r'.
  cbn [hourRecord hour sources energyUsed].
  rewrite Hsd, Hu'.
  split; [exact Hst'|]. split; [reflexivity|]. split; [exact Hsum|].
  unfold inject_Z in Ht, Hcons.
  split; [cbn [num_eq]; lra|].
  split; [lra|].
  split; [exact Hpos|]. split; [exact Hall|exact Hmerit].
Qed.
End HourlyRecords.

(** C3.  The sources are dispatched in merit order.  The sorted list
    holds the dispatchable sources in ascending order of [lcoe] (a
    strictly cheaper source stands before a dearer one) and behind them,
    in whatever order the engine leaves them, the sources without a truthy
    [lcoe], which the loop skips.  In the
    record of every hour the entries are those of the first dispatchable
    sources in that order, and whenever a source has an entry every source
    before it in merit order has one too and is fully used: its
    [powerUsed] is its available power. *)
Theorem merit_order_dispatch
    (elz : Electrolyzer.t) (fin : Financial.t)
    (updatedSources : list PowerSource.t) (c : Q) (h : nat) :
  Electrolyzer.capacity elz = Fin c ->
  Forall (fun s => is_fin (availablePower fin s h)) updatedSources ->
  (h < hoursPerYear)%nat ->
  let sorted := sortedSources updatedSources in
  let ds := List.filter dispatchable sorted in
  (exists back,
      sorted = ds ++ back
      /\ Forall (fun s => dispatchable s = false) back
      /\ Permutation back
           (List.filter (fun s => negb (dispatchable s)) updatedSources))
  /\ Permutation ds (List.filter dispatchable updatedSources)
  /\ StronglySorted lcoe_le ds
  /\ (forall i j a b,
         ds !! i = Some a -> ds !! j = Some b -> lcoe_lt a b -> (i < j)%nat)
  /\ (forall hour acc,
         dispatchSources fin hour sorted acc = dispatchSources fin hour ds acc)
  /\ exists r,
       hourlyDispatch (simulateDispatch elz fin sorted) !! h = Some r
       /\ Forall2 (entryOf fin h) (take (length (sources r)) ds) (sources r)
       /\ forall i j a b eb,
            (i < j)%nat ->
            ds !! i = Some a -> ds !! j = Some b ->
            sources r !! j = Some eb ->
            exists ea,
              sources r !! i = Some ea
              /\ powerUsed ea =n= availablePower fin a h.
Proof.
  intros Hc Hf Hh sorted ds.
  assert (Hds : ds = sortedSources (List.filter dispatchable updatedSources))
    by apply filter_dispatchable_sorted.
  assert (Hsorted : StronglySorted lcoe_le ds).
  { rewrite Hds. apply sortedSources_sorted, filter_dispatchable_Forall. }
  split.
  { exists (List.filter (fun s => negb (dispatchable s)) updatedSources).
    split; [unfold sorted; rewrite Hds; apply sortedSources_split|].
    split; [apply filter_not_dispatchable_Forall|reflexivity]. }
  split; [rewrite Hds; apply sortBy_Permutation|].
  split; [exact Hsorted|].
  split; [now apply sorted_lookup_lt|].
  split; [intros; apply dispatchSources_filter|].
  destruct (hourly_record_trace elz fin updatedSources c h Hc Hf Hh)
    as (r & total & rest & Hr & _ & _ & _ & _ & _ & Hall & Hmerit).
  exists r. split; [exact Hr|]. split; [exact Hall|].
  intros i j a b eb Hij Ha Hb Heb.
  apply lookup_lt_Some in Heb.
  destruct (lookup_lt_is_Some_2 (sources r) i) as [ea Hea]; [lia|].
  exists ea. split; [exact Hea|].
  apply (Hmerit i a ea); auto. lia.
Qed.

Lemma merit_order_dispatch_witness :
  exists r,
    hourlyDispatch
      (simulateDispatch defaultElectrolyzer defaultFinancial
         (sortedSources [defaultGrid; profiledSolar])) !! 0%nat = Some r
    /\ Forall2 (entryOf defaultFinancial 0)
               (take (length (sources r))
                     (List.filter dispatchable
                        (sortedSources [defaultGrid; profiledSolar])))
               (sources r).
Proof.
  assert (Hf : Forall (fun s => is_fin (availablePower defaultFinancial s 0))
                 [defaultGrid; profiledSolar])
    by (repeat constructor).
  assert (Hh : (0 < hoursPerYear)%nat) by (unfold hoursPerYear; lia).
  destruct (merit_order_dispatch defaultElectrolyzer defaultFinancial
              [defaultGrid; profiledSolar] 100 0 eq_refl Hf Hh)
    as (_ & _ & _ & _ & _ & r & Hr & Hall & _).
  exists r. split; [exact Hr|exact Hall].
Defined.

(** ** Timezone correction of a full year is a rotation *)

Section Rotation.
Context {A : Type} (zero undefined : A).
Variables (data : list A) (o : Z).
Hypothesis data_length : length data = hoursPerYear.
Hypothesis o_range : (-24 <= o <= 24)%Z.

(** The slot that supplies slot [i]. *)
Let supplier (i : nat) : Z := ((Z.of_nat i - o) mod 8760)%Z.

Lemma supplier_range i : (0 <= supplier i < 8760)%Z.
Proof. unfold supplier. apply Z.mod_pos_bound. lia. Qed.

Lemma localIndex_mod day hour :
  (day < 365)%nat -> (hour < 24)%nat ->
  localIndex o (Z.of_nat day) (Z.of_nat hour) = supplier (day * 24 + hour).
Proof.
  intros Hd Hh. unfold localIndex, supplier.
  destruct (Z.of_nat hour - o <? 0)%Z eqn:E1.
  - apply Z.ltb_lt in E1.
    destruct (Z.of_nat day - 1 <? 0)%Z eqn:E2; cbn beta iota.
    + apply Z.ltb_lt in E2. apply (Z.mod_unique _ _ (-1)); lia.
    + apply Z.ltb_ge in E2. apply (Z.mod_unique _ _ 0); lia.
  - apply Z.ltb_ge in E1.
    destruct (24 <=? Z.of_nat hour - o)%Z eqn:E2.
    + apply Z.leb_le in E2.
      destruct (365 <=? Z.of_nat day + 1)%Z eqn:E3; cbn beta iota.
      * apply Z.leb_le in E3. apply (Z.mod_unique _ _ 1); lia.
      * apply Z.leb_gt in E3. apply (Z.mod_unique _ _ 0); lia.
    + apply Z.leb_gt in E2. cbn beta iota. apply (Z.mod_unique _ _ 0); lia.
Qed.

Lemma read_supplier i :
  Some (read undefined data (supplier i)) = data !! Z.to_nat (supplier i).
Proof.
  pose proof (supplier_range i) as Hr. unfold read.
  destruct (supplier i <? 0)%Z eqn:E; [apply Z.ltb_lt in E; lia|].
  destruct (data !! Z.to_nat (supplier i)) as [x|] eqn:Hx; [reflexivity|].
  apply lookup_ge_None in Hx. unfold hoursPerYear in data_length. lia.
Qed.

Lemma shiftSlot_full sh day hour :
  (day < 365)%nat -> (hour < 24)%nat ->
  shiftSlot undefined data o sh day hour
  = <[(day * 24 + hour)%nat := read undefined data (supplier (day * 24 + hour))]> sh.
Proof.
  intros Hd Hh. unfold shiftSlot. cbv zeta.
  rewrite (localIndex_mod day hour Hd Hh).
  pose proof (supplier_range (day * 24 + hour)) as Hr.
  unfold hoursPerYear in data_length.
  replace (Z.of_nat (day * 24 + hour) <? Z.of_nat (length data))%Z with true
    by (symmetry; apply Z.ltb_lt; lia).
  replace (supplier (day * 24 + hour) <? Z.of_nat (length data))%Z with true
    by (symmetry; apply Z.ltb_lt; lia).
  reflexivity.
Qed.

Lemma shiftHours_lookup sh day m :
  (day < 365)%nat -> (m <= 24)%nat -> length sh = hoursPerYear ->
  let sh' :=
    foldl (fun sh hour => shiftSlot undefined data o sh day hour) sh (seq 0 m) in
  length sh' = hoursPerYear
  /\ forall i, sh' !! i
               = if decide (day * 24 <= i < day * 24 + m)%nat
                 then data !! Z.to_nat (supplier i) else sh !! i.
Proof.
  intros Hd Hm Hlen. induction m as [|m IH]; cbv zeta.
  - split; [exact Hlen|]. intros i. cbn [seq foldl].
    case_decide; [lia|reflexivity].
  - destruct IH as [IHlen IH]; [lia|].
    rewrite seq_S, foldl_app. cbn [foldl Nat.add].
    rewrite shiftSlot_full by lia.
    split; [now rewrite length_insert|].
    intros i. destruct (decide (i = day * 24 + m)%nat) as [->|Hne].
    + rewrite list_lookup_insert_eq
        by (rewrite IHlen; unfold hoursPerYear; lia).
      rewrite read_supplier. case_decide; [reflexivity|lia].
    + rewrite list_lookup_insert_ne by lia. rewrite IH.
      repeat case_decide; try reflexivity; lia.
Qed.

Lemma shiftDays_lookup sh d :
  (d <= 365)%nat -> length sh = hoursPerYear ->
  let sh' := foldl (shiftDay undefined data o) sh (seq 0 d) in
  length sh' = hoursPerYear
  /\ forall i, sh' !! i
               = if decide (i < d * 24)%nat
                 then data !! Z.to_nat (supplier i) else sh !! i.
Proof.
  intros Hd Hlen. induction d as [|d IH]; cbv zeta.
  - split; [exact Hlen|]. intros i. cbn [seq foldl].
    case_decide; [lia|reflexivity].
  - destruct IH as [IHlen IH]; [lia|].
    rewrite seq_S, foldl_app. cbn [foldl Nat.add].
    unfold shiftDay at 1 2.
    destruct (shiftHours_lookup
                (foldl (shiftDay undefined data o) sh (seq 0 d)) d 24)
      as [Hlen' Hlook]; [lia|lia|exact IHlen|].
    split; [exact Hlen'|].
    intros i. rewrite Hlook, IH.
    repeat case_decide; try reflexivity; lia.
Qed.

(** Every slot of the corrected year holds the value of the slot [o]
    hours earlier, around the year. *)
Lemma applyTimezoneCorrection_lookup :
  length (applyTimezoneCorrection zero undefined data o) = hoursPerYear
  /\ forall i, (i < hoursPerYear)%nat ->
       applyTimezoneCorrection zero undefined data o !! i
       = data !! Z.to_nat (supplier i).
Proof.
  unfold applyTimezoneCorrection.
  destruct (o =? 0)%Z eqn:E.
  - apply Z.eqb_eq in E. split; [exact data_length|].
    intros i Hi. f_equal. unfold supplier. rewrite E, Z.sub_0_r.
    unfold hoursPerYear in Hi. rewrite Z.mod_small by lia. lia.
  - destruct (shiftDays_lookup (replicate (length data) zero) 365)
      as [Hlen Hlook]; [lia|rewrite length_replicate; exact data_length|].
    split; [exact Hlen|].
    intros i Hi. rewrite Hlook. unfold hoursPerYear in Hi.
    case_decide; [reflexivity|lia].
Qed.
End Rotation.

(** C5.  For every array of 8760 entries and every offset [o] with
    [|o| < 24], the timezone correction by [o] followed by the correction
    by [-o] gives back the array, the slots next to the turn of the year
    included. *)
Theorem timezone_correction_roundtrip
    {A : Type} (zero undefined : A) (data : list A) (o : Z) :
  length data = hoursPerYear ->
  (-24 < o < 24)%Z ->
  applyTimezoneCorrection zero undefined
    (applyTimezoneCorrection zero undefined data o) (- o)
  = data.
Proof.
  intros Hlen Ho.
  destruct (applyTimezoneCorrection_lookup zero undefined data o Hlen)
    as [Hlen1 Hlook1]; [lia|].
  destruct (applyTimezoneCorrection_lookup zero undefined
              (applyTimezoneCorrection zero undefined data o) (- o) Hlen1)
    as [Hlen2 Hlook2]; [lia|].
  apply list_eq. intros i.
  destruct (decide (i < hoursPerYear)%nat) as [Hi|Hi].
  - rewrite Hlook2 by exact Hi.
    assert (Hr : (0 <= (Z.of_nat i - - o) mod 8760 < 8760)%Z)
      by (apply Z.mod_pos_bound; lia).
    rewrite Hlook1 by (unfold hoursPerYear; lia).
    f_equal. rewrite Z2Nat.id by lia.
    rewrite Zminus_mod_idemp_l.
    replace (Z.of_nat i - - o - o)%Z with (Z.of_nat i) by lia.
    unfold hoursPerYear in Hi. rewrite Z.mod_small by lia. lia.
  - rewrite !lookup_ge_None_2 by lia. reflexivity.
Qed.

Lemma timezone_correction_roundtrip_witness :
  applyTimezoneCorrection 0%Z (-1)%Z
    (applyTimezoneCorrection 0%Z (-1)%Z (map Z.of_nat (seq 0 hoursPerYear)) (-5))
    (- -5)
  = map Z.of_nat (seq 0 hoursPerYear).
Proof.
  apply timezone_correction_roundtrip.
  - rewrite length_map, length_seq. reflexivity.
  - lia.
Defined.

(** ** Running the calculation again *)

Lemma calculateLCOE_with_lcoe source v ts fin :
  calculateLCOE (PowerSource.with_lcoe source v) ts fin
  = calculateLCOE source ts fin.
Proof. reflexivity. Qed.

Lemma updateSource_idempotent fin source :
  updateSource fin (updateSource fin source) = updateSource fin source.
Proof.
  unfold updateSource at 2 3.
  destruct (negb (sourceType_eqb (PowerSource.type source) grid)
            && negb (truthy_opt (PowerSource.lcoe source))
            && bool_decide (is_Some (PowerSource.timeSeriesData source)))
    eqn:E.
  - apply andb_prop in E. destruct E as [E Ets].
    apply andb_prop in E. destruct E as [Ety _].
    unfold updateSource.
    change (PowerSource.type (PowerSource.with_lcoe source ?v))
      with (PowerSource.type source).
    change (PowerSource.timeSeriesData (PowerSource.with_lcoe source ?v))
      with (PowerSource.timeSeriesData source).
    change (PowerSource.lcoe (PowerSource.with_lcoe source ?v)) with v.
    rewrite Ety, Ets. cbn [andb truthy_opt].
    destruct (truthy (calculateLCOE source (PowerSource.timeSeriesData source) fin));
      reflexivity.
  - unfold updateSource. now rewrite E.
Qed.

(** C9.  The calculation is deterministic, and it can be run again on
    what a run leaves behind.  The only state that survives a run is the
    LCOE that [calculateLCOH] caches on the sources: [calculateLCOE] does
    not read it, and a second run of [calculateLCOH], on the store left by
    the first, caches the same LCOEs and yields the same results, the
    dispatch of every hour included. *)
Theorem rerun_yields_identical_output :
  (forall source v ts fin,
      calculateLCOE (PowerSource.with_lcoe source v) ts fin
      = calculateLCOE source ts fin)
  /\ (forall i, calculateLCOH (fst (calculateLCOH i)) = calculateLCOH i)
  /\ (forall i,
        r_hourlyDispatch (snd (calculateLCOH (fst (calculateLCOH i))))
        = r_hourlyDispatch (snd (calculateLCOH i))).
Proof.
  assert (H : forall i, calculateLCOH (fst (calculateLCOH i)) = calculateLCOH i).
  { intros i. unfold calculateLCOH. cbn [fst powerSources electrolyzer financial].
    rewrite List.map_map.
    rewrite (List.map_ext _ _ (updateSource_idempotent (financial i))).
    reflexivity. }
  split; [exact calculateLCOE_with_lcoe|].
  split; [exact H|].
  intros i. now rewrite H.
Qed.

(** ** More on the timezone correction *)

(** X1.  For a longitude between -180 and 180 degrees
    [calculateTimezoneOffset] returns a whole number of hours between -12
    and 12, the one nearest to [longitude / 15]: the two differ by at most
    half an hour, and a tie goes to the later hour. *)
Theorem timezone_offset_is_nearest_hour (longitude : Q) :
  -180 <= longitude <= 180 ->
  (-12 <= calculateTimezoneOffset longitude <= 12)%Z
  /\ inject_Z (calculateTimezoneOffset longitude) - (1 # 2) <= longitude / 15
  /\ longitude / 15 < inject_Z (calculateTimezoneOffset longitude) + (1 # 2).
Proof.
  intros Hl. split; [now apply calculateTimezoneOffset_bound|].
  unfold calculateTimezoneOffset.
  pose proof (Qfloor_le (longitude / 15 + (1 # 2))) as H1.
  pose proof (Qlt_floor (longitude / 15 + (1 # 2))) as H2.
  rewrite inject_Z_plus in H2. unfold inject_Z at 2 in H2.
  split; lra.
Qed.

Lemma timezone_offset_is_nearest_hour_witness :
  (-12 <= calculateTimezoneOffset (-77) <= 12)%Z.
Proof.
  apply (timezone_offset_is_nearest_hour (-77)). lra.
Defined.

Section ShiftAnyLength.
Context {A : Type} (zero undefined : A).
Variables (data : list A) (o : Z).

Lemma shiftSlot_length sh day hour :
  length (shiftSlot undefined data o sh day hour) = length sh.
Proof.
  unfold shiftSlot. cbv zeta.
  destruct (_ && _); [apply length_insert|reflexivity].
Qed.

Lemma shiftDay_length sh day :
  length (shiftDay undefined data o sh day) = length sh.
Proof.
  unfold shiftDay. generalize (seq 0 24). intros hours. revert sh.
  induction hours as [|h hours IH]; intros sh; cbn [foldl]; [reflexivity|].
  now rewrite IH, shiftSlot_length.
Qed.

Lemma shiftDays_length sh days :
  length (foldl (shiftDay undefined data o) sh days) = length sh.
Proof.
  revert sh. induction days as [|d days IH]; intros sh; cbn [foldl];
    [reflexivity|].
  now rewrite IH, shiftDay_length.
Qed.
End ShiftAnyLength.

(** X2.  [applyTimezoneCorrection] returns a series of the length of the
    series it is given, whatever that length and whatever the offset. *)
Theorem timezone_correction_keeps_length
    {A : Type} (zero undefined : A) (data : list A) (o : Z) :
  length (applyTimezoneCorrection zero undefined data o) = length data.
Proof.
  unfold applyTimezoneCorrection. destruct (o =? 0)%Z; [reflexivity|].
  now rewrite shiftDays_length, length_replicate.
Qed.

(** The index computed by the loops, for any offset of at most a day. *)
Lemma localIndex_rotation (o : Z) (day hour : nat) :
  (-24 <= o <= 24)%Z -> (day < 365)%nat -> (hour < 24)%nat ->
  localIndex o (Z.of_nat day) (Z.of_nat hour)
  = ((Z.of_nat (day * 24 + hour) - o) mod 8760)%Z.
Proof.
  intros Ho Hd Hh.
  apply (localIndex_mod (replicate hoursPerYear tt)); auto.
Qed.

Section ShiftLookup.
Context {A : Type} (zero undefined : A).
Variables (data : list A) (o : Z).
Hypothesis o_range : (-24 <= o <= 24)%Z.

Let supplier_of (i : nat) : nat := Z.to_nat ((Z.of_nat i - o) mod 8760).

Lemma read_in_data (s : Z) :
  (0 <= s < Z.of_nat (length data))%Z ->
  Some (read undefined data s) = data !! Z.to_nat s.
Proof.
  intros Hs. unfold read.
  destruct (s <? 0)%Z eqn:E; [apply Z.ltb_lt in E; lia|].
  destruct (data !! Z.to_nat s) as [x|] eqn:Hx; [reflexivity|].
  apply lookup_ge_None in Hx. lia.
Qed.

Lemma shiftSlot_lookup sh day hour i :
  (day < 365)%nat -> (hour < 24)%nat -> length sh = length data ->
  shiftSlot undefined data o sh day hour !! i
  = if decide (i = day * 24 + hour /\ i < length data
               /\ supplier_of i < length data)%nat
    then data !! supplier_of i else sh !! i.
Proof.
  intros Hd Hh Hlen. unfold shiftSlot. cbv zeta.
  rewrite (localIndex_rotation o day hour o_range Hd Hh).
  assert (Hr : (0 <= (Z.of_nat (day * 24 + hour) - o) mod 8760 < 8760)%Z)
    by (apply Z.mod_pos_bound; lia).
  destruct (Z.of_nat (day * 24 + hour) <? Z.of_nat (length data))%Z eqn:E1;
    cbn [andb].
  - apply Z.ltb_lt in E1.
    destruct ((Z.of_nat (day * 24 + hour) - o) mod 8760
              <? Z.of_nat (length data))%Z eqn:E2.
    + apply Z.ltb_lt in E2.
      destruct (decide (i = day * 24 + hour)%nat) as [->|Hne].
      * rewrite list_lookup_insert_eq by lia.
        rewrite read_in_data by lia.
        case_decide as Hc; [reflexivity|].
        exfalso. apply Hc. unfold supplier_of. lia.
      * rewrite list_lookup_insert_ne by lia.
        case_decide; [lia|reflexivity].
    + apply Z.ltb_ge in E2. case_decide as Hc; [|reflexivity].
      unfold supplier_of in Hc. destruct Hc as (-> & _ & Hc). lia.
  - apply Z.ltb_ge in E1. case_decide; [lia|reflexivity].
Qed.

Lemma shiftHours_lookup_any sh day m i :
  (day < 365)%nat -> (m <= 24)%nat -> length sh = length data ->
  foldl (fun sh hour => shiftSlot undefined data o sh day hour) sh (seq 0 m) !! i
  = if decide (day * 24 <= i < day * 24 + m /\ i < length data
               /\ supplier_of i < length data)%nat
    then data !! supplier_of i else sh !! i.
Proof.
  intros Hd Hm Hlen. induction m as [|m IH].
  - cbn [seq foldl]. case_decide; [lia|reflexivity].
  - rewrite seq_S, foldl_app. cbn [foldl Nat.add].
    rewrite shiftSlot_lookup; [|exact Hd|lia|].
    + rewrite IH by lia. repeat case_decide; try reflexivity; lia.
    + clear IH. generalize (seq 0 m). intros hours. revert sh Hlen.
      induction hours as [|h hours IHh]; intros sh Hlen; cbn [foldl];
        [exact Hlen|].
      apply IHh. now rewrite shiftSlot_length.
Qed.

Lemma shiftDays_lookup_any sh d i :
  (d <= 365)%nat -> length sh = length data ->
  foldl (shiftDay undefined data o) sh (seq 0 d) !! i
  = if decide (i < d * 24 /\ i < length data /\ supplier_of i < length data)%nat
    then data !! supplier_of i else sh !! i.
Proof.
  intros Hd Hlen. induction d as [|d IH].
  - cbn [seq foldl]. case_decide; [lia|reflexivity].
  - rewrite seq_S, foldl_app. cbn [foldl Nat.add].
    unfold shiftDay at 1.
    rewrite shiftHours_lookup_any;
      [|lia|lia|now rewrite shiftDays_length].
    rewrite IH by lia. repeat case_decide; try reflexivity; lia.
Qed.

Lemma applyTimezoneCorrection_lookup_any i :
  o <> 0%Z ->
  applyTimezoneCorrection zero undefined data o !! i
  = if decide (i < hoursPerYear /\ i < length data
               /\ supplier_of i < length data)%nat
    then data !! supplier_of i
    else replicate (length data) zero !! i.
Proof.
  intros Ho. unfold applyTimezoneCorrection.
  destruct (o =? 0)%Z eqn:E; [apply Z.eqb_eq in E; contradiction|].
  rewrite shiftDays_lookup_any; [|lia|apply length_replicate].
  unfold hoursPerYear. repeat case_decide; try reflexivity; lia.
Qed.
End ShiftLookup.

(** X3.  What [applyTimezoneCorrection] stores, for a series of any
    length and an offset other than 0 of at most 24 hours either way: a
    slot [i] among the first 8760 holds the value of slot
    [(i - offset) mod 8760] of the series when the series has that slot,
    and the fill value 0 when it has not; a slot past the first 8760 holds
    0. *)
Theorem timezone_correction_slots
    {A : Type} (zero undefined : A) (data : list A) (o : Z) (i : nat) :
  (-24 <= o <= 24)%Z -> o <> 0%Z -> (i < length data)%nat ->
  let supplier := Z.to_nat ((Z.of_nat i - o) mod 8760) in
  ((i < hoursPerYear)%nat -> (supplier < length data)%nat ->
     applyTimezoneCorrection zero undefined data o !! i = data !! supplier)
  /\ ((hoursPerYear <= i)%nat \/ (length data <= supplier)%nat ->
     applyTimezoneCorrection zero undefined data o !! i = Some zero).
Proof.
  intros Hr Ho Hi supplier. subst supplier.
  rewrite (applyTimezoneCorrection_lookup_any zero undefined data o Hr i Ho).
  split.
  - intros H1 H2. case_decide as Hc; [reflexivity|]. exfalso. apply Hc. auto.
  - intros H. case_decide as Hc; [|now apply lookup_replicate_2].
    destruct Hc as (Hc1 & _ & Hc2). cbv beta in Hc2. destruct H; lia.
Qed.

Lemma timezone_correction_slots_witness :
  applyTimezoneCorrection 0%Z (-1)%Z [10; 20; 30; 40; 50]%Z 2 !! 3%nat
  = [10; 20; 30; 40; 50]%Z !! 1%nat
  /\ applyTimezoneCorrection 0%Z (-1)%Z [10; 20; 30; 40; 50]%Z 2 !! 1%nat
     = Some 0%Z.
Proof.
  assert (Hr : (-24 <= 2 <= 24)%Z) by lia.
  assert (Ho : 2%Z <> 0%Z) by lia.
  assert (H3 : (3 < length [10; 20; 30; 40; 50]%Z)%nat) by (cbn; lia).
  assert (H1 : (1 < length [10; 20; 30; 40; 50]%Z)%nat) by (cbn; lia).
  destruct (timezone_correction_slots 0%Z (-1)%Z [10; 20; 30; 40; 50]%Z 2 3
              Hr Ho H3) as [Ha _].
  destruct (timezone_correction_slots 0%Z (-1)%Z [10; 20; 30; 40; 50]%Z 2 1
              Hr Ho H1) as [_ Hb].
  split.
  - apply Ha; [unfold hoursPerYear; lia|vm_compute; lia].
  - apply Hb. right. vm_compute. lia.
Defined.

(** X4.  On a series of 8760 values two timezone corrections in a row
    amount to one correction by the sum of the two offsets, as long as the
    offsets and their sum stay within 24 hours either way. *)
Theorem timezone_corrections_compose
    {A : Type} (zero undefined : A) (data : list A) (o1 o2 : Z) :
  length data = hoursPerYear ->
  (-24 <= o1 <= 24)%Z -> (-24 <= o2 <= 24)%Z -> (-24 <= o1 + o2 <= 24)%Z ->
  applyTimezoneCorrection zero undefined
    (applyTimezoneCorrection zero undefined data o1) o2
  = applyTimezoneCorrection zero undefined data (o1 + o2).
Proof.
  intros Hlen H1 H2 H12.
  destruct (applyTimezoneCorrection_lookup zero undefined data o1 Hlen H1)
    as [Hlen1 Hlook1].
  destruct (applyTimezoneCorrection_lookup zero undefined
              (applyTimezoneCorrection zero undefined data o1) o2 Hlen1 H2)
    as [Hlen2 Hlook2].
  destruct (applyTimezoneCorrection_lookup zero undefined data (o1 + o2)
              Hlen H12) as [Hlen3 Hlook3].
  apply list_eq. intros i.
  destruct (decide (i < hoursPerYear)%nat) as [Hi|Hi].
  - rewrite Hlook2, Hlook3 by exact Hi.
    assert (Hr : (0 <= (Z.of_nat i - o2) mod 8760 < 8760)%Z)
      by (apply Z.mod_pos_bound; lia).
    rewrite Hlook1 by (unfold hoursPerYear; lia).
    f_equal. f_equal. rewrite Z2Nat.id by lia.
    rewrite Zminus_mod_idemp_l. f_equal. lia.
  - rewrite !lookup_ge_None_2 by lia. reflexivity.
Qed.

Lemma timezone_corrections_compose_witness :
  applyTimezoneCorrection 0%Z (-1)%Z
    (applyTimezoneCorrection 0%Z (-1)%Z (map Z.of_nat (seq 0 hoursPerYear)) 7) (-12)
  = applyTimezoneCorrection 0%Z (-1)%Z (map Z.of_nat (seq 0 hoursPerYear)) (7 + -12).
Proof.
  apply timezone_corrections_compose.
  - rewrite length_map, length_seq. reflexivity.
  - lia.
  - lia.
  - lia.
Defined.

(** ** The stored series, slot by slot *)

Lemma lookup_map {A B} (f : A -> B) (l : list A) (i : nat) :
  map f l !! i = option_map f (l !! i).
Proof.
  revert i. induction l as [|x l IH]; intros [|i]; cbn; auto.
Qed.

Lemma fullYearData_lookup {A} (zero : A) (data : list A) (i : nat) :
  (i < hoursPerYear)%nat ->
  fullYearData zero data !! i = Some (default zero (data !! i)).
Proof.
  intros Hi. unfold fullYearData.
  destruct (decide (i < length data)%nat) as [Hl|Hl].
  - rewrite lookup_app_l by (rewrite length_take; lia).
    rewrite lookup_take_lt by lia.
    destruct (data !! i) as [x|] eqn:E; [reflexivity|].
    apply lookup_ge_None in E. lia.
  - rewrite lookup_app_r by (rewrite length_take; lia).
    rewrite length_take.
    rewrite (lookup_ge_None_2 data i) by lia. cbn [default].
    apply lookup_replicate_2. lia.
Qed.

(** X5.  The series stored from a Renewables.ninja response holds, at
    every hour [i] of the year, the clamped capacity factor of sample [i]
    of the response (no timezone shift is applied), and 0 where the
    response has no such sample. *)
Theorem ninja_series_slots (samples : list (option num)) (i : nat) :
  (i < hoursPerYear)%nat ->
  ingestNinja samples !! i
  = Some match samples !! i with
         | Some electricity => normalizeNinja electricity
         | None => int 0
         end.
Proof.
  intros Hi. unfold ingestNinja. rewrite fullYearData_lookup by exact Hi.
  rewrite lookup_map. destruct (samples !! i); reflexivity.
Qed.

Lemma ninja_series_slots_witness :
  ingestNinja [Some (Fin (3 # 2)); None] !! 0%nat
  = Some (normalizeNinja (Some (Fin (3 # 2)))).
Proof.
  apply (ninja_series_slots [Some (Fin (3 # 2)); None] 0).
  unfold hoursPerYear. lia.
Defined.

(** X6.  The series stored from a PVGIS response that covers the year,
    for a site between -180 and 180 degrees of longitude, holds at every
    hour [i] of the year the normalized power of sample
    [(i - offset) mod 8760] of the response, where [offset] is the
    timezone offset of the longitude. *)
Theorem pvgis_series_slots (hourly : list num) (longitude : Q) (i : nat) :
  (hoursPerYear <= length hourly)%nat ->
  -180 <= longitude <= 180 ->
  (i < hoursPerYear)%nat ->
  ingestPVGIS hourly longitude !! i
  = option_map normalizePVGIS
      (hourly !! Z.to_nat ((Z.of_nat i - calculateTimezoneOffset longitude)
                           mod 8760)).
Proof.
  intros Hlen Hl Hi. unfold ingestPVGIS. cbv zeta.
  pose proof (calculateTimezoneOffset_bound longitude Hl) as Ho.
  set (o := calculateTimezoneOffset longitude) in *.
  assert (Hr : (0 <= (Z.of_nat i - o) mod 8760 < 8760)%Z)
    by (apply Z.mod_pos_bound; lia).
  rewrite fullYearData_lookup by exact Hi.
  rewrite <- lookup_map.
  destruct (decide (o = 0%Z)) as [E|E].
  - rewrite E. unfold applyTimezoneCorrection. cbn [Z.eqb].
    rewrite Z.sub_0_r. unfold hoursPerYear in Hi, Hlen.
    rewrite Z.mod_small by lia. rewrite Nat2Z.id.
    destruct (map normalizePVGIS hourly !! i) as [x|] eqn:Ex; [reflexivity|].
    apply lookup_ge_None in Ex. rewrite length_map in Ex. lia.
  - rewrite (applyTimezoneCorrection_lookup_any (int 0) NaN
               (map normalizePVGIS hourly) o) by (lia || exact E).
    unfold hoursPerYear in Hi, Hlen.
    case_decide as Hc.
    + destruct (map normalizePVGIS hourly !! _) as [x|] eqn:Ex; [reflexivity|].
      apply lookup_ge_None in Ex. rewrite length_map in Ex. lia.
    + exfalso. apply Hc. rewrite length_map. unfold hoursPerYear. lia.
Qed.

Lemma pvgis_series_slots_witness :
  ingestPVGIS (replicate hoursPerYear (Fin 500)) (-77) !! 3%nat
  = option_map normalizePVGIS
      (replicate hoursPerYear (Fin 500)
         !! Z.to_nat ((Z.of_nat 3 - calculateTimezoneOffset (-77)) mod 8760)).
Proof.
  apply pvgis_series_slots.
  - rewrite length_replicate. lia.
  - lra.
  - unfold hoursPerYear. lia.
Defined.

Lemma ingestPVGIS_lookup (hourly : list num) (longitude : Q) (i : nat) :
  -180 <= longitude <= 180 ->
  (i < hoursPerYear)%nat ->
  ingestPVGIS hourly longitude !! i
  = Some (if decide (i < length hourly)%nat
          then match hourly !! Z.to_nat ((Z.of_nat i
                                          - calculateTimezoneOffset longitude)
                                         mod 8760) with
               | Some P => normalizePVGIS P
               | None => int 0
               end
          else int 0).
Proof.
  intros Hl Hi. unfold ingestPVGIS. cbv zeta.
  pose proof (calculateTimezoneOffset_bound longitude Hl) as Ho.
  set (o := calculateTimezoneOffset longitude) in *.
  assert (Hr : (0 <= (Z.of_nat i - o) mod 8760 < 8760)%Z)
    by (apply Z.mod_pos_bound; lia).
  set (k := Z.to_nat ((Z.of_nat i - o) mod 8760)) in *.
  rewrite fullYearData_lookup by exact Hi. f_equal.
  destruct (decide (o = 0%Z)) as [E|E].
  - assert (Hk : k = i).
    { unfold k. rewrite E, Z.sub_0_r. unfold hoursPerYear in Hi.
      rewrite Z.mod_small by lia. apply Nat2Z.id. }
    rewrite E, Hk. unfold applyTimezoneCorrection. cbn [Z.eqb].
    rewrite lookup_map. case_decide as Hc.
    + destruct (hourly !! i); reflexivity.
    + rewrite (lookup_ge_None_2 hourly i) by lia. reflexivity.
  - rewrite (applyTimezoneCorrection_lookup_any (int 0) NaN
               (map normalizePVGIS hourly) o) by (lia || exact E).
    cbv beta. fold k. rewrite length_map, lookup_map.
    destruct (decide (i < length hourly)%nat) as [Hil|Hil];
      destruct (decide (k < length hourly)%nat) as [Hkl|Hkl].
    + rewrite decide_True by (repeat split; assumption).
      destruct (hourly !! k); reflexivity.
    + rewrite decide_False by (intros (_ & _ & H); contradiction).
      rewrite lookup_replicate_2 by lia.
      rewrite (lookup_ge_None_2 hourly k) by lia. reflexivity.
    + rewrite decide_False by (intros (_ & H & _); contradiction).
      rewrite (lookup_ge_None_2 (replicate _ _) i)
        by (rewrite length_replicate; lia).
      reflexivity.
    + rewrite decide_False by (intros (_ & H & _); contradiction).
      rewrite (lookup_ge_None_2 (replicate _ _) i)
        by (rewrite length_replicate; lia).
      reflexivity.
Qed.

(** C7.  Every raw sample that is a real number is stored as a capacity
    factor of [0, 1], by either provider: a negative reading is stored as
    0, a reading above the rated output (1000 W for the 1 kW plant of
    PVGIS, 1 for Renewables.ninja) as 1, and a reading in between as the
    fraction of the rated output that it is.  The stored series has 8760
    entries that all lie in [0, 1], and each of them is the clamped value
    of its sample: for Renewables.ninja slot [i] holds the clamped sample
    [i] (a missing field or a missing sample is stored as 0), for PVGIS
    slot [i] holds the clamped sample [(i - offset) mod 8760], where
    [offset] is the timezone offset of the longitude, and 0 where the
    response has no such sample or no sample [i]. *)
Theorem stored_capacity_factor_in_unit_interval
    (hourly : list num) (longitude : Q) (samples : list (option num)) :
  Forall is_fin hourly ->
  -180 <= longitude <= 180 ->
  Forall (from_option is_fin True) samples ->
  (forall raw : Q,
      in01 (normalizePVGIS (Fin raw))
      /\ in01 (normalizeNinja (Some (Fin raw)))
      /\ (raw <= 0 -> normalizePVGIS (Fin raw) =n= int 0
                      /\ normalizeNinja (Some (Fin raw)) =n= int 0)
      /\ (1000 <= raw -> normalizePVGIS (Fin raw) =n= int 1)
      /\ (1 <= raw -> normalizeNinja (Some (Fin raw)) =n= int 1)
      /\ (0 <= raw <= 1000 ->
          normalizePVGIS (Fin raw) =n= (Fin raw / int 1000)%num)
      /\ (0 <= raw <= 1 -> normalizeNinja (Some (Fin raw)) =n= Fin raw))
  /\ Forall in01 (ingestPVGIS hourly longitude)
  /\ length (ingestPVGIS hourly longitude) = hoursPerYear
  /\ Forall in01 (ingestNinja samples)
  /\ length (ingestNinja samples) = hoursPerYear
  /\ (forall i, (i < hoursPerYear)%nat ->
        ingestPVGIS hourly longitude !! i
        = Some (if decide (i < length hourly)%nat
                then match hourly !! Z.to_nat
                                       ((Z.of_nat i
                                         - calculateTimezoneOffset longitude)
                                        mod 8760) with
                     | Some P => normalizePVGIS P
                     | None => int 0
                     end
                else int 0))
  /\ (forall i, (i < hoursPerYear)%nat ->
        ingestNinja samples !! i
        = Some match samples !! i with
               | Some electricity => normalizeNinja electricity
               | None => int 0
               end).
Proof.
  intros Hh Hl Hs. split; [|split; [|split; [|split; [|split; [|split]]]]].
  - intros raw.
    assert (Hd : raw / inject_Z 1000 == raw * (1 # 1000)) by (unfold inject_Z; field).
    split; [apply normalizePVGIS_in01; exact I|].
    split; [apply (normalizeNinja_in01 (Some (Fin raw))); exact I|].
    split; [intros H; split|split; [|split; [|split]]].
    + rewrite normalizePVGIS_Fin. apply clamp01_Fin. rewrite Hd. lra.
    + simpl. apply clamp01_Fin. lra.
    + intros H. rewrite normalizePVGIS_Fin. apply clamp01_Fin. rewrite Hd. lra.
    + intros H. simpl. apply clamp01_Fin. lra.
    + intros H. rewrite normalizePVGIS_Fin.
      change (Fin raw / int 1000)%num with (Fin (raw / inject_Z 1000)).
      apply clamp01_Fin. rewrite Hd. lra.
    + intros H. simpl. apply clamp01_Fin. lra.
  - unfold ingestPVGIS. apply fullYearData_Forall; [apply in01_zero|].
    apply applyTimezoneCorrection_Forall; [apply in01_zero| |].
    + pose proof (calculateTimezoneOffset_bound longitude Hl). lia.
    + apply List.Forall_map. eapply Forall_impl; [exact Hh|].
      intros x Hx. now apply normalizePVGIS_in01.
  - apply fullYearData_length.
  - unfold ingestNinja. apply fullYearData_Forall; [apply in01_zero|].
    apply List.Forall_map. eapply Forall_impl; [exact Hs|].
    intros x Hx. now apply normalizeNinja_in01.
  - apply fullYearData_length.
  - intros i Hi. now apply ingestPVGIS_lookup.
  - intros i Hi. unfold ingestNinja. rewrite fullYearData_lookup by exact Hi.
    rewrite lookup_map. destruct (samples !! i); reflexivity.
Qed.

(** A response of three samples for a site one hour east of Greenwich:
    the reading above the rated output is stored, one hour later, as 1,
    and the negative reading as 0. *)
Lemma stored_capacity_factor_in_unit_interval_witness :
  ingestPVGIS [Fin 1500; Fin (-3); Fin 250] 16 !! 1%nat = Some (int 1)
  /\ ingestPVGIS [Fin 1500; Fin (-3); Fin 250] 16 !! 2%nat = Some (int 0)
  /\ ingestNinja [Some (Fin (3 # 2)); None; Some (Fin (-1))] !! 0%nat
     = Some (int 1)
  /\ Forall in01 (ingestPVGIS [Fin 1500; Fin (-3); Fin 250] 16)
  /\ Forall in01 (ingestNinja [Some (Fin (3 # 2)); None; Some (Fin (-1))]).
Proof.
  assert (H1 : Forall is_fin [Fin 1500; Fin (-3); Fin 250])
    by (repeat constructor).
  assert (H2 : -180 <= 16 <= 180) by lra.
  assert (H3 : Forall (from_option is_fin True)
                 [Some (Fin (3 # 2)); None; Some (Fin (-1))])
    by (repeat constructor).
  assert (Hi1 : (1 < hoursPerYear)%nat) by (unfold hoursPerYear; lia).
  assert (Hi2 : (2 < hoursPerYear)%nat) by (unfold hoursPerYear; lia).
  assert (Hi0 : (0 < hoursPerYear)%nat) by (unfold hoursPerYear; lia).
  destruct (stored_capacity_factor_in_unit_interval _ _ _ H1 H2 H3)
    as (_ & Hp & _ & Hn & _ & Hps & Hns).
  split; [rewrite (Hps 1%nat Hi1); reflexivity|].
  split; [rewrite (Hps 2%nat Hi2); reflexivity|].
  split; [rewrite (Hns 0%nat Hi0); reflexivity|].
  split; assumption.
Defined.

(** ** The daily profile preview *)

Lemma dayOfYear_months (n : nat) (day : Z) :
  (n <= 12)%nat ->
  foldl (fun dayOfYear m =>
           match dayOfYear, daysInMonth !! (m - 1)%nat with
           | Some d, Some n => Some (d + Z.of_nat n)%Z
           | _, _ => None
           end)
        (Some day) (seq 1 n)
  = Some (day + Z.of_nat (sum_list (take n daysInMonth)))%Z.
Proof.
  induction n as [|n IH]; intros Hn.
  - cbn. f_equal. lia.
  - rewrite seq_S, foldl_app, IH by lia. cbn [foldl].
    replace (1 + n - 1)%nat with n by lia.
    destruct (daysInMonth !! n) as [x|] eqn:Ex.
    + rewrite (take_S_r _ _ _ Ex), sum_list_with_app. cbn [sum_list_with id]. f_equal. lia.
    + apply lookup_ge_None in Ex. cbn in Ex. lia.
Qed.

Lemma dayOfYear_calendar (month day : Z) :
  (1 <= month <= 13)%Z ->
  dayOfYear month day = Some (day + daysBefore month)%Z.
Proof.
  intros Hm. unfold dayOfYear, daysBefore. apply dayOfYear_months. lia.
Qed.

Lemma daysBefore_bounds (month : Z) :
  (1 <= month <= 12)%Z ->
  exists n, getDaysInMonth month = Some n
            /\ (0 <= daysBefore month <= 334)%Z
            /\ (daysBefore month + Z.of_nat n = daysBefore (month + 1))%Z
            /\ (daysBefore (month + 1) <= 365)%Z
            /\ (28 <= n <= 31)%nat.
Proof.
  intros Hm.
  assert (H : (month = 1 \/ month = 2 \/ month = 3 \/ month = 4 \/ month = 5
               \/ month = 6 \/ month = 7 \/ month = 8 \/ month = 9
               \/ month = 10 \/ month = 11 \/ month = 12)%Z) by lia.
  repeat (destruct H as [->|H]; [eexists; vm_compute; repeat split; try discriminate; lia|]).
  subst. eexists; vm_compute; repeat split; try discriminate; lia.
Qed.

Lemma getSelectedDayData_hours month day ts :
  map dp_hour (getSelectedDayData month day ts) = seq 0 24.
Proof.
  unfold getSelectedDayData.
  destruct ts as [[|x l]|]; rewrite List.map_map;
    rewrite <- (List.map_id (seq 0 24)) at 2; apply List.map_ext; intros h;
    try reflexivity.
  cbv zeta. destruct (option_map _ _); [|reflexivity].
  destruct (_ && _); reflexivity.
Qed.

Lemma getSelectedDayData_values (P : num -> Prop) month day l :
  P (int 0) -> Forall P l ->
  Forall (fun p => P (dp_value p)) (getSelectedDayData month day (Some l)).
Proof.
  intros H0 Hl. unfold getSelectedDayData.
  destruct l as [|x l'] eqn:El.
  - apply List.Forall_map. apply List.Forall_forall. intros h _. exact H0.
  - rewrite <- El in *. clear El. cbv zeta.
    apply List.Forall_map. apply List.Forall_forall. intros h _.
    destruct (option_map _ _) as [s|]; [|exact H0].
    destruct ((0 <=? s + Z.of_nat h)%Z && (s + Z.of_nat h <? Z.of_nat (length l))%Z)
      eqn:E; [|exact H0].
    apply andb_prop in E. destruct E as [E1 E2].
    apply Z.leb_le in E1. apply Z.ltb_lt in E2.
    destruct (l !! Z.to_nat (s + Z.of_nat h)) as [v|] eqn:Ev.
    + cbn. eapply Forall_lookup_1; eauto.
    + apply lookup_ge_None in Ev. lia.
Qed.

(** X7.  [getSelectedDayData] always returns 24 points, for the hours 0
    to 23 in this order, whatever the month and the day selected.  Their
    values lie in [0, 1] when the values of the series do, and are all 0
    when there is no series or when it is empty. *)
Theorem day_profile_has_24_points_in_unit_interval
    (month day : Z) (l : list num) :
  Forall in01 l ->
  map dp_hour (getSelectedDayData month day (Some l)) = seq 0 24
  /\ Forall (fun p => in01 (dp_value p)) (getSelectedDayData month day (Some l))
  /\ map dp_hour (getSelectedDayData month day None) = seq 0 24
  /\ Forall (fun p => dp_value p = int 0) (getSelectedDayData month day None)
  /\ Forall (fun p => dp_value p = int 0) (getSelectedDayData month day (Some [])).
Proof.
  intros Hl.
  split; [apply getSelectedDayData_hours|].
  split; [apply getSelectedDayData_values; [apply in01_zero|exact Hl]|].
  split; [apply getSelectedDayData_hours|].
  split; apply List.Forall_map, List.Forall_forall; intros h _; reflexivity.
Qed.

Lemma day_profile_has_24_points_in_unit_interval_witness :
  Forall (fun p => in01 (dp_value p))
         (getSelectedDayData 6 15 (Some [Fin (1 # 2); int 0; int 1])).
Proof.
  assert (H : Forall in01 [Fin (1 # 2); int 0; int 1])
    by (repeat constructor; unfold in01, int, inject_Z; lra).
  destruct (day_profile_has_24_points_in_unit_interval 6 15 _ H)
    as (_ & H2 & _).
  exact H2.
Defined.

(** X8.  For a month from 1 to 12, a day from 1 to 31 and a series of
    8760 values, the values of the 24 points are the 24 values of the series
    that start at hour [24 * (days before the month + day - 1)]; this
    window lies within the year. *)
Theorem day_profile_window (month day : Z) (ts : list num) :
  (1 <= month <= 12)%Z -> (1 <= day <= 31)%Z ->
  length ts = hoursPerYear ->
  let start := (24 * (daysBefore month + day - 1))%Z in
  (0 <= start)%Z /\ (start + 24 <= 8760)%Z
  /\ map dp_value (getSelectedDayData month day (Some ts))
     = take 24 (drop (Z.to_nat start) ts).
Proof.
  intros Hm Hd Hlen start.
  destruct (daysBefore_bounds month Hm) as (n & _ & H0 & Hn & H365 & Hn28).
  assert (Hs : (0 <= start)%Z) by (unfold start; lia).
  assert (He : (start + 24 <= 8760)%Z) by (unfold start; lia).
  split; [exact Hs|]. split; [exact He|].
  unfold getSelectedDayData.
  destruct ts as [|x l] eqn:El; [discriminate Hlen|].
  rewrite <- El in *. clear El x l. cbv zeta.
  rewrite dayOfYear_calendar by lia. cbn [option_map].
  replace ((day + daysBefore month - 1) * 24)%Z with start
    by (unfold start; lia).
  unfold hoursPerYear in Hlen.
  apply list_eq. intros h. rewrite List.map_map, lookup_map.
  destruct (decide (h < 24)%nat) as [Hh|Hh].
  - rewrite lookup_seq_lt by exact Hh. cbn [option_map Nat.add].
    rewrite lookup_take_lt by exact Hh. rewrite lookup_drop.
    replace ((0 <=? start + Z.of_nat h)%Z
             && (start + Z.of_nat h <? Z.of_nat (length ts))%Z) with true
      by (symmetry; apply andb_true_intro; split;
          [apply Z.leb_le|apply Z.ltb_lt]; lia).
    cbn [dp_value].
    replace (Z.to_nat start + h)%nat with (Z.to_nat (start + Z.of_nat h)) by lia.
    destruct (ts !! Z.to_nat (start + Z.of_nat h)) as [v|] eqn:Ev; [reflexivity|].
    apply lookup_ge_None in Ev. lia.
  - rewrite lookup_seq_ge by lia. cbn [option_map].
    symmetry. apply lookup_ge_None. rewrite length_take. lia.
Qed.

Lemma day_profile_window_witness :
  map dp_value (getSelectedDayData 12 31 (Some (replicate hoursPerYear (int 1))))
  = take 24 (drop (Z.to_nat (24 * (daysBefore 12 + 31 - 1)))
                  (replicate hoursPerYear (int 1))).
Proof.
  assert (Hm : (1 <= 12 <= 12)%Z) by lia.
  assert (Hd : (1 <= 31 <= 31)%Z) by lia.
  destruct (day_profile_window 12 31 (replicate hoursPerYear (int 1)) Hm Hd
              (length_replicate _ _)) as (_ & _ & H).
  exact H.
Defined.

(** Picks the day [k - before] of [month], [before] being the number of
    days of the year before that month. *)
Ltac pick_date month before k :=
  let Hb := fresh "Hb" in
  assert (Hb : daysBefore month = before) by (vm_compute; reflexivity);
  exists month, (k - before)%Z; split;
  [eexists; split; [vm_compute; reflexivity|cbn [Z.of_nat Pos.of_succ_nat Pos.succ]; lia]
  |rewrite dayOfYear_calendar by lia; rewrite Hb; f_equal; lia].

(** X9.  The day of the year that [getSelectedDayData] computes numbers
    the dates of the calendar from 1 to 365: two different dates get
    different numbers, every date gets a number from 1 to 365, and every
    number from 1 to 365 is that of a date. *)
Theorem calendar_dates_tile_the_year :
  (forall month day month' day',
      validDate month day -> validDate month' day' ->
      dayOfYear month day = dayOfYear month' day' ->
      month = month' /\ day = day')
  /\ (forall month day,
         validDate month day ->
         exists k, dayOfYear month day = Some k /\ (1 <= k <= 365)%Z)
  /\ (forall k, (1 <= k <= 365)%Z ->
         exists month day, validDate month day /\ dayOfYear month day = Some k).
Proof.
  assert (Hv : forall month day,
             validDate month day ->
             (1 <= month <= 12)%Z
             /\ exists n, getDaysInMonth month = Some n
                          /\ (1 <= day <= Z.of_nat n)%Z).
  { intros month day (n & Hn & Hd). split; [|eauto].
    unfold getDaysInMonth in Hn.
    destruct (month - 1 <? 0)%Z eqn:E; [discriminate|].
    apply Z.ltb_ge in E. apply lookup_lt_Some in Hn. cbn in Hn. lia. }
  split; [|split].
  - intros m d m' d' H1 H2.
    apply Hv in H1. destruct H1 as (Hm & n & Hn & Hd).
    apply Hv in H2. destruct H2 as (Hm' & n' & Hn' & Hd').
    rewrite !dayOfYear_calendar by lia. intros Heq. injection Heq as Heq.
    destruct (daysBefore_bounds m Hm) as (n0 & Hn0 & Hb0 & Hb1 & _).
    destruct (daysBefore_bounds m' Hm') as (n0' & Hn0' & Hb0' & Hb1' & _).
    rewrite Hn in Hn0. injection Hn0 as <-.
    rewrite Hn' in Hn0'. injection Hn0' as <-.
    assert (Hmono : forall a b, (1 <= a)%Z -> (a < b <= 12)%Z ->
                                (daysBefore (a + 1) <= daysBefore b)%Z).
    { intros a b Ha Hab.
      assert (Ea : (a = 1 \/ a = 2 \/ a = 3 \/ a = 4 \/ a = 5 \/ a = 6
                    \/ a = 7 \/ a = 8 \/ a = 9 \/ a = 10 \/ a = 11)%Z) by lia.
      assert (Eb : (b = 2 \/ b = 3 \/ b = 4 \/ b = 5 \/ b = 6 \/ b = 7
                    \/ b = 8 \/ b = 9 \/ b = 10 \/ b = 11 \/ b = 12)%Z) by lia.
      repeat (destruct Ea as [->|Ea]); try subst a;
        repeat (destruct Eb as [->|Eb]); try subst b;
        try lia; vm_compute; discriminate. }
    destruct (Z.lt_trichotomy m m') as [Hlt|[Heqm|Hgt]].
    + pose proof (Hmono m m' ltac:(lia) ltac:(lia)). lia.
    + subst m'. split; [reflexivity|lia].
    + pose proof (Hmono m' m ltac:(lia) ltac:(lia)). lia.
  - intros m d H. apply Hv in H. destruct H as (Hm & n & Hn & Hd).
    rewrite dayOfYear_calendar by lia. eexists. split; [reflexivity|].
    destruct (daysBefore_bounds m Hm) as (n0 & Hn0 & Hb0 & Hb1 & Hb2 & _).
    rewrite Hn in Hn0. injection Hn0 as <-. lia.
  - intros k Hk.
    assert (Hcase :
      (k <= 31 \/ 31 < k <= 59 \/ 59 < k <= 90 \/ 90 < k <= 120
       \/ 120 < k <= 151 \/ 151 < k <= 181 \/ 181 < k <= 212
       \/ 212 < k <= 243 \/ 243 < k <= 273 \/ 273 < k <= 304
       \/ 304 < k <= 334 \/ 334 < k)%Z) by lia.
    destruct Hcase as [H|[H|[H|[H|[H|[H|[H|[H|[H|[H|[H|H]]]]]]]]]]];
      [pick_date 1%Z 0%Z k | pick_date 2%Z 31%Z k | pick_date 3%Z 59%Z k
      |pick_date 4%Z 90%Z k | pick_date 5%Z 120%Z k | pick_date 6%Z 151%Z k
      |pick_date 7%Z 181%Z k | pick_date 8%Z 212%Z k | pick_date 9%Z 243%Z k
      |pick_date 10%Z 273%Z k | pick_date 11%Z 304%Z k
      |pick_date 12%Z 334%Z k].
Qed.

Lemma calendar_dates_tile_the_year_witness :
  exists k, dayOfYear 2 28 = Some k /\ (1 <= k <= 365)%Z.
Proof.
  destruct calendar_dates_tile_the_year as (_ & H & _).
  apply H. exists 28%nat. split; [reflexivity|lia].
Defined.

(** X10.  A day past the end of its month is not rejected: for a month
    from January to November, day [n + j] of a month of [n] days shows the
    profile of day [j] of the next month. *)
Theorem day_past_end_of_month_shows_next_month
    (month j : Z) (n : nat) (ts : option (list num)) :
  (1 <= month <= 11)%Z ->
  getDaysInMonth month = Some n ->
  getSelectedDayData month (Z.of_nat n + j) ts
  = getSelectedDayData (month + 1) j ts.
Proof.
  intros Hm Hn.
  destruct (daysBefore_bounds month ltac:(lia)) as (n0 & Hn0 & _ & Hb & _).
  rewrite Hn in Hn0. injection Hn0 as <-.
  unfold getSelectedDayData.
  rewrite !dayOfYear_calendar by lia.
  replace (Z.of_nat n + j + daysBefore month)%Z
    with (j + daysBefore (month + 1))%Z by lia.
  reflexivity.
Qed.

Lemma day_past_end_of_month_shows_next_month_witness :
  getSelectedDayData 2 (Z.of_nat 28 + 3) (Some [int 1])
  = getSelectedDayData (2 + 1) 3 (Some [int 1]).
Proof.
  apply day_past_end_of_month_shows_next_month; [lia|reflexivity].
Defined.

(** ** Editing the inputs *)

Lemma canCalculate_falsy_source i :
  canCalculate i = false <->
  exists s, In s (powerSources i)
            /\ PowerSource.type s <> grid
            /\ PowerSource.timeSeriesData s = None
            /\ truthy_opt (PowerSource.lcoe s) = false.
Proof.
  unfold canCalculate. split.
  - intros H. induction (powerSources i) as [|s l IH]; [discriminate|].
    cbn [forallb] in H. apply andb_false_iff in H. destruct H as [H|H].
    + exists s. split; [now left|].
      apply orb_false_iff in H. destruct H as [H Hl].
      apply orb_false_iff in H. destruct H as [Hty Hts].
      split; [intros E; rewrite E in Hty; discriminate|].
      split; [|exact Hl].
      destruct (PowerSource.timeSeriesData s); [|reflexivity].
      rewrite bool_decide_eq_false in Hts. exfalso. apply Hts. eauto.
    + destruct (IH H) as (s' & Hin & Hs'). exists s'. split; [now right|exact Hs'].
  - intros (s & Hin & Hty & Hts & Hl).
    induction (powerSources i) as [|x l IH]; [contradiction|].
    cbn [forallb]. apply andb_false_iff. destruct Hin as [->|Hin].
    + left. rewrite Hts, Hl.
      destruct (PowerSource.type s); try contradiction; reflexivity.
    + right. now apply IH.
Qed.

(** X11.  When [canCalculate] allows the calculation, every source other
    than the grid has an LCOE (it is not [null]) in the inputs that
    [calculateLCOH] leaves behind. *)
Theorem canCalculate_gives_every_renewable_an_lcoe (i : inputs) :
  canCalculate i = true ->
  Forall (fun s => PowerSource.type s <> grid -> PowerSource.lcoe s <> None)
         (powerSources (fst (calculateLCOH i))).
Proof.
  intros H. unfold calculateLCOH. cbn [fst powerSources].
  apply List.Forall_map. apply List.Forall_forall. intros s Hs Hty.
  unfold canCalculate in H. rewrite List.forallb_forall in H.
  specialize (H s Hs).
  assert (Hty' : PowerSource.type s <> grid).
  { unfold updateSource in Hty. destruct (_ && _); exact Hty. }
  assert (Eg : sourceType_eqb (PowerSource.type s) grid = false)
    by (destruct (PowerSource.type s); try contradiction; reflexivity).
  rewrite Eg in H. cbn [orb] in H.
  unfold updateSource. rewrite Eg. cbn [negb andb].
  destruct (truthy_opt (PowerSource.lcoe s)) eqn:El; cbn [negb andb].
  - destruct (PowerSource.lcoe s); [discriminate|discriminate].
  - rewrite orb_false_r in H. rewrite H. discriminate.
Qed.

Lemma canCalculate_gives_every_renewable_an_lcoe_witness :
  Forall (fun s => PowerSource.type s <> grid -> PowerSource.lcoe s <> None)
         (powerSources
            (fst (calculateLCOH
                    (mkInputs [defaultGrid; profiledSolar]
                              defaultElectrolyzer defaultFinancial)))).
Proof.
  apply canCalculate_gives_every_renewable_an_lcoe. reflexivity.
Defined.

(** X12.  Adding or removing a source keeps the selected index within
    the list of the sources, if it was within it before: [addPowerSource]
    selects the source it has appended, and after [removePowerSource] the
    selected index is that of a source and at least one source is
    left. *)
Theorem selection_stays_in_range (st : appState) (type : sourceType)
    (index : nat) :
  (selectedPowerSource st < length (powerSources (app_inputs st)))%nat ->
  let added := addPowerSource type st in
  let removed := removePowerSource index st in
  (selectedPowerSource added < length (powerSources (app_inputs added)))%nat
  /\ powerSources (app_inputs added) !! selectedPowerSource added
     = Some (newSource type)
  /\ (selectedPowerSource removed
      < length (powerSources (app_inputs removed)))%nat
  /\ (1 <= length (powerSources (app_inputs removed)))%nat.
Proof.
  intros Hsel added removed. subst added removed.
  unfold addPowerSource, removePowerSource. cbv zeta.
  cbn [app_inputs selectedPowerSource withSources powerSources].
  split; [rewrite length_app; cbn; lia|].
  split.
  { rewrite lookup_app_r by lia. now rewrite Nat.sub_diag. }
  destruct (length (powerSources (app_inputs st)) <=? 1)%nat eqn:E.
  - split; lia.
  - apply Nat.leb_gt in E.
    cbn [app_inputs selectedPowerSource withSources powerSources].
    assert (Hdel : (length (powerSources (app_inputs st)) - 1
                    <= length (delete index (powerSources (app_inputs st))))%nat).
    { destruct (decide (index < length (powerSources (app_inputs st)))%nat).
      - rewrite length_delete; [lia|]. now apply lookup_lt_is_Some_2.
      - rewrite delete_take_drop, take_ge, drop_ge by lia.
        rewrite app_nil_r. lia. }
    destruct (_ <=? selectedPowerSource st)%nat eqn:E2; split; try lia.
    apply Nat.leb_gt in E2. lia.
Qed.

Lemma selection_stays_in_range_witness :
  (selectedPowerSource
     (removePowerSource 1 (mkApp (mkInputs [defaultGrid; defaultSolar]
                                    defaultElectrolyzer defaultFinancial) 1))
   < length (powerSources
               (app_inputs
                  (removePowerSource 1
                     (mkApp (mkInputs [defaultGrid; defaultSolar]
                               defaultElectrolyzer defaultFinancial) 1)))))%nat.
Proof.
  assert (H : (1 < 2)%nat) by lia.
  destruct (selection_stays_in_range
              (mkApp (mkInputs [defaultGrid; defaultSolar]
                        defaultElectrolyzer defaultFinancial) 1) grid 1 H)
    as (_ & _ & H3 & _).
  exact H3.
Defined.

(** X13.  Adding a source and removing it again gives back the inputs as
    they were; the selection does not return to where it was, but goes to
    the last of the sources. *)
Theorem add_then_remove_restores_sources (st : appState) (type : sourceType) :
  (1 <= length (powerSources (app_inputs st)))%nat ->
  let st' := removePowerSource (length (powerSources (app_inputs st)))
                               (addPowerSource type st) in
  app_inputs st' = app_inputs st
  /\ selectedPowerSource st' = (length (powerSources (app_inputs st)) - 1)%nat.
Proof.
  destruct st as [[l e f] sel].
  cbn [app_inputs powerSources]. intros Hn.
  unfold removePowerSource, addPowerSource. cbv zeta.
  cbn [app_inputs selectedPowerSource withSources powerSources electrolyzer
       financial].
  rewrite length_app. cbn [length].
  replace (length l + 1 <=? 1)%nat with false
    by (symmetry; apply Nat.leb_gt; lia).
  cbn [app_inputs selectedPowerSource withSources powerSources electrolyzer
       financial].
  split.
  - rewrite delete_middle, app_nil_r. reflexivity.
  - replace (length l + 1 - 1 <=? length l)%nat with true
      by (symmetry; apply Nat.leb_le; lia).
    lia.
Qed.

Lemma add_then_remove_restores_sources_witness :
  selectedPowerSource
    (removePowerSource 1
       (addPowerSource wind
          (mkApp (mkInputs [defaultGrid] defaultElectrolyzer defaultFinancial) 0)))
  = 0%nat.
Proof.
  assert (H : (1 <= 1)%nat) by lia.
  destruct (add_then_remove_restores_sources
              (mkApp (mkInputs [defaultGrid] defaultElectrolyzer defaultFinancial) 0)
              wind H) as [_ H2].
  exact H2.
Defined.

(** X14.  After [handleMapLocationChange] on a selected source that is
    not the grid, [canCalculate] is false until a profile is fetched again
    (the profile and the LCOE of that source are gone); the selection, the
    number of sources and the other sources are unchanged. *)
Theorem location_change_blocks_calculation (st st' : appState)
    (source : PowerSource.t) :
  powerSources (app_inputs st) !! selectedPowerSource st = Some source ->
  PowerSource.type source <> grid ->
  handleMapLocationChange st = Some st' ->
  canCalculate (app_inputs st') = false
  /\ selectedPowerSource st' = selectedPowerSource st
  /\ length (powerSources (app_inputs st'))
     = length (powerSources (app_inputs st))
  /\ (forall j, j <> selectedPowerSource st ->
        powerSources (app_inputs st') !! j = powerSources (app_inputs st) !! j).
Proof.
  intros Hs Hty H. unfold handleMapLocationChange in H. rewrite Hs in H.
  injection H as <-.
  cbn [app_inputs selectedPowerSource withSources powerSources].
  split; [|split; [reflexivity|split]].
  - apply canCalculate_falsy_source. exists (dropProfile source).
    cbn [powerSources]. split.
    + apply list_elem_of_In. apply list_elem_of_lookup.
      exists (selectedPowerSource st). apply list_lookup_insert_eq.
      now apply lookup_lt_Some in Hs.
    + repeat split. exact Hty.
  - apply length_insert.
  - intros j Hj. now apply list_lookup_insert_ne.
Qed.

Lemma location_change_blocks_calculation_witness :
  exists st',
    handleMapLocationChange
      (mkApp (mkInputs [defaultGrid; profiledSolar]
                defaultElectrolyzer defaultFinancial) 1) = Some st'
    /\ canCalculate (app_inputs st') = false.
Proof.
  eexists. split; [reflexivity|].
  eapply (location_change_blocks_calculation
            (mkApp (mkInputs [defaultGrid; profiledSolar]
                      defaultElectrolyzer defaultFinancial) 1) _ profiledSolar).
  - reflexivity.
  - discriminate.
  - reflexivity.
Defined.

(** ** The cached LCOE under edits *)

Lemma refreshSource_fresh fin source : lcoeFresh fin (refreshSource fin source).
Proof.
  unfold refreshSource, lcoeFresh.
  destruct (sourceType_eqb (PowerSource.type source) grid) eqn:Eg; cbn [negb andb].
  - intros Hty. destruct (PowerSource.type source); try discriminate.
    contradiction.
  - destruct (bool_decide (is_Some (PowerSource.timeSeriesData source))) eqn:Et.
    + intros _ _. reflexivity.
    + intros _ Hts. apply bool_decide_eq_false in Et. contradiction.
Qed.

Lemma editSource_fresh fin source f :
  tracked (SourceChange 0 f) = true ->
  lcoeFresh fin source -> lcoeFresh fin (editSource fin source f).
Proof.
  intros Ht Hf. destruct f as [ty|v|v|v|v|v|]; try discriminate Ht.
  - (* type *)
    unfold editSource, lcoeFresh. cbv zeta.
    destruct ty; cbn; intros _ [x Hx]; discriminate.
  - (* capex *)
    unfold editSource. cbv zeta. cbn [writeField PowerSource.type].
    destruct (sourceType_eqb (PowerSource.type source) grid) eqn:Eg; cbn [negb].
    + intros Hty. cbn in Hty.
      destruct (PowerSource.type source); try discriminate. contradiction.
    + cbn [PowerSource.timeSeriesData].
      destruct (bool_decide (is_Some (PowerSource.timeSeriesData source))) eqn:Et.
      * intros _ _. reflexivity.
      * intros _ Hts. apply bool_decide_eq_false in Et. contradiction.
  - (* opex *)
    unfold editSource. cbv zeta. cbn [writeField PowerSource.type].
    destruct (sourceType_eqb (PowerSource.type source) grid) eqn:Eg; cbn [negb].
    + intros Hty. cbn in Hty.
      destruct (PowerSource.type source); try discriminate. contradiction.
    + cbn [PowerSource.timeSeriesData].
      destruct (bool_decide (is_Some (PowerSource.timeSeriesData source))) eqn:Et.
      * intros _ _. reflexivity.
      * intros _ Hts. apply bool_decide_eq_false in Et. contradiction.
  - (* electricityPrice *)
    unfold editSource. cbv zeta. cbn [writeField].
    destruct (sourceType_eqb (PowerSource.type source) grid) eqn:Eg;
      [|exact Hf].
    intros Hty. cbn in Hty.
    destruct (PowerSource.type source); try discriminate. contradiction.
  - (* year *) exact Hf.
Qed.

(** X15.  [handleInputChange] keeps the cached LCOE up to date: if, before
    the change, the LCOE of every renewable source with a profile is the
    one [calculateLCOE] returns for its parameters, then so it is after any
    change other than a new capacity, an LCOE written directly or a new
    default capacity factor; and the number of sources is
    unchanged. *)
Theorem tracked_changes_keep_lcoe_fresh (c : change) (i i' : inputs) :
  tracked c = true ->
  Forall (lcoeFresh (financial i)) (powerSources i) ->
  handleInputChange c i = Some i' ->
  Forall (lcoeFresh (financial i')) (powerSources i')
  /\ length (powerSources i') = length (powerSources i).
Proof.
  intros Ht Hf H. destruct c as [index f|f v|v|v|v|]; cbn in H.
  - destruct (powerSources i !! index) as [s|] eqn:Es; [|discriminate].
    injection H as <-. cbn [withSources powerSources financial].
    split; [|apply length_insert].
    apply Forall_insert; [exact Hf|].
    apply editSource_fresh.
    + destruct f; try discriminate Ht; reflexivity.
    + eapply Forall_lookup_1; eauto.
  - injection H as <-. cbn [powerSources financial]. auto.
  - injection H as <-. cbn [powerSources financial].
    split; [|apply length_map].
    apply List.Forall_map, List.Forall_forall. intros s _.
    apply refreshSource_fresh.
  - injection H as <-. cbn [powerSources financial].
    split; [|apply length_map].
    apply List.Forall_map, List.Forall_forall. intros s _.
    apply refreshSource_fresh.
  - discriminate Ht.
  - injection H as <-. auto.
Qed.

(** A change of [capex] on a solar plant with a profile, whose cached
    LCOE is up to date, next to the grid. *)
Lemma tracked_changes_keep_lcoe_fresh_witness :
  exists i',
    handleInputChange (SourceChange 1 (F_capex (int 900)))
      (mkInputs [defaultGrid; refreshSource defaultFinancial profiledSolar]
                defaultElectrolyzer defaultFinancial)
    = Some i'
    /\ Forall (lcoeFresh (financial i')) (powerSources i').
Proof.
  eexists. split; [reflexivity|].
  eapply (tracked_changes_keep_lcoe_fresh (SourceChange 1 (F_capex (int 900)))
            (mkInputs [defaultGrid; refreshSource defaultFinancial profiledSolar]
                      defaultElectrolyzer defaultFinancial)).
  - reflexivity.
  - constructor; [intros H; contradiction|].
    constructor; [apply refreshSource_fresh|constructor].
  - reflexivity.
Defined.

(** ** The records of the year and the totals *)

Section YearRecords.
Variables (elz : Electrolyzer.t) (fin : Financial.t).
Variable sorted : list PowerSource.t.

Lemma foldl_dispatchHour_totals n :
  let st := foldl (dispatchHour elz fin sorted)
                  (mkYearAcc [] (int 0) (int 0) []) (seq 0 n) in
  map hour (hourlyDispatch st) = seq 0 n
  /\ totalEnergyUsed st = sumNums (map energyUsed (hourlyDispatch st))
  /\ totalCurtailedEnergy st
     = sumNums (map curtailedEnergy (hourlyDispatch st)).
Proof.
  induction n as [|n (IH1 & IH2 & IH3)]; cbv zeta.
  - repeat split.
  - rewrite seq_S, foldl_app. cbn [foldl Nat.add].
    set (st := foldl (dispatchHour elz fin sorted)
                     (mkYearAcc [] (int 0) (int 0) []) (seq 0 n)) in *.
    cbv zeta in IH1, IH2, IH3.
    unfold dispatchHour.
    cbn [hourlyDispatch totalEnergyUsed totalCurtailedEnergy].
    rewrite !List.map_app, IH1, IH2, IH3. unfold sumNums.
    rewrite !foldl_app. cbn [map foldl hourRecord hour energyUsed curtailedEnergy].
    repeat split.
Qed.
End YearRecords.

Lemma simulateDispatch_totals elz fin sorted :
  map hour (hourlyDispatch (simulateDispatch elz fin sorted))
  = seq 0 hoursPerYear
  /\ totalEnergyUsed (simulateDispatch elz fin sorted)
     = sumNums (map energyUsed (hourlyDispatch (simulateDispatch elz fin sorted)))
  /\ totalCurtailedEnergy (simulateDispatch elz fin sorted)
     = sumNums (map curtailedEnergy
                  (hourlyDispatch (simulateDispatch elz fin sorted))).
Proof.
  apply foldl_dispatchHour_totals.
Qed.

Lemma simulateDispatch_length elz fin sorted :
  length (hourlyDispatch (simulateDispatch elz fin sorted)) = hoursPerYear.
Proof.
  destruct (simulateDispatch_totals elz fin sorted) as [H _].
  rewrite <- (length_map hour), H. apply length_seq.
Qed.

(** X17.  The simulation produces one record for each of the hours 0 to
    8759, in this order, and the two totals of the year are the sums of
    [energyUsed] and of [curtailedEnergy] over these records. *)
Theorem year_has_8760_records_and_totals_are_their_sums
    (elz : Electrolyzer.t) (fin : Financial.t) (sorted : list PowerSource.t) :
  let sim := simulateDispatch elz fin sorted in
  map hour (hourlyDispatch sim) = seq 0 hoursPerYear
  /\ totalEnergyUsed sim = sumNums (map energyUsed (hourlyDispatch sim))
  /\ totalCurtailedEnergy sim
     = sumNums (map curtailedEnergy (hourlyDispatch sim)).
Proof.
  apply foldl_dispatchHour_totals.
Qed.

(** ** The table of the energy of each type *)

Lemma setEnergy_keys e ty v :
  map fst (setEnergy e ty v)
  = if decide (ty ∈ map fst e) then map fst e else map fst e ++ [ty].
Proof.
  induction e as [|[k w] e IH]; cbn [setEnergy map fst].
  - case_decide as H; [|reflexivity]. now apply elem_of_nil in H.
  - destruct (sourceType_eqb k ty) eqn:E.
    + assert (k = ty) by (destruct k, ty; cbn in E; congruence). subst k.
      cbn [map fst]. rewrite decide_True; [reflexivity|]. apply elem_of_cons. now left.
    + assert (k <> ty) by (intros ->; destruct ty; cbn in E; discriminate).
      cbn [map fst]. rewrite IH.
      destruct (decide (ty ∈ map fst e)) as [Hin|Hin].
      * rewrite decide_True; [reflexivity|]. apply elem_of_cons. now right.
      * rewrite decide_False; [reflexivity|].
        intros Hc. apply elem_of_cons in Hc. destruct Hc; congruence.
Qed.

Lemma addEnergy_keys e ty x :
  map fst (addEnergy e ty x)
  = if decide (ty ∈ map fst e) then map fst e else map fst e ++ [ty].
Proof.
  unfold addEnergy. cbv zeta.
  destruct (truthy_opt (getEnergy e ty)).
  - apply setEnergy_keys.
  - rewrite !setEnergy_keys.
    destruct (decide (ty ∈ map fst e)) as [Hin|Hin].
    + now rewrite decide_True.
    + rewrite decide_True; [reflexivity|].
      apply elem_of_app. right. apply elem_of_cons. now left.
Qed.

(** ** What the loop over the sources keeps, rounding or not *)

Section FiniteHour.
Variable fin : Financial.t.

Lemma dispatchSource_finite hour s r u w sd e a :
  availablePower fin s hour = Fin a -> 0 <= a -> 0 < r ->
  exists used curt,
    dispatchSource fin hour s (mkHourAcc (Fin r) (Fin u) (Fin w) sd e)
    = mkHourAcc (Fin (r + - used)) (Fin (u + used)) (Fin (w + curt))
        (sd ++ [mkEntry (PowerSource.type s) (Fin used) (Fin curt)])
        (addEnergy e (PowerSource.type s) (Fin used))
    /\ 0 <= used /\ used <= r /\ 0 <= curt
    /\ (a <= r -> used == a) /\ (r < a -> used == r) /\ curt == a - used.
Proof.
  intros Ha Ha0 Hr0. unfold dispatchSource. cbv zeta.
  cbn [remainingDemand hourlyEnergyUsed hourlyCurtailed sourceDispatch
       energyBySource].
  rewrite Ha. unfold Math_min. cbn [leb].
  qle_cases a r.
  - unfold sub, neg, add, Math_max, int. cbn [leb].
    qle_cases (inject_Z 0) (a + - a); unfold inject_Z in *.
    + exists a, (a + - a). repeat split; try reflexivity; lra.
    + lra.
  - unfold sub, neg, add, Math_max, int. cbn [leb].
    qle_cases (inject_Z 0) (a + - r); unfold inject_Z in *.
    + exists r, (a + - r). repeat split; try reflexivity; lra.
    + lra.
Qed.

Lemma dispatchSources_bounds hour ds :
  Forall (fun s => dispatchable s = true) ds ->
  Forall (suppliesFinitePower fin) ds ->
  forall r u w sd e,
    0 <= r ->
    exists r' u' w' entries e',
      dispatchSources fin hour ds (mkHourAcc (Fin r) (Fin u) (Fin w) sd e)
      = mkHourAcc (Fin r') (Fin u') (Fin w') (sd ++ entries) e'
      /\ 0 <= r' <= r /\ u <= u' /\ w <= w'
      /\ Forall2 (entryOf fin hour) (take (length entries) ds) entries
      /\ Forall (fun en => exists p, powerUsed en = Fin p /\ 0 <= p <= r)
                entries.
Proof.
  intros Hd Hf. induction ds as [|s rest IH]; intros r u w sd e Hr.
  - exists r, u, w, [], e. cbn [dispatchSources]. rewrite app_nil_r.
    split; [reflexivity|]. split; [lra|]. split; [lra|]. split; [lra|].
    split; constructor.
  - apply Forall_cons in Hd. destruct Hd as [Hs Hd].
    apply Forall_cons in Hf. destruct Hf as [Ha Hf].
    specialize (IH Hd Hf).
    cbn [dispatchSources remainingDemand leb]. unfold int.
    qle_cases r (inject_Z 0); unfold inject_Z in *.
    + exists r, u, w, [], e. rewrite app_nil_r.
      split; [reflexivity|]. split; [lra|]. split; [lra|]. split; [lra|].
      split; constructor.
    + unfold dispatchable in Hs. rewrite Hs. cbn [negb].
      destruct (Ha hour) as (a & Ea & Ha0).
      destruct (dispatchSource_finite hour s r u w sd e a Ea Ha0)
        as (used & curt & Hacc & Hu0 & Hur & Hc0 & _ & _ & Hcurt); [lra|].
      rewrite Hacc.
      destruct (IH (r + - used) (u + used) (w + curt)
                   (sd ++ [mkEntry (PowerSource.type s) (Fin used) (Fin curt)])
                   (addEnergy e (PowerSource.type s) (Fin used)))
        as (r' & u' & w' & entries & e' & Hacc' & Hr' & Hu' & Hw' & Hall & Hp);
        [lra|].
      exists r', u', w',
             (mkEntry (PowerSource.type s) (Fin used) (Fin curt) :: entries), e'.
      split; [rewrite Hacc', <- app_assoc; reflexivity|].
      split; [lra|]. split; [lra|]. split; [lra|]. split.
      * cbn [length take]. constructor; [|exact Hall].
        split; [reflexivity|]. exists a, used, curt. auto.
      * constructor.
        -- exists used. cbn [powerUsed]. split; [reflexivity|lra].
        -- eapply Forall_impl; [exact Hp|].
           intros en (p & Hen & Hp0). exists p. split; [exact Hen|lra].
Qed.
End FiniteHour.

Lemma wellFormed_suppliesFinitePower fin s :
  wellFormedSource s ->
  in01 (Financial.capacityFactor fin / int 100) ->
  suppliesFinitePower fin s.
Proof.
  intros Hs Hcf hour.
  pose proof (capacityFactorAt_in01 fin s hour Hs Hcf) as H.
  destruct Hs as [Hc _]. unfold availablePower.
  destruct (PowerSource.capacity s) as [q| | |]; try contradiction.
  destruct (capacityFactorAt fin s hour) as [f| | |]; try contradiction.
  cbn in Hc, H. exists (q * f). split; [reflexivity|]. nra.
Qed.




(** ** A year of finite figures *)

Section FiniteYear.
Variables (elz : Electrolyzer.t) (fin : Financial.t).
Variables (ds : list PowerSource.t) (c : Q).
Hypothesis capacity_fin : Electrolyzer.capacity elz = Fin c.
Hypothesis capacity_pos : 0 < c.
Hypothesis ds_dispatchable : Forall (fun s => dispatchable s = true) ds.
Hypothesis ds_finite : Forall (suppliesFinitePower fin) ds.

Lemma dispatchHour_bounds st hour T W :
  totalEnergyUsed st = Fin T -> totalCurtailedEnergy st = Fin W ->
  0 <= T -> 0 <= W ->
  exists T' W' r,
    totalEnergyUsed (dispatchHour elz fin ds st hour) = Fin T'
    /\ totalCurtailedEnergy (dispatchHour elz fin ds st hour) = Fin W'
    /\ 0 <= T' /\ 0 <= W'
    /\ hourlyDispatch (dispatchHour elz fin ds st hour)
       = hourlyDispatch st ++ [r]
    /\ figuresNotNegative r.
Proof.
  intros HT HW HT0 HW0. unfold dispatchHour. cbv zeta.
  cbn [totalEnergyUsed totalCurtailedEnergy hourlyDispatch].
  unfold hourStart. rewrite capacity_fin. unfold int.
  destruct (dispatchSources_bounds fin hour ds ds_dispatchable ds_finite
              c (inject_Z 0) (inject_Z 0) [] (yearEnergyBySource st))
    as (r' & u' & w' & entries & e' & Hacc & Hr' & Hu & Hw & _ & _); [lra|].
  rewrite Hacc. unfold hourRecord.
  cbn [hourlyEnergyUsed hourlyCurtailed sourceDispatch].
  rewrite HT, HW, capacity_fin. cbn [add]. unfold inject_Z in *.
  eexists _, _, _.
  split; [reflexivity|]. split; [reflexivity|].
  split; [lra|]. split; [lra|]. split; [reflexivity|].
  unfold figuresNotNegative. cbn [energyUsed curtailedEnergy dispatchPercentage].
  cbn [div]. sgn_cases c; try lra. cbn [nonneg_fin].
  split; [lra|]. split; [lra|]. apply Qle_shift_div_l; lra.
Qed.

Lemma foldl_dispatchHour_bounds hours :
  forall st T W,
    totalEnergyUsed st = Fin T -> totalCurtailedEnergy st = Fin W ->
    0 <= T -> 0 <= W ->
    exists T' W' rs,
      let st' := foldl (dispatchHour elz fin ds) st hours in
      totalEnergyUsed st' = Fin T' /\ totalCurtailedEnergy st' = Fin W'
      /\ 0 <= T' /\ 0 <= W'
      /\ hourlyDispatch st' = hourlyDispatch st ++ rs
      /\ Forall figuresNotNegative rs.
Proof.
  induction hours as [|h hours IH]; intros st T W HT HW HT0 HW0.
  - exists T, W, []. cbn [foldl]. rewrite app_nil_r. cbv zeta.
    split; [exact HT|]. split; [exact HW|]. split; [exact HT0|].
    split; [exact HW0|]. split; [reflexivity|constructor].
  - cbn [foldl].
    destruct (dispatchHour_bounds st h T W HT HW HT0 HW0)
      as (T1 & W1 & r & HT1 & HW1 & HT10 & HW10 & Hh1 & Hr).
    destruct (IH _ T1 W1 HT1 HW1 HT10 HW10)
      as (T' & W' & rs & HT' & HW' & HT'0 & HW'0 & Hh' & Hrs).
    exists T', W', (r :: rs). cbv zeta.
    split; [exact HT'|]. split; [exact HW'|]. split; [exact HT'0|].
    split; [exact HW'0|].
    split; [rewrite Hh', Hh1, <- app_assoc; reflexivity|].
    constructor; [exact Hr|exact Hrs].
Qed.
End FiniteYear.

(** The year simulated with well-formed sources. *)
Lemma simulateDispatch_bounds elz fin l c :
  Electrolyzer.capacity elz = Fin c -> 0 < c ->
  Forall wellFormedSource l ->
  in01 (Financial.capacityFactor fin / int 100) ->
  exists T W,
    totalEnergyUsed (simulateDispatch elz fin (sortedSources l)) = Fin T
    /\ totalCurtailedEnergy (simulateDispatch elz fin (sortedSources l)) = Fin W
    /\ 0 <= T /\ 0 <= W
    /\ Forall figuresNotNegative
              (hourlyDispatch (simulateDispatch elz fin (sortedSources l))).
Proof.
  intros Hc Hpos Hwf Hcf.
  set (ds := List.filter dispatchable (sortedSources l)).
  assert (Hd : Forall (fun s => dispatchable s = true) ds)
    by apply filter_dispatchable_Forall.
  assert (Hf : Forall (suppliesFinitePower fin) ds).
  { apply List.Forall_forall. intros s Hs.
    apply dispatchable_sorted_In in Hs. destruct Hs as [Hs _].
    apply wellFormed_suppliesFinitePower; [|exact Hcf].
    revert s Hs. apply List.Forall_forall. exact Hwf. }
  assert (H0 : 0 <= inject_Z 0) by (unfold inject_Z; lra).
  destruct (foldl_dispatchHour_bounds elz fin ds c Hc Hpos Hd Hf
              (seq 0 hoursPerYear) (mkYearAcc [] (int 0) (int 0) [])
              (inject_Z 0) (inject_Z 0) eq_refl eq_refl H0 H0)
    as (T & W & rs & HT & HW & HT0 & HW0 & Hh & Hrs).
  cbv zeta in HT, HW, Hh.
  exists T, W.
  rewrite simulateDispatch_filter. fold ds. unfold simulateDispatch.
  split; [exact HT|]. split; [exact HW|]. split; [exact HT0|].
  split; [exact HW0|]. rewrite Hh. exact Hrs.
Qed.



(** ** The energy mix *)

Lemma energyMix_types elz fin l :
  map mix_type (energyMix (computeResults elz fin l))
  = map fst (yearEnergyBySource (simulateDispatch elz fin (sortedSources l))).
Proof.
  unfold computeResults. cbv zeta. cbn [energyMix].
  rewrite List.map_map. apply List.map_ext. now intros [ty e].
Qed.

Section TableKeys.
Variables (elz : Electrolyzer.t) (fin : Financial.t).
Variable sorted : list PowerSource.t.

(** The keys are distinct and are types of dispatchable sources. *)
Let keysOk (e : energyTable) : Prop :=
  NoDup (map fst e)
  /\ forall ty, ty ∈ map fst e ->
       exists s, s ∈ sorted /\ dispatchable s = true /\ PowerSource.type s = ty.

Lemma addEnergy_keysOk e s x :
  s ∈ sorted -> dispatchable s = true ->
  keysOk e -> keysOk (addEnergy e (PowerSource.type s) x).
Proof.
  intros Hs Hd [Hnd Hty]. unfold keysOk. rewrite addEnergy_keys.
  case_decide as Hin; [split; assumption|]. split.
  - apply NoDup_app. split; [exact Hnd|]. split.
    + intros ty H1 H2. apply elem_of_cons in H2.
      destruct H2 as [->|H2]; [contradiction|]. now apply elem_of_nil in H2.
    + apply NoDup_singleton.
  - intros ty H. apply elem_of_app in H. destruct H as [H|H]; [now apply Hty|].
    apply elem_of_cons in H. destruct H as [->|H]; [|now apply elem_of_nil in H].
    exists s. auto.
Qed.

Lemma dispatchSources_keysOk hour l :
  (forall s, s ∈ l -> s ∈ sorted) ->
  forall acc, keysOk (energyBySource acc) ->
              keysOk (energyBySource (dispatchSources fin hour l acc)).
Proof.
  induction l as [|s l IH]; intros Hl acc Hacc; [exact Hacc|].
  cbn [dispatchSources].
  assert (Hl' : forall s', s' ∈ l -> s' ∈ sorted).
  { intros s' Hs'. apply Hl. apply elem_of_cons. now right. }
  destruct (leb (remainingDemand acc) (int 0)); [exact Hacc|].
  destruct (truthy_opt (PowerSource.lcoe s)) eqn:Hd; cbn [negb].
  - apply IH; [exact Hl'|].
    unfold dispatchSource. cbv zeta. cbn [energyBySource].
    apply addEnergy_keysOk; auto. apply Hl. apply elem_of_cons. now left.
  - apply IH; auto.
Qed.

Lemma foldl_dispatchHour_keysOk hours :
  forall st, keysOk (yearEnergyBySource st) ->
             keysOk (yearEnergyBySource (foldl (dispatchHour elz fin sorted) st hours)).
Proof.
  induction hours as [|h hours IH]; intros st Hst; [exact Hst|].
  cbn [foldl]. apply IH. unfold dispatchHour. cbv zeta.
  cbn [yearEnergyBySource]. apply dispatchSources_keysOk; auto.
Qed.

Lemma simulateDispatch_keys :
  NoDup (map fst (yearEnergyBySource (simulateDispatch elz fin sorted)))
  /\ forall ty,
       ty ∈ map fst (yearEnergyBySource (simulateDispatch elz fin sorted)) ->
       exists s, s ∈ sorted /\ dispatchable s = true /\ PowerSource.type s = ty.
Proof.
  apply (foldl_dispatchHour_keysOk (seq 0 hoursPerYear)
           (mkYearAcc [] (int 0) (int 0) [])).
  split; [constructor|]. intros ty H. now apply elem_of_nil in H.
Qed.
End TableKeys.

(** X19.  The energy mix has one entry for each type of source that was
    dispatched: no two entries have the same type, there are at most three
    of them, and the type of each is that of a dispatchable source of the
    inputs. *)
Theorem energy_mix_has_one_entry_per_dispatched_type
    (elz : Electrolyzer.t) (fin : Financial.t)
    (updatedSources : list PowerSource.t) :
  NoDup (map mix_type (energyMix (computeResults elz fin updatedSources)))
  /\ (length (energyMix (computeResults elz fin updatedSources)) <= 3)%nat
  /\ forall e, In e (energyMix (computeResults elz fin updatedSources)) ->
       exists s, In s updatedSources /\ dispatchable s = true
                 /\ PowerSource.type s = mix_type e.
Proof.
  destruct (simulateDispatch_keys elz fin (sortedSources updatedSources))
    as [Hnd Hty].
  rewrite <- energyMix_types in Hnd, Hty.
  split; [exact Hnd|]. split.
  - rewrite <- (length_map mix_type).
    apply (NoDup_incl_length (l' := [grid; solar; wind]));
      [now apply NoDup_ListNoDup|].
    intros ty _. destruct ty; cbn; auto.
  - intros e He.
    destruct (Hty (mix_type e)) as (s & Hs & Hd & Ht).
    { apply list_elem_of_In. exact (List.in_map mix_type _ e He). }
    exists s. split; [|split; [exact Hd|exact Ht]].
    apply list_elem_of_In in Hs. unfold sortedSources in Hs.
    eapply Permutation_in; [apply sortBy_Permutation|exact Hs].
Qed.

(** ** The monthly totals *)

Lemma monthTotals_sums hourly hourIndex hoursInMonth :
  monthTotals hourly hourIndex hoursInMonth
  = (sumNums (map energyUsed (take hoursInMonth (drop hourIndex hourly))),
     sumNums (map curtailedEnergy (take hoursInMonth (drop hourIndex hourly)))).
Proof.
  unfold monthTotals, sumNums.
  generalize (take hoursInMonth (drop hourIndex hourly)).
  generalize (int 0) at 1 3. generalize (int 0).
  intros b a l. revert a b. induction l as [|r l IH]; intros a b.
  - reflexivity.
  - cbn [foldl map]. apply IH.
Qed.

Lemma monthStart_S m :
  monthStart (S m) = (monthStart m + default 0 (daysInMonth !! m) * 24)%nat.
Proof.
  unfold monthStart.
  destruct (daysInMonth !! m) as [d|] eqn:E.
  - rewrite (take_S_r _ _ _ E), sum_list_with_app. cbn. lia.
  - rewrite !take_ge; [cbn; lia| |];
      apply lookup_ge_None in E; lia.
Qed.

Lemma monthStart_le a b : (a <= b)%nat -> (monthStart a <= monthStart b)%nat.
Proof.
  induction 1 as [|b _ IH]; [lia|]. rewrite monthStart_S. lia.
Qed.

Lemma monthStart_year : monthStart 12 = hoursPerYear.
Proof. vm_compute. reflexivity. Qed.

Lemma monthly_fold (hourly : list hourlyRecord) (n : nat) :
  forall k monthlyData,
    (monthStart (k + n) <= length hourly)%nat ->
    foldl (fun '(hourIndex, monthlyData) month =>
             let hoursInMonth := (default 0 (daysInMonth !! month) * 24)%nat in
             let '(totalEnergy, totalCurtailed) :=
               monthTotals hourly hourIndex hoursInMonth in
             (Nat.min (hourIndex + hoursInMonth)
                      (Nat.max hourIndex (length hourly)),
              monthlyData ++ [mkMonthly month totalEnergy totalCurtailed]))
          (monthStart k, monthlyData) (seq k n)
    = (monthStart (k + n), monthlyData ++ map (monthEntry hourly) (seq k n)).
Proof.
  induction n as [|n IH]; intros k monthlyData Hlen.
  - cbn [seq foldl map]. rewrite app_nil_r, Nat.add_0_r. reflexivity.
  - cbn [seq foldl map]. cbv zeta. rewrite monthTotals_sums.
    pose proof (monthStart_le (S k) (k + S n) ltac:(lia)) as Hle.
    rewrite monthStart_S in Hle.
    replace (Nat.min (monthStart k + default 0%nat (daysInMonth !! k) * 24)
                     (Nat.max (monthStart k) (length hourly)))%nat
      with (monthStart (S k)) by (rewrite monthStart_S; lia).
    rewrite IH by (replace (S k + n)%nat with (k + S n)%nat by lia; exact Hlen).
    rewrite <- app_assoc. cbn [app].
    replace (S k + n)%nat with (k + S n)%nat by lia. reflexivity.
Qed.

Lemma monthWindows_concat (hourly : list hourlyRecord) (n : nat) :
  concat (map (monthWindow hourly) (seq 0 n)) = take (monthStart n) hourly.
Proof.
  induction n as [|n IH].
  - reflexivity.
  - rewrite seq_S, List.map_app, concat_app, IH. cbn [map concat Nat.add].
    rewrite app_nil_r, monthStart_S. unfold monthWindow.
    apply take_take_drop.
Qed.

(** X21.  Every hour of the year is counted in one month, and in one
    only: [monthlyData] has one entry for each of the months 0 to 11, in
    this order, whose totals are the sums, from the left, of [energyUsed]
    and of [curtailedEnergy] over the records of the hours of that month;
    the twelve runs of records, put end to end, are the 8760 records of
    the year; and each run has 24 records for every day of its month. *)
Theorem every_hour_is_counted_in_its_month
    (elz : Electrolyzer.t) (fin : Financial.t)
    (updatedSources : list PowerSource.t) :
  monthlyData (computeResults elz fin updatedSources)
  = map (monthEntry (r_hourlyDispatch (computeResults elz fin updatedSources)))
        (seq 0 12)
  /\ concat (map (monthWindow
                   (r_hourlyDispatch (computeResults elz fin updatedSources)))
                (seq 0 12))
     = r_hourlyDispatch (computeResults elz fin updatedSources)
  /\ forall m days,
       daysInMonth !! m = Some days ->
       length (monthWindow
                 (r_hourlyDispatch (computeResults elz fin updatedSources)) m)
       = (days * 24)%nat.
Proof.
  unfold computeResults. cbv zeta. cbn [monthlyData r_hourlyDispatch].
  pose proof (simulateDispatch_length elz fin (sortedSources updatedSources))
    as Hlen.
  revert Hlen.
  generalize (hourlyDispatch
                (simulateDispatch elz fin (sortedSources updatedSources))).
  intros hourly Hlen.
  split; [|split].
  - assert (Hle : (monthStart (0 + 12) <= length hourly)%nat)
      by (cbn [Nat.add]; rewrite monthStart_year, Hlen; apply Nat.le_refl).
    exact (f_equal snd (monthly_fold hourly 12 0 [] Hle)).
  - rewrite monthWindows_concat, monthStart_year. apply take_ge. lia.
  - intros m days E. unfold monthWindow. rewrite E. cbn [default from_option id].
    rewrite length_take, length_drop.
    assert (Hm : (S m <= 12)%nat) by (apply lookup_lt_Some in E; exact E).
    pose proof (monthStart_le _ _ Hm) as Hle.
    rewrite monthStart_S, E, monthStart_year in Hle. cbn [default from_option id] in Hle.
    lia.
Qed.

(** ** An hour served by the cheapest source alone *)

(** X23.  In an hour in which the cheapest dispatchable source has at
    least the power that the electrolyzer, of positive capacity, can take,
    the record has the entry of that source only: it supplies the capacity
    of the electrolyzer, the rest of its power is curtailed, and the
    [dispatchPercentage] is 1. *)
Theorem cheapest_source_covering_the_demand_serves_alone
    (elz : Electrolyzer.t) (fin : Financial.t)
    (updatedSources rest : list PowerSource.t) (s : PowerSource.t)
    (c a : Q) (h : nat) :
  Electrolyzer.capacity elz = Fin c -> 0 < c ->
  (h < hoursPerYear)%nat ->
  List.filter dispatchable (sortedSources updatedSources) = s :: rest ->
  availablePower fin s h = Fin a -> c <= a ->
  exists r e,
    hourlyDispatch (simulateDispatch elz fin (sortedSources updatedSources)) !! h
      = Some r
    /\ sources r = [e]
    /\ sd_type e = PowerSource.type s
    /\ powerUsed e =n= Fin c
    /\ powerCurtailed e =n= Fin (a - c)
    /\ energyUsed r =n= Fin c
    /\ curtailedEnergy r =n= Fin (a - c)
    /\ dispatchPercentage r =n= int 1.
Proof.
  intros Hc Hpos Hh Hds Ha Hca.
  assert (Hs : dispatchable s = true).
  { pose proof (filter_dispatchable_Forall (sortedSources updatedSources)) as H.
    rewrite Hds in H. apply Forall_cons in H. destruct H as [H _]. exact H. }
  assert (Hused : forall used, (a <= c -> used == a) -> (c < a -> used == c) ->
                               used == c).
  { intros used Hfull Hpart.
    destruct (Qlt_le_dec c a) as [Hlt|Hle]; [exact (Hpart Hlt)|].
    rewrite (Hfull Hle). lra. }
  destruct (simulateDispatch_hour elz fin (sortedSources updatedSources) h Hh)
    as [st' Hst'].
  rewrite dispatchSources_filter, Hds in Hst'.
  unfold hourStart in Hst'. rewrite Hc in Hst'.
  cbn [dispatchSources remainingDemand leb] in Hst'. unfold int in Hst'.
  revert Hst'. qle_cases c (inject_Z 0); unfold inject_Z in *; [lra|].
  unfold dispatchable in Hs. rewrite Hs. cbn [negb].
  destruct (dispatchSource_finite fin h s c 0 0 [] (yearEnergyBySource st') a
              Ha) as (used & curt & Hacc & Hu0 & Hur & Hc0 & Hfull & Hpart & Hcurt);
    [lra|lra|].
  rewrite Hacc.
  specialize (Hused used Hfull Hpart).
  rewrite dispatchSources_break
    by (cbn [remainingDemand leb int]; apply Qle_bool_iff;
        unfold inject_Z; lra).
  intros Hst'.
  eexists _, _. split; [exact Hst'|].
  unfold hourRecord.
  cbn [sources sourceDispatch app sd_type powerUsed powerCurtailed energyUsed
       curtailedEnergy dispatchPercentage hourlyEnergyUsed hourlyCurtailed].
  rewrite Hc.
  split; [reflexivity|]. cbn [sd_type powerUsed powerCurtailed].
  split; [reflexivity|].
  split; [exact Hused|]. split; [cbn [num_eq]; lra|].
  split; [cbn [num_eq]; lra|]. split; [cbn [num_eq]; lra|].
  cbn [div]. sgn_cases c; try lra; unfold int; cbn [num_eq]; unfold inject_Z;
    rewrite Hused; field; lra.
Qed.

Lemma cheapest_source_covering_the_demand_serves_alone_witness :
  exists r e,
    hourlyDispatch
      (simulateDispatch defaultElectrolyzer defaultFinancial
         (sortedSources [defaultGrid; profiledSolar])) !! 2%nat = Some r
    /\ sources r = [e]
    /\ sd_type e = PowerSource.type profiledSolar
    /\ powerUsed e =n= Fin 100
    /\ powerCurtailed e =n= Fin (150 - 100)
    /\ energyUsed r =n= Fin 100
    /\ curtailedEnergy r =n= Fin (150 - 100)
    /\ dispatchPercentage r =n= int 1.
Proof.
  apply (cheapest_source_covering_the_demand_serves_alone
           defaultElectrolyzer defaultFinancial [defaultGrid; profiledSolar]
           [defaultGrid] profiledSolar 100 150 2).
  - reflexivity.
  - lra.
  - unfold hoursPerYear. lia.
  - reflexivity.
  - vm_compute. reflexivity.
  - lra.
Defined.

(** ** An electrolyzer without capacity *)

Section NoDemand.
Variables (elz : Electrolyzer.t) (fin : Financial.t).
Variables (sorted : list PowerSource.t) (c : Q).
Hypothesis capacity_fin : Electrolyzer.capacity elz = Fin c.
Hypothesis capacity_nonpos : c <= 0.

Lemma dispatchSources_no_demand hour st :
  dispatchSources fin hour sorted (hourStart elz st) = hourStart elz st.
Proof.
  apply dispatchSources_break. unfold hourStart.
  cbn [remainingDemand]. rewrite capacity_fin. cbn [leb int].
  apply Qle_bool_iff. unfold inject_Z. lra.
Qed.

Lemma dispatchHour_no_demand st hour :
  dispatchHour elz fin sorted st hour
  = mkYearAcc (hourlyDispatch st ++ [hourRecord elz hour (hourStart elz st)])
              (totalEnergyUsed st + int 0)%num
              (totalCurtailedEnergy st + int 0)%num
              (yearEnergyBySource st).
Proof.
  unfold dispatchHour. cbv zeta. rewrite dispatchSources_no_demand.
  reflexivity.
Qed.

Lemma foldl_dispatchHour_no_demand hours :
  forall st T W,
    totalEnergyUsed st = Fin T -> totalCurtailedEnergy st = Fin W ->
    exists T' W' rs,
      let st' := foldl (dispatchHour elz fin sorted) st hours in
      totalEnergyUsed st' = Fin T' /\ T' == T
      /\ totalCurtailedEnergy st' = Fin W' /\ W' == W
      /\ yearEnergyBySource st' = yearEnergyBySource st
      /\ hourlyDispatch st' = hourlyDispatch st ++ rs
      /\ Forall (fun r => sources r = [] /\ energyUsed r = int 0
                          /\ curtailedEnergy r = int 0) rs.
Proof.
  induction hours as [|h hours IH]; intros st T W HT HW.
  - exists T, W, []. cbn [foldl]. rewrite app_nil_r.
    repeat split; auto; try reflexivity.
  - cbn [foldl]. rewrite dispatchHour_no_demand.
    destruct (IH (mkYearAcc
                    (hourlyDispatch st ++ [hourRecord elz h (hourStart elz st)])
                    (totalEnergyUsed st + int 0)%num
                    (totalCurtailedEnergy st + int 0)%num
                    (yearEnergyBySource st))
                 (T + inject_Z 0) (W + inject_Z 0))
      as (T' & W' & rs & HT' & HTq & HW' & HWq & He & Hh & Hrs).
    + cbn [totalEnergyUsed]. now rewrite HT.
    + cbn [totalCurtailedEnergy]. now rewrite HW.
    + cbv zeta in *. exists T', W', (hourRecord elz h (hourStart elz st) :: rs).
      split; [exact HT'|]. split; [unfold inject_Z in HTq; lra|].
      split; [exact HW'|]. split; [unfold inject_Z in HWq; lra|].
      split; [exact He|].
      split; [rewrite Hh; cbn [hourlyDispatch]; now rewrite <- app_assoc|].
      constructor; [|exact Hrs]. repeat split.
Qed.
Lemma simulateDispatch_no_demand :
  exists T W,
    totalEnergyUsed (simulateDispatch elz fin sorted) = Fin T /\ T == 0
    /\ totalCurtailedEnergy (simulateDispatch elz fin sorted) = Fin W /\ W == 0
    /\ yearEnergyBySource (simulateDispatch elz fin sorted) = []
    /\ Forall (fun r => sources r = [] /\ energyUsed r = int 0
                        /\ curtailedEnergy r = int 0)
              (hourlyDispatch (simulateDispatch elz fin sorted)).
Proof.
  destruct (foldl_dispatchHour_no_demand (seq 0 hoursPerYear)
              (mkYearAcc [] (int 0) (int 0) [])
              (inject_Z 0) (inject_Z 0) eq_refl eq_refl)
    as (T & W & rs & HT & HTq & HW & HWq & He & Hh & Hrs).
  cbv zeta in HT, HW, He, Hh. exists T, W. unfold simulateDispatch.
  split; [exact HT|]. split; [exact HTq|].
  split; [exact HW|]. split; [exact HWq|].
  split; [exact He|]. rewrite Hh. exact Hrs.
Qed.
End NoDemand.

Lemma zero_production_not_fin (cost k : num) (t : Q) :
  t == 0 -> ~ is_fin (cost / (Fin t * int 1000 / k))%num.
Proof.
  intros Ht.
  assert (Hy : (Fin t * int 1000 / k)%num = NaN
               \/ (Fin t * int 1000 / k)%num =n= int 0).
  { unfold int. cbn [mul]. destruct k as [q| | |]; cbn [div].
    - sgn_cases q.
      + left. assert (Hz : sgn (t * inject_Z 1000) = Eq)
          by (apply sgn_Eq; rewrite Ht; ring).
        rewrite Hz. reflexivity.
      + right. cbn [num_eq]. rewrite Ht. unfold Qdiv, inject_Z. ring.
      + right. cbn [num_eq]. rewrite Ht. unfold Qdiv, inject_Z. ring.
    - right. reflexivity.
    - right. reflexivity.
    - left. reflexivity. }
  destruct Hy as [Hy|Hy].
  - rewrite Hy. destruct cost; cbn; tauto.
  - rewrite div_by_zero by exact Hy. apply quotient_by_zero_not_fin.
Qed.

(** X24.  With an electrolyzer whose capacity is zero or negative the
    loop over the sources is left at once in every hour: no source has an
    entry, the energies of every hour and of the year are 0, the energy
    mix is empty, and the LCOH is not a finite number. *)
Theorem electrolyzer_without_capacity_dispatches_nothing
    (elz : Electrolyzer.t) (fin : Financial.t)
    (updatedSources : list PowerSource.t) (c : Q) :
  Electrolyzer.capacity elz = Fin c -> c <= 0 ->
  let r := computeResults elz fin updatedSources in
  Forall (fun rec => sources rec = [] /\ energyUsed rec = int 0
                     /\ curtailedEnergy rec = int 0) (r_hourlyDispatch r)
  /\ energyMix r = []
  /\ es_totalEnergyUsed (energyStats r) =n= int 0
  /\ es_totalCurtailedEnergy (energyStats r) =n= int 0
  /\ ~ is_fin (lcoh r).
Proof.
  intros Hc Hc0.
  destruct (simulateDispatch_no_demand elz fin (sortedSources updatedSources)
              c Hc Hc0)
    as (T & W & HT & HTq & HW & HWq & He & Hrs).
  unfold computeResults. cbv zeta.
  cbn [r_hourlyDispatch energyMix energyStats es_totalEnergyUsed
       es_totalCurtailedEnergy lcoh].
  rewrite He, HT, HW. cbn [map].
  split; [exact Hrs|]. split; [reflexivity|].
  split; [exact HTq|]. split; [exact HWq|].
  apply zero_production_not_fin. exact HTq.
Qed.

Lemma electrolyzer_without_capacity_dispatches_nothing_witness :
  let r := computeResults
             (Electrolyzer.mk (int 0) (int 800) (int 40) (int 70) (int 50))
             defaultFinancial [defaultGrid] in
  Forall (fun rec => sources rec = [] /\ energyUsed rec = int 0
                     /\ curtailedEnergy rec = int 0) (r_hourlyDispatch r)
  /\ energyMix r = []
  /\ es_totalEnergyUsed (energyStats r) =n= int 0
  /\ es_totalCurtailedEnergy (energyStats r) =n= int 0
  /\ ~ is_fin (lcoh r).
Proof.
  assert (H0 : 0 <= 0) by lra.
  exact (electrolyzer_without_capacity_dispatches_nothing
           (Electrolyzer.mk (int 0) (int 800) (int 40) (int 70) (int 50))
           defaultFinancial [defaultGrid] 0 eq_refl H0).
Defined.

(** ** Discounted sums *)

Lemma presentValueFactor_nonneg b l : 0 < b -> 0 <= presentValueFactor b l.
Proof.
  intros Hb. induction l as [|y l IH].
  - apply Qle_refl.
  - change (0 <= / b ^ y + presentValueFactor b l).
    pose proof (Qinv_lt_0_compat _ (Qpower_0_lt b y Hb)). lra.
Qed.

Lemma years_nonneg n : Forall (fun y => (0 <= y)%Z) (years n).
Proof.
  unfold years. apply List.Forall_map, List.Forall_forall. intros y _. lia.
Qed.

Lemma presentValueFactor_pos b n :
  0 < b -> (1 <= n)%Z -> 0 < presentValueFactor b (years n).
Proof.
  intros Hb Hn. unfold years.
  destruct (Z.to_nat n) as [|m] eqn:E; [lia|].
  cbn [seq map]. change (0 < / b ^ Z.of_nat 1
                             + presentValueFactor b (map Z.of_nat (seq 2 m))).
  pose proof (Qinv_lt_0_compat _ (Qpower_0_lt b (Z.of_nat 1) Hb)).
  pose proof (presentValueFactor_nonneg b (map Z.of_nat (seq 2 m)) Hb). lra.
Qed.

Lemma foldl_discount (b t : Q) (ys : list Z) :
  0 < b -> Forall (fun y => (0 <= y)%Z) ys ->
  forall a0,
    exists s,
      foldl (fun acc year => (acc + Fin t / Math_pow (Fin b) year)%num)
            (Fin a0) ys = Fin s
      /\ s == a0 + t * presentValueFactor b ys.
Proof.
  intros Hb. induction 1 as [|y ys Hy _ IH]; intros a0.
  - exists a0. split; [reflexivity|]. cbn. ring.
  - cbn [foldl].
    destruct (Math_pow_Fin b y Hy) as (x & Hx & Hq).
    pose proof (Qpower_0_lt b y Hb) as Hpos. rewrite <- Hq in Hpos.
    rewrite Hx. cbn [div]. sgn_cases x; try lra. cbn [add].
    destruct (IH (a0 + t / x)) as (s & Hfold & Hsq).
    exists s. split; [exact Hfold|].
    change (presentValueFactor b (y :: ys))
      with (/ b ^ y + presentValueFactor b ys).
    rewrite Hsq, <- Hq. field. lra.
Qed.

Section FiniteLCOE.
Variables (source : PowerSource.t) (ts : option (list num)) (fin : Financial.t).
Variables (c cx ox p e : Q).
Hypothesis capacity_fin : PowerSource.capacity source = Fin c.
Hypothesis capex_fin : PowerSource.capex source = Fin cx.
Hypothesis opex_fin : PowerSource.opex source = Fin ox.
Hypothesis rate_fin : Financial.returnRate fin = Fin p.
Hypothesis rate_range : -100 < p.
Hypothesis energy_fin : annualEnergyProduction source ts fin = Fin e.

Let b : Q := inject_Z 1 + p / inject_Z 100.
Let A : Q := presentValueFactor b (years (Financial.lifetime fin)).

Lemma base_pos : 0 < b.
Proof.
  unfold b, inject_Z.
  assert (H : p / (100 # 1) == p * (1 # 100)) by (field; lra).
  rewrite H. lra.
Qed.

Lemma totalPresentValueCost_Fin :
  exists s, totalPresentValueCost source fin = Fin s
            /\ s == cx * (c * 1000) + ox * (c * 1000) * A.
Proof.
  unfold totalPresentValueCost, capacityKW, discountRate. cbv zeta.
  rewrite capacity_fin, capex_fin, opex_fin, rate_fin.
  change (Fin p / int 100)%num with (Fin (p / inject_Z 100)).
  change (int 1 + Fin (p / inject_Z 100))%num with (Fin b).
  change (Fin c * int 1000)%num with (Fin (c * inject_Z 1000)).
  change (Fin cx * Fin (c * inject_Z 1000))%num
    with (Fin (cx * (c * inject_Z 1000))).
  change (Fin ox * Fin (c * inject_Z 1000))%num
    with (Fin (ox * (c * inject_Z 1000))).
  destruct (foldl_discount b (ox * (c * inject_Z 1000))
              (years (Financial.lifetime fin)) base_pos (years_nonneg _)
              (cx * (c * inject_Z 1000))) as (s & Hs & Hq).
  exists s. split; [exact Hs|]. rewrite Hq. unfold A, inject_Z. ring.
Qed.

Lemma totalPresentValueEnergy_Fin :
  exists s, totalPresentValueEnergy source ts fin = Fin s /\ s == e * A.
Proof.
  unfold totalPresentValueEnergy, discountRate. cbv zeta.
  rewrite energy_fin, rate_fin.
  change (Fin p / int 100)%num with (Fin (p / inject_Z 100)).
  change (int 1 + Fin (p / inject_Z 100))%num with (Fin b).
  destruct (foldl_discount b e (years (Financial.lifetime fin)) base_pos
              (years_nonneg _) (inject_Z 0)) as (s & Hs & Hq).
  exists s. split; [exact Hs|]. rewrite Hq. unfold A, inject_Z. ring.
Qed.

(** The LCOE in closed form. *)
Lemma calculateLCOE_Fin :
  (1 <= Financial.lifetime fin)%Z -> ~ e == 0 ->
  exists l, calculateLCOE source ts fin = Fin l
            /\ l * (e * A) == cx * (c * 1000) + ox * (c * 1000) * A
            /\ 0 < A.
Proof.
  intros Hn He. unfold calculateLCOE.
  destruct totalPresentValueCost_Fin as (sc & Hsc & Hqc).
  destruct totalPresentValueEnergy_Fin as (se & Hse & Hqe).
  pose proof (presentValueFactor_pos b _ base_pos Hn) as HA. fold A in HA.
  rewrite Hsc, Hse. cbn [div].
  assert (Hnz : ~ se == 0).
  { rewrite Hqe. intros H. apply Qmult_integral in H. destruct H; [tauto|lra]. }
  sgn_cases se; [contradiction| |];
    (eexists; split; [reflexivity|]; split; [|exact HA];
     rewrite <- Hqe, <- Hqc; field; exact Hnz).
Qed.

Lemma zero_energy_LCOE_not_fin :
  e == 0 -> ~ is_fin (calculateLCOE source ts fin).
Proof.
  intros He. unfold calculateLCOE.
  destruct totalPresentValueEnergy_Fin as (se & Hse & Hqe).
  rewrite Hse, div_by_zero; [apply quotient_by_zero_not_fin|].
  unfold int. cbn [num_eq]. rewrite Hqe, He. unfold inject_Z. ring.
Qed.

End FiniteLCOE.

(** ** An LCOE that is zero, or not a number *)

(** X26.  A renewable source with a profile whose [capex] and [opex] are
    both 0 gets the LCOE 0 from [calculateLCOH]; this LCOE is falsy, so
    the source is not dispatchable and every pass of the loop over the
    sources skips it. *)
Theorem free_renewable_is_never_dispatched
    (fin : Financial.t) (s : PowerSource.t) (tsd : list num) (c p e : Q) :
  PowerSource.type s <> grid ->
  truthy_opt (PowerSource.lcoe s) = false ->
  PowerSource.timeSeriesData s = Some tsd ->
  PowerSource.capacity s = Fin c ->
  PowerSource.capex s =n= int 0 -> PowerSource.opex s =n= int 0 ->
  Financial.returnRate fin = Fin p -> -100 < p ->
  (1 <= Financial.lifetime fin)%Z ->
  annualEnergyProduction s (Some tsd) fin = Fin e -> ~ e == 0 ->
  (exists l, PowerSource.lcoe (updateSource fin s) = Some (Fin l) /\ l == 0)
  /\ dispatchable (updateSource fin s) = false
  /\ forall hour rest acc,
       dispatchSources fin hour (updateSource fin s :: rest) acc
       = dispatchSources fin hour rest acc.
Proof.
  intros Hty Hl Hts Hc Hcx Hox Hp Hp1 Hn He He0.
  destruct (PowerSource.capex s) as [cx| | |] eqn:Ecx; try contradiction.
  destruct (PowerSource.opex s) as [ox| | |] eqn:Eox; try contradiction.
  unfold int in Hcx, Hox. cbn [num_eq] in Hcx, Hox. unfold inject_Z in Hcx, Hox.
  destruct (calculateLCOE_Fin s (Some tsd) fin c cx ox p e Hc Ecx Eox Hp Hp1 He
              Hn He0) as (l & Hlcoe & Hlq & HA).
  assert (Hl0 : l == 0).
  { rewrite Hcx, Hox in Hlq.
    assert (H : l * (e * presentValueFactor (inject_Z 1 + p / inject_Z 100)
                           (years (Financial.lifetime fin))) == 0)
      by (rewrite Hlq; ring).
    apply Qmult_integral in H. destruct H as [H|H]; [exact H|].
    apply Qmult_integral in H. destruct H as [H|H]; [contradiction|lra]. }
  assert (Hu : updateSource fin s = PowerSource.with_lcoe s (Some (Fin l))).
  { unfold updateSource. rewrite Hl, Hts, Hlcoe.
    destruct (PowerSource.type s); try contradiction; reflexivity. }
  assert (Hd : dispatchable (updateSource fin s) = false).
  { rewrite Hu. unfold dispatchable. cbn [PowerSource.lcoe PowerSource.with_lcoe
                                          truthy_opt].
    apply truthy_Fin. exact Hl0. }
  split; [exists l; rewrite Hu; split; [reflexivity|exact Hl0]|].
  split; [exact Hd|].
  intros hour rest acc. apply dispatchSources_skip. exact Hd.
Qed.

Lemma free_renewable_is_never_dispatched_witness :
  dispatchable
    (updateSource defaultFinancial
       (PowerSource.mk solar (int 150) (int 0) (int 0) None
                       (Some [Fin (1 # 2)]))) = false.
Proof.
  assert (Hty : solar <> grid) by discriminate.
  assert (Hz : int 0 =n= int 0) by reflexivity.
  assert (Hp : -100 < 8) by lra.
  assert (Hn : (1 <= 20)%Z) by lia.
  assert (He : ~ 0 + 150 * (1 # 2) * 1000 == 0) by (vm_compute; discriminate).
  destruct (free_renewable_is_never_dispatched defaultFinancial
              (PowerSource.mk solar (int 150) (int 0) (int 0) None
                              (Some [Fin (1 # 2)]))
              [Fin (1 # 2)] 150 8 ((0 + 150 * (1 # 2)) * 1000)
              Hty eq_refl eq_refl eq_refl Hz Hz eq_refl Hp Hn eq_refl He)
    as (_ & H & _).
  exact H.
Defined.

(** X27.  With a lifetime of 0 years or less the discounting loops of
    [calculateLCOE] do not run: the LCOE is the investment divided by 0,
    an infinity or [NaN], and never a finite number. *)
Theorem lcoe_over_no_years_is_not_finite
    (source : PowerSource.t) (ts : option (list num)) (fin : Financial.t) :
  (Financial.lifetime fin <= 0)%Z ->
  calculateLCOE source ts fin
  = quotient_by_zero (PowerSource.capex source * capacityKW source)%num
  /\ ~ is_fin (calculateLCOE source ts fin).
Proof.
  intros Hn.
  assert (Hy : years (Financial.lifetime fin) = []).
  { unfold years. replace (Z.to_nat (Financial.lifetime fin)) with 0%nat by lia.
    reflexivity. }
  assert (H : calculateLCOE source ts fin
              = quotient_by_zero (PowerSource.capex source * capacityKW source)%num).
  { unfold calculateLCOE, totalPresentValueCost, totalPresentValueEnergy.
    cbv zeta. rewrite Hy. cbn [foldl]. apply div_by_zero. reflexivity. }
  split; [exact H|]. rewrite H. apply quotient_by_zero_not_fin.
Qed.

Lemma lcoe_over_no_years_is_not_finite_witness :
  ~ is_fin (calculateLCOE profiledSolar (PowerSource.timeSeriesData profiledSolar)
              (Financial.mk (int 8) 0 (int 90))).
Proof.
  assert (Hn : (0 <= 0)%Z) by lia.
  exact (proj2 (lcoe_over_no_years_is_not_finite profiledSolar
                  (PowerSource.timeSeriesData profiledSolar)
                  (Financial.mk (int 8) 0 (int 90)) Hn)).
Defined.

(** X28.  When the annual energy production of a source is 0 (its
    profile holds only zeros, say) and the return rate is
    above -100 %, the LCOE that [calculateLCOE] returns is not a finite
    number. *)
Theorem lcoe_of_a_source_without_energy_is_not_finite
    (source : PowerSource.t) (ts : option (list num)) (fin : Financial.t)
    (p : Q) :
  Financial.returnRate fin = Fin p -> -100 < p ->
  annualEnergyProduction source ts fin =n= int 0 ->
  ~ is_fin (calculateLCOE source ts fin).
Proof.
  intros Hp Hp1 He.
  destruct (annualEnergyProduction source ts fin) as [e| | |] eqn:Ee;
    try contradiction.
  apply (zero_energy_LCOE_not_fin source ts fin p e Hp Hp1 Ee).
  exact He.
Qed.

Lemma lcoe_of_a_source_without_energy_is_not_finite_witness :
  ~ is_fin (calculateLCOE defaultSolar (Some [int 0; int 0]) defaultFinancial).
Proof.
  assert (Hp : -100 < 8) by lra.
  apply (lcoe_of_a_source_without_energy_is_not_finite
           defaultSolar (Some [int 0; int 0]) defaultFinancial 8 eq_refl Hp).
  vm_compute. reflexivity.
Defined.
